(** * strava-cli: the authenticated request lifecycle

    A shallow embedding of the stateful core of strava-cli:

    - [internal/auth]: code extraction from pasted input, the refresh of an
      expiring token pair, step 2 of the remote login;
    - [internal/config]: the persisted configuration and [Save];
    - [internal/client]: the retrying transport;
    - [cmd]: the two steps of the remote login, the requests the commands
      build, and the upload poller.

    Go strings are byte strings and are modelled by [string]; [int64] values
    are modelled by [Z], with the wrap-around written where the program
    adds or multiplies.  Calls that leave the process (the token endpoint,
    the API server, the file system, the clock) are answered by an explicit
    environment, and every call is recorded in a log so that theorems can
    count them.  The functions of Go's library that the program calls
    ([strings], [net/url] with [net/netip], [net/http]'s constructor of a
    request, the ticker) are modelled after the library. *)

From Stdlib Require Import ZArith Lia List String Ascii Bool.
Import ListNotations.

Local Open Scope string_scope.
Local Open Scope Z_scope.

(* ===================================================================== *)
(** ** Bytes and the functions of package [strings] used by the program   *)
(* ===================================================================== *)

Definition byte_val (c : ascii) : Z := Z.of_N (N_of_ascii c).

Definition byte_of (n : Z) : ascii := ascii_of_N (Z.to_N n).

(** The em dash of the program's messages, as its three UTF-8 bytes. *)
Definition emdash : string :=
  String (byte_of 226) (String (byte_of 128) (String (byte_of 148) "")).

(** The dash in the message of [internal/client/transport.go]: the source
    file holds it encoded twice (the three bytes of the em dash read as
    Windows-1252 and written as UTF-8 again), which makes eight bytes. *)
Definition emdashTwice : string :=
  String (byte_of 195) (String (byte_of 162)
    (String (byte_of 226) (String (byte_of 130) (String (byte_of 172)
      (String (byte_of 226) (String (byte_of 128) (String (byte_of 157) ""))))))).

Module strings.

Fixpoint HasPrefix (s p : string) : bool :=
  match p, s with
  | EmptyString, _ => true
  | String c p', String d s' => Ascii.eqb c d && HasPrefix s' p'
  | String _ _, EmptyString => false
  end.

(** [Contains s sub] for a non-empty [sub]. *)
Fixpoint Contains (s sub : string) : bool :=
  HasPrefix s sub ||
  match s with
  | EmptyString => false
  | String _ s' => Contains s' sub
  end.

Fixpoint ContainsByte (s : string) (c : ascii) : bool :=
  match s with
  | EmptyString => false
  | String d s' => Ascii.eqb d c || ContainsByte s' c
  end.

Fixpoint CountByte (s : string) (c : ascii) : nat :=
  match s with
  | EmptyString => O
  | String d s' => ((if Ascii.eqb d c then 1 else 0) + CountByte s' c)%nat
  end.

(** [Cut s sep] for a one-byte separator: the text before the first
    occurrence, the text after it, and whether it occurs. *)
Fixpoint Cut (s : string) (sep : ascii) : string * string * bool :=
  match s with
  | EmptyString => (EmptyString, EmptyString, false)
  | String d s' =>
      if Ascii.eqb d sep then (EmptyString, s', true)
      else let '(b, a, f) := Cut s' sep in (String d b, a, f)
  end.

(** [CutLast s sep]: the split at the last occurrence of [sep]
    ([strings.LastIndex] followed by slicing). *)
Fixpoint CutLast (s : string) (sep : ascii) : option (string * string) :=
  match s with
  | EmptyString => None
  | String d s' =>
      match CutLast s' sep with
      | Some (b, a) => Some (String d b, a)
      | None => if Ascii.eqb d sep then Some (EmptyString, s') else None
      end
  end.

Definition HasSuffixByte (s : string) (c : ascii) : bool :=
  match CutLast s c with
  | Some (_, EmptyString) => true
  | _ => false
  end.

(** The white-space runes of [unicode.IsSpace], as UTF-8 byte sequences:
    the six ASCII ones, U+0085, U+00A0, U+1680, U+2000 to U+200A, U+2028,
    U+2029, U+202F, U+205F and U+3000. *)
Definition spaceRunes : list (list Z) :=
  [ [9]; [10]; [11]; [12]; [13]; [32];
    [194; 133]; [194; 160]; [225; 154; 128];
    [226; 128; 128]; [226; 128; 129]; [226; 128; 130]; [226; 128; 131];
    [226; 128; 132]; [226; 128; 133]; [226; 128; 134]; [226; 128; 135];
    [226; 128; 136]; [226; 128; 137]; [226; 128; 138];
    [226; 128; 168]; [226; 128; 169]; [226; 128; 175];
    [226; 129; 159]; [227; 128; 128] ].

Fixpoint stripBytes (bs : list Z) (s : string) : option string :=
  match bs with
  | [] => Some s
  | b :: bs' =>
      match s with
      | String c s' => if byte_val c =? b then stripBytes bs' s' else None
      | EmptyString => None
      end
  end.

(** The rest of [s] after one leading rune out of [runes], if there is one. *)
Fixpoint stripOne (runes : list (list Z)) (s : string) : option string :=
  match runes with
  | [] => None
  | r :: runes' =>
      match stripBytes r s with
      | Some s' => Some s'
      | None => stripOne runes' s
      end
  end.

Fixpoint trimLeading (fuel : nat) (runes : list (list Z)) (s : string) : string :=
  match fuel with
  | O => s
  | S fuel' =>
      match stripOne runes s with
      | Some s' => trimLeading fuel' runes s'
      | None => s
      end
  end.

Fixpoint rev (s : string) : string :=
  match s with
  | EmptyString => EmptyString
  | String c s' => rev s' ++ String c EmptyString
  end.

Definition TrimLeft (s : string) : string :=
  trimLeading (String.length s) spaceRunes s.

(** Trailing runes are the leading runes of the reversed string, with
    their bytes reversed. *)
Definition TrimRight (s : string) : string :=
  rev (trimLeading (String.length s) (map (@List.rev Z) spaceRunes) (rev s)).

(** [strings.TrimSpace]. *)
Definition TrimSpace (s : string) : string := TrimRight (TrimLeft s).

(** [ReplaceAll s old ""] for a one-byte [old]: every such byte is dropped. *)
Fixpoint RemoveByte (s : string) (old : ascii) : string :=
  match s with
  | EmptyString => EmptyString
  | String c s' =>
      if Ascii.eqb c old then RemoveByte s' old else String c (RemoveByte s' old)
  end.

Definition lowerByte (c : ascii) : ascii :=
  let n := byte_val c in
  if (65 <=? n) && (n <=? 90) then byte_of (n + 32) else c.

Fixpoint ToLower (s : string) : string :=
  match s with
  | EmptyString => EmptyString
  | String c s' => String (lowerByte c) (ToLower s')
  end.

End strings.

(* ===================================================================== *)
(** ** Package [net/netip]: the parser of an address                      *)
(* ===================================================================== *)

(** [url.Parse] hands the text between the brackets of a host to
    [netip.ParseAddr].  The model follows the parser of the library and
    keeps of its result what [url.Parse] reads: whether the text is an
    address at all, and whether the address is an IPv4 one. *)
Module netip.

Inductive Addr := IPv4 | IPv6.

Definition isDigit (c : ascii) : bool :=
  let n := byte_val c in (48 <=? n) && (n <=? 57).

Definition isHexDigit (c : ascii) : bool :=
  let n := byte_val c in
  isDigit c || ((97 <=? n) && (n <=? 102)) || ((65 <=? n) && (n <=? 70)).

(** [parseIPv4Fields]: four decimal fields of at most 255, none with a
    leading zero, separated by single dots.  [val], [pos] and [digLen] are
    the variables of the source; [first] says that the byte is the first
    one, [prevDot] that the byte before it was a dot. *)
Fixpoint parseIPv4Fields (s : string) (first prevDot : bool) (val pos digLen : Z)
  : bool :=
  match s with
  | EmptyString => negb (pos <? 3)
  | String c s' =>
      if isDigit c then
        if (digLen =? 1) && (val =? 0) then false
        else
          let val' := val * 10 + (byte_val c - 48) in
          if 255 <? val' then false
          else parseIPv4Fields s' false false val' pos (digLen + 1)
      else if Ascii.eqb c "."%char then
        if first || String.eqb s' "" || prevDot then false
        else if pos =? 3 then false
        else parseIPv4Fields s' false true 0 (pos + 1) 0
      else false
  end.

(** The hexadecimal digits a text begins with, and what follows them. *)
Fixpoint spanHex (s : string) : string * string :=
  match s with
  | EmptyString => (EmptyString, EmptyString)
  | String c s' =>
      if isHexDigit c then let '(h, r) := spanHex s' in (String c h, r)
      else (EmptyString, s)
  end.

(** The loop of [parseIPv6] over the groups of the address.  [i] is the
    index into the sixteen bytes and [ellipsis] says that a "::" has been
    seen; the result is the state in which the loop is left, [None] for an
    error.  Every turn that goes on adds 2 to [i], so eight turns are
    enough. *)
Fixpoint parseIPv6_groups (turns : nat) (s : string) (i : Z) (ellipsis : bool)
  : option (string * Z * bool) :=
  match turns with
  | O => Some (s, i, ellipsis)
  | S turns' =>
      if negb (i <? 16) then Some (s, i, ellipsis)
      else
        let '(digits, rest) := spanHex s in
        if (4 <? String.length digits)%nat then None
        else if (String.length digits =? 0)%nat then None
        else if strings.HasPrefix rest "." then
          (* an IPv4 address in the last four bytes *)
          if negb ellipsis && negb (i =? 12) then None
          else if 16 <? i + 4 then None
          else if negb (parseIPv4Fields s true false 0 0 0) then None
          else Some (EmptyString, i + 4, ellipsis)
        else
          match rest with
          | EmptyString => Some (EmptyString, i + 2, ellipsis)
          | String c rest1 =>
              if negb (Ascii.eqb c ":"%char) then None
              else
                match rest1 with
                | EmptyString => None
                | String d rest2 =>
                    if Ascii.eqb d ":"%char then
                      if ellipsis then None
                      else if String.eqb rest2 "" then
                        Some (EmptyString, i + 2, true)
                      else parseIPv6_groups turns' rest2 (i + 2) true
                    else parseIPv6_groups turns' rest1 (i + 2) ellipsis
                end
          end
  end.

(** [parseIPv6]: whether the text is an IPv6 address, with a zone or
    without. *)
Definition parseIPv6 (input : string) : bool :=
  let '(s, zone, hasZone) := strings.Cut input "%"%char in
  if hasZone && String.eqb zone "" then false
  else
    let '(s1, ellipsis) :=
      match s with
      | String ":" (String ":" s') => (s', true)
      | _ => (s, false)
      end in
    if ellipsis && String.eqb s1 "" then true
    else
      match parseIPv6_groups 8 s1 0 ellipsis with
      | None => false
      | Some (rest, i, ellipsis') =>
          if negb (String.eqb rest "") then false
          else if i <? 16 then ellipsis'
          else negb ellipsis'
      end.

(** The first of the bytes ".", ":" and "%" in a text. *)
Fixpoint firstMark (s : string) : option ascii :=
  match s with
  | EmptyString => None
  | String c s' =>
      if Ascii.eqb c "."%char || Ascii.eqb c ":"%char || Ascii.eqb c "%"%char
      then Some c
      else firstMark s'
  end.

(** [ParseAddr]: [None] is an error. *)
Definition ParseAddr (s : string) : option Addr :=
  match firstMark s with
  | Some c =>
      if Ascii.eqb c "."%char then
        if parseIPv4Fields s true false 0 0 0 then Some IPv4 else None
      else if Ascii.eqb c ":"%char then
        if parseIPv6 s then Some IPv6 else None
      else None
  | None => None
  end.

End netip.

(* ===================================================================== *)
(** ** Package [net/url] as far as the program uses it                    *)
(* ===================================================================== *)

(** [url.Parse] and [URL.Query().Get] belong to Go's library.  The model
    follows the library's algorithm: fragment and query are cut off first,
    then scheme, authority and path are checked.  It computes the fields the
    program reads ([RawQuery]) and the cases in which [Parse] reports an
    error. *)
Module url.

Record URL := mkURL {
  Scheme : string;
  Opaque : string;
  Userinfo : option string;
  Host : string;
  Path : string;
  RawQuery : string;
  ForceQuery : bool;
  Fragment : string
}.

Definition isAlpha (c : ascii) : bool :=
  let n := byte_val c in
  ((97 <=? n) && (n <=? 122)) || ((65 <=? n) && (n <=? 90)).

Definition isDigit (c : ascii) : bool :=
  let n := byte_val c in (48 <=? n) && (n <=? 57).

Definition ishex (c : ascii) : bool :=
  let n := byte_val c in
  isDigit c || ((97 <=? n) && (n <=? 102)) || ((65 <=? n) && (n <=? 70)).

Definition unhex (c : ascii) : Z :=
  let n := byte_val c in
  if isDigit c then n - 48
  else if (97 <=? n) && (n <=? 102) then n - 97 + 10
  else if (65 <=? n) && (n <=? 70) then n - 65 + 10
  else 0.

Definition isOneOf (c : ascii) (set : string) : bool :=
  strings.ContainsByte set c.

Inductive encoding :=
| encodePath | encodeHost | encodeZone | encodeUserPassword
| encodeQueryComponent | encodeFragment.

Definition isHostMode (m : encoding) : bool :=
  match m with encodeHost | encodeZone => true | _ => false end.

(** [shouldEscape c encodeHost]. *)
Definition shouldEscapeHost (c : ascii) : bool :=
  if isAlpha c || isDigit c then false
  else if isOneOf c "!$&'()*+,;=:[]<>" || Ascii.eqb c (byte_of 34) then false
  else if isOneOf c "-_.~" then false
  else true.

(** [unescape s mode]: [None] stands for an [EscapeError] or an
    [InvalidHostError]. *)
Fixpoint unescape (mode : encoding) (s : string) : option string :=
  match s with
  | EmptyString => Some EmptyString
  | String c s' =>
      if Ascii.eqb c "%"%char then
        match s' with
        | String h1 (String h2 rest) =>
            if negb (ishex h1 && ishex h2) then None
            else
              let is25 := Ascii.eqb h1 "2"%char && Ascii.eqb h2 "5"%char in
              let v := unhex h1 * 16 + unhex h2 in
              let bad :=
                match mode with
                | encodeHost => (unhex h1 <? 8) && negb is25
                | encodeZone =>
                    negb is25 && negb (v =? 32) && shouldEscapeHost (byte_of v)
                | _ => false
                end in
              if bad then None
              else match unescape mode rest with
                   | Some r => Some (String (byte_of v) r)
                   | None => None
                   end
        | _ => None
        end
      else if Ascii.eqb c "+"%char then
        match unescape mode s' with
        | Some r =>
            Some (String (match mode with
                          | encodeQueryComponent => " "%char
                          | _ => c
                          end) r)
        | None => None
        end
      else if isHostMode mode && (byte_val c <? 128) && shouldEscapeHost c then None
      else match unescape mode s' with
           | Some r => Some (String c r)
           | None => None
           end
  end.

Definition QueryUnescape (s : string) : option string :=
  unescape encodeQueryComponent s.

Fixpoint stringContainsCTLByte (s : string) : bool :=
  match s with
  | EmptyString => false
  | String c s' =>
      (byte_val c <? 32) || (byte_val c =? 127) || stringContainsCTLByte s'
  end.

(** [getScheme]: [None] is the error "missing protocol scheme". *)
Fixpoint getScheme_from (i : nat) (acc rest whole : string)
  : option (string * string) :=
  match rest with
  | EmptyString => Some (EmptyString, whole)
  | String c rest' =>
      if isAlpha c then getScheme_from (S i) (acc ++ String c "") rest' whole
      else if isDigit c || isOneOf c "+-." then
        match i with
        | O => Some (EmptyString, whole)
        | _ => getScheme_from (S i) (acc ++ String c "") rest' whole
        end
      else if Ascii.eqb c ":"%char then
        match i with
        | O => None
        | _ => Some (acc, rest')
        end
      else Some (EmptyString, whole)
  end.

Definition getScheme (rawURL : string) : option (string * string) :=
  getScheme_from O "" rawURL rawURL.

Fixpoint allDigits (s : string) : bool :=
  match s with
  | EmptyString => true
  | String c s' => isDigit c && allDigits s'
  end.

Definition validOptionalPort (port : string) : bool :=
  match port with
  | EmptyString => true
  | String c rest => Ascii.eqb c ":"%char && allDigits rest
  end.

Fixpoint validUserinfo (s : string) : bool :=
  match s with
  | EmptyString => true
  | String c s' =>
      (isAlpha c || isDigit c || isOneOf c "-._:~!$&'()*+,;=%@")
      && validUserinfo s'
  end.

(** The position of the first "%25" in [s], as the split around it. *)
Fixpoint cutZone (s : string) : option (string * string) :=
  if strings.HasPrefix s "%25" then Some (EmptyString, s)
  else match s with
       | EmptyString => None
       | String c s' =>
           match cutZone s' with
           | Some (b, a) => Some (String c b, a)
           | None => None
           end
       end.

(** [parseHost].  Between brackets only an IPv6 address is a host; the
    brackets are found with [strings.LastIndex].  A valid port holds no
    bracket, so the last "[" comes before the last "]" whenever the port is
    accepted. *)
Definition parseHost (host : string) : option string :=
  match strings.CutLast host "["%char with
  | Some _ =>
      match strings.CutLast host "]"%char with
      | None => None
      | Some (upToClose, colonPort) =>
          if negb (validOptionalPort colonPort) then None
          else
            match unescape encodeHost colonPort,
                  strings.CutLast upToClose "["%char with
            | Some unescapedColonPort, Some (_, hostname) =>
                let unescapedHostname :=
                  match cutZone hostname with
                  | Some (hostPart, zonePart) =>
                      match unescape encodeHost hostPart,
                            unescape encodeZone zonePart with
                      | Some h, Some z => Some (h ++ z)
                      | _, _ => None
                      end
                  | None => unescape encodeHost hostname
                  end in
                match unescapedHostname with
                | Some name =>
                    match netip.ParseAddr name with
                    | Some netip.IPv6 =>
                        Some ("[" ++ name ++ "]" ++ unescapedColonPort)
                    | _ => None
                    end
                | None => None
                end
            | _, _ => None
            end
      end
  | None =>
      match strings.CutLast host ":"%char with
      | Some (_, port) =>
          if negb (validOptionalPort (String ":"%char port)) then None
          else unescape encodeHost host
      | None => unescape encodeHost host
      end
  end.

Definition parseAuthority (authority : string)
  : option (option string * string) :=
  match strings.CutLast authority "@"%char with
  | None =>
      match parseHost authority with
      | Some h => Some (None, h)
      | None => None
      end
  | Some (userinfo, hostpart) =>
      match parseHost hostpart with
      | None => None
      | Some h =>
          if negb (validUserinfo userinfo) then None
          else
            let '(username, password, _) := strings.Cut userinfo ":"%char in
            match unescape encodeUserPassword username,
                  unescape encodeUserPassword password with
            | Some _, Some _ => Some (Some userinfo, h)
            | _, _ => None
            end
      end
  end.

(** [parse rawURL false]. *)
Definition parse (rawURL : string) : option URL :=
  if stringContainsCTLByte rawURL then None
  else if String.eqb rawURL "*" then
    Some (mkURL "" "" None "" "*" "" false "")
  else
    match getScheme rawURL with
    | None => None
    | Some (scheme0, rest0) =>
        let scheme := strings.ToLower scheme0 in
        let '(rest, rawQuery, forceQuery) :=
          if strings.HasSuffixByte rest0 "?"%char
             && Nat.eqb (strings.CountByte rest0 "?"%char) 1
          then (fst (fst (strings.Cut rest0 "?"%char)), EmptyString, true)
          else let '(r, q, _) := strings.Cut rest0 "?"%char in (r, q, false) in
        if negb (strings.HasPrefix rest "/") && negb (String.eqb scheme "") then
          Some (mkURL scheme rest None "" "" rawQuery forceQuery "")
        else if negb (strings.HasPrefix rest "/")
                && strings.ContainsByte
                     (fst (fst (strings.Cut rest "/"%char))) ":"%char
        then None
        else if (negb (String.eqb scheme "") || negb (strings.HasPrefix rest "///"))
                && strings.HasPrefix rest "//"
        then
          let after := match rest with
                       | String _ (String _ a) => a
                       | _ => EmptyString
                       end in
          let '(authority, tail, slash) := strings.Cut after "/"%char in
          let rest' := if slash then String "/"%char tail else EmptyString in
          match parseAuthority authority with
          | None => None
          | Some (user, host) =>
              match unescape encodePath rest' with
              | None => None
              | Some path =>
                  Some (mkURL scheme "" user host path rawQuery forceQuery "")
              end
          end
        else
          match unescape encodePath rest with
          | None => None
          | Some path =>
              Some (mkURL scheme "" None "" path rawQuery forceQuery "")
          end
    end.

Definition Parse (rawURL : string) : option URL :=
  let '(u, frag, _) := strings.Cut rawURL "#"%char in
  match parse u with
  | None => None
  | Some url =>
      if String.eqb frag "" then Some url
      else match unescape encodeFragment frag with
           | None => None
           | Some f =>
               Some (mkURL (Scheme url) (Opaque url) (Userinfo url) (Host url)
                       (Path url) (RawQuery url) (ForceQuery url) f)
           end
  end.

(** [Values]: the pairs in the order in which [ParseQuery] appends them. *)
Definition Values := list (string * string).

(** The loop of [parseQuery]; it consumes one "&"-separated part per
    step, so the length of the query bounds the number of steps. *)
Fixpoint parseQuery_loop (fuel : nat) (query : string) : Values :=
  match fuel with
  | O => []
  | S fuel' =>
      if String.eqb query "" then []
      else
        let '(key, query', _) := strings.Cut query "&"%char in
        if strings.ContainsByte key ";"%char then parseQuery_loop fuel' query'
        else if String.eqb key "" then parseQuery_loop fuel' query'
        else
          let '(k, v, _) := strings.Cut key "="%char in
          match QueryUnescape k with
          | None => parseQuery_loop fuel' query'
          | Some k1 =>
              match QueryUnescape v with
              | None => parseQuery_loop fuel' query'
              | Some v1 => (k1, v1) :: parseQuery_loop fuel' query'
              end
          end
  end.

Definition defaultMaxParams : Z := 10000.

(** [urlParamsWithinMax], with no [urlmaxqueryparams] setting. *)
Definition urlParamsWithinMax (params : Z) : bool := params <=? defaultMaxParams.

(** [parseQuery]: a query of more parts than the limit is refused before
    anything is read, and leaves the values empty. *)
Definition parseQuery (query : string) : Values :=
  if negb (urlParamsWithinMax (Z.of_nat (strings.CountByte query "&"%char) + 1))
  then []
  else parseQuery_loop (S (String.length query)) query.

(** [u.Query()]: the error of [ParseQuery] is dropped. *)
Definition Query (u : URL) : Values := parseQuery (RawQuery u).

Fixpoint Get (v : Values) (key : string) : string :=
  match v with
  | [] => EmptyString
  | (k, x) :: v' => if String.eqb k key then x else Get v' key
  end.

End url.

(* ===================================================================== *)
(** ** Errors and formatted output                                        *)
(* ===================================================================== *)

(** [time.Duration]: nanoseconds. *)
Definition Duration := Z.
Definition Millisecond : Duration := 1000000.
Definition Second : Duration := 1000 * Millisecond.
Definition Minute : Duration := 60 * Second.

(** A Go [error] is kept as the [fmt.Errorf] call that built it: the format
    string of the source and its arguments.  Errors handed over by the
    library or the operating system carry their text. *)
Inductive arg :=
| ArgD (n : Z)            (* %d *)
| ArgS (s : string)       (* %s *)
| ArgQ (s : string)       (* %q *)
| ArgV (d : Duration)     (* %v of a time.Duration *)
| ArgW (e : error)        (* %w *)
with error :=
| Errorf (format : string) (args : list arg)
| External (msg : string).

Inductive stream := Stdout | Stderr.

(* ===================================================================== *)
(** ** [internal/config]: the data model                                  *)
(* ===================================================================== *)

Definition int64_min : Z := - 2 ^ 63.
Definition int64_max : Z := 2 ^ 63 - 1.

(** Two's-complement wrap-around of [int64] arithmetic. *)
Definition wrap64 (z : Z) : Z := (z + 2 ^ 63) mod 2 ^ 64 - 2 ^ 63.

(** [config.Tokens], [config.PendingAuth] and [Config].  The two
    inner records have modules of their own because they share field names. *)
Module Tok.
Record Tokens := mk {
  AccessToken : string;
  RefreshToken : string;
  ExpiresAt : Z;           (* Unix timestamp *)
  TokenType : string
}.
End Tok.

Module Pend.
Record PendingAuth := mk {
  State : string;
  RedirectURI : string;
  ExpiresAt : Z            (* Unix timestamp *)
}.
End Pend.

Record Config := mkConfig {
  ClientID : string;
  ClientSecret : string;
  RedirectURI : string;
  Tokens : Tok.Tokens;
  PendingAuth : option Pend.PendingAuth
}.

(** [&Config{}]. *)
Definition emptyConfig : Config :=
  mkConfig "" "" "" (Tok.mk "" "" 0 "") None.

(** [cfg.Tokens = t] and [cfg.PendingAuth = p]. *)
Definition set_Tokens (c : Config) (t : Tok.Tokens) : Config :=
  mkConfig (ClientID c) (ClientSecret c) (RedirectURI c) t (PendingAuth c).

Definition set_PendingAuth (c : Config) (p : option Pend.PendingAuth) : Config :=
  mkConfig (ClientID c) (ClientSecret c) (RedirectURI c) (Tokens c) p.

(* ===================================================================== *)
(** ** The environment of one process                                     *)
(* ===================================================================== *)

(** What [config.Load] finds at the path of config.json. *)
Inductive Disk :=
| NoFile
| Stored (c : Config)
| Corrupt.                      (* a file that does not parse *)

(** How a call of [config.Save] can fail, by the library call that fails. *)
Inductive SaveFault :=
| FaultDir (e : string)         (* os.UserConfigDir *)
| FaultMkdir (e : string)       (* os.MkdirAll *)
| FaultMarshal (e : string)     (* json.MarshalIndent *)
| FaultOpen (e : string)        (* os.WriteFile: the file cannot be opened *)
| FaultWrite (e : string).      (* os.WriteFile: the write stops part-way *)

(** The JSON payload of the token endpoint. *)
Record tokenResponse := mkTokenResponse {
  tr_AccessToken : string;
  tr_RefreshToken : string;
  tr_ExpiresAt : Z;
  tr_TokenType : string;
  tr_Message : string
}.

(** One answer of the token endpoint to [http.PostForm]. *)
Inductive TokenReply :=
| PostFails (e : string)                 (* no response *)
| ReadFails (e : string)                 (* io.ReadAll fails *)
| NotJSON (status : Z) (e : string)      (* json.Unmarshal fails *)
| Reply (status : Z) (tr : tokenResponse) (body : string).

(** One answer of the base round tripper. *)
Record Response := mkResponse {
  StatusCode : Z;
  RespBody : string
}.

Inductive ApiReply :=
| NetErr (e : string)
| Answer (r : Response).

Inductive Event :=
| EvPostForm (vals : list (string * string))     (* http.PostForm(tokenURL, vals) *)
| EvRoundTrip (authorization : string) (body : option string)
                                                 (* base.RoundTrip(cloned) *)
| EvGetBody                                      (* req.GetBody() *)
| EvSleep (d : Duration)                         (* time.Sleep *)
| EvSave (c : Config)                     (* config.Save reaching os.WriteFile *)
| EvPrintln (s : string).

Record World := mkWorld {
  cfg : Config;          (* the *config.Config the process holds *)
  clock : Z;                    (* wall clock: nanoseconds since the epoch *)
  disk : Disk;
  saveFaults : list (option SaveFault);   (* one entry per call of Save *)
  tokenServer : list TokenReply;          (* one entry per POST *)
  apiServer : list ApiReply;              (* one entry per round trip *)
  baseBackoff : Duration;
  log : list Event
}.

Definition set_cfg (w : World) (c : Config) : World :=
  mkWorld c (clock w) (disk w) (saveFaults w) (tokenServer w) (apiServer w)
    (baseBackoff w) (log w).
Definition set_clock (w : World) (t : Z) : World :=
  mkWorld (cfg w) t (disk w) (saveFaults w) (tokenServer w) (apiServer w)
    (baseBackoff w) (log w).
Definition set_disk (w : World) (d : Disk) : World :=
  mkWorld (cfg w) (clock w) d (saveFaults w) (tokenServer w) (apiServer w)
    (baseBackoff w) (log w).
Definition set_saveFaults (w : World) (l : list (option SaveFault)) : World :=
  mkWorld (cfg w) (clock w) (disk w) l (tokenServer w) (apiServer w)
    (baseBackoff w) (log w).
Definition set_tokenServer (w : World) (l : list TokenReply) : World :=
  mkWorld (cfg w) (clock w) (disk w) (saveFaults w) l (apiServer w)
    (baseBackoff w) (log w).
Definition set_apiServer (w : World) (l : list ApiReply) : World :=
  mkWorld (cfg w) (clock w) (disk w) (saveFaults w) (tokenServer w) l
    (baseBackoff w) (log w).
Definition set_log (w : World) (l : list Event) : World :=
  mkWorld (cfg w) (clock w) (disk w) (saveFaults w) (tokenServer w) (apiServer w)
    (baseBackoff w) l.

(** A Go function with access to the process state: it returns a value or
    an error, and the state it leaves behind in either case. *)
Definition M (A : Type) : Type := World -> (error + A) * World.

Definition ret {A} (a : A) : M A := fun w => (inr a, w).
Definition fail {A} (e : error) : M A := fun w => (inl e, w).
Definition bind {A B} (m : M A) (k : A -> M B) : M B :=
  fun w => match m w with
           | (inl e, w') => (inl e, w')
           | (inr a, w') => k a w'
           end.
(** [if err != nil { return wrap(err) }]. *)
Definition wrapErr {A} (m : M A) (wrap : error -> error) : M A :=
  fun w => match m w with
           | (inl e, w') => (inl (wrap e), w')
           | r => r
           end.
Definition get : M World := fun w => (inr w, w).
Definition modify (f : World -> World) : M unit := fun w => (inr tt, f w).
Definition emit (e : Event) : M unit :=
  modify (fun w => set_log w (log w ++ [e])).

Declare Scope go_scope.
Delimit Scope go_scope with go.
Notation "x <- m ;; k" := (bind m (fun x => k))
  (at level 100, m at next level, right associativity) : go_scope.
Notation "m ;;; k" := (bind m (fun _ => k))
  (at level 100, right associativity) : go_scope.
Local Open Scope go_scope.

(** [time.Now().Unix()]. *)
Definition Unix (w : World) : Z := clock w / Second.

(** [time.Sleep]. *)
Definition Sleep (d : Duration) : M unit :=
  emit (EvSleep d) ;;;
  modify (fun w => set_clock w (clock w + Z.max 0 d)).

(* ===================================================================== *)
(** ** [internal/config]: Load and Save as the rest of the program sees them *)
(* ===================================================================== *)

Module config.

(** [config.Load]: a missing file is the empty configuration. *)
Definition Load : M Config :=
  w <- get ;;
  match disk w with
  | NoFile => ret emptyConfig
  | Stored c => ret c
  | Corrupt => fail (Errorf "parse config: %w" [ArgW (External "invalid JSON")])
  end.

Definition nextSaveFault : M (option SaveFault) :=
  w <- get ;;
  match saveFaults w with
  | [] => ret None
  | f :: rest => modify (fun w => set_saveFaults w rest) ;;; ret f
  end.

(** [config.Save]: the file holds [c] afterwards, unless a library call
    fails; a write that stops part-way leaves a file that does not parse. *)
Definition Save (c : Config) : M unit :=
  f <- nextSaveFault ;;
  match f with
  | Some (FaultDir e) => fail (Errorf "locate config dir: %w" [ArgW (External e)])
  | Some (FaultMkdir e) => fail (Errorf "create config dir: %w" [ArgW (External e)])
  | Some (FaultMarshal e) => fail (Errorf "marshal config: %w" [ArgW (External e)])
  | Some (FaultOpen e) => fail (Errorf "write config: %w" [ArgW (External e)])
  | Some (FaultWrite e) =>
      emit (EvSave c) ;;;
      modify (fun w => set_disk w Corrupt) ;;;
      fail (Errorf "write config: %w" [ArgW (External e)])
  | None =>
      emit (EvSave c) ;;;
      modify (fun w => set_disk w (Stored c))
  end.

End config.

(* ===================================================================== *)
(** ** [internal/auth]                                                    *)
(* ===================================================================== *)

Module auth.

Definition tokenURL : string := "https://www.strava.com/oauth/token".

(** The test both extraction functions make on their input:
    [strings.Contains(input, "?") || strings.Contains(input, "&")]. *)
Definition looksLikeURL (input : string) : bool :=
  strings.Contains input "?" || strings.Contains input "&".

(** [extractCode] (manual-paste flow). *)
Definition extractCode (input : string) : string :=
  if looksLikeURL input then
    match url.Parse input with
    | Some parsed =>
        let c := url.Get (url.Query parsed) "code" in
        if negb (String.eqb c "") then c else input
    | None => input
    end
  else input.

(** [extractCodeAndState] (step 2 of the remote flow). *)
Definition extractCodeAndState (input0 : string) : string * string :=
  let input := strings.TrimSpace input0 in
  let input := strings.RemoveByte input "\"%char in
  if looksLikeURL input then
    match url.Parse input with
    | Some parsed =>
        (url.Get (url.Query parsed) "code", url.Get (url.Query parsed) "state")
    | None => (input, EmptyString)
    end
  else (input, EmptyString).

(** The token endpoint answers the next POST; an endpoint with no answer
    left is unreachable. *)
Definition nextTokenReply : M TokenReply :=
  w <- get ;;
  match tokenServer w with
  | [] => ret (PostFails "connection refused")
  | r :: rest => modify (fun w => set_tokenServer w rest) ;;; ret r
  end.

Definition postToken (vals : list (string * string)) : M Tok.Tokens :=
  emit (EvPostForm vals) ;;;
  reply <- nextTokenReply ;;
  match reply with
  | PostFails e => fail (Errorf "POST %s: %w" [ArgS tokenURL; ArgW (External e)])
  | ReadFails e => fail (Errorf "read response: %w" [ArgW (External e)])
  | NotJSON _ e => fail (Errorf "decode response: %w" [ArgW (External e)])
  | Reply status tr body =>
      if negb (status =? 200) then
        if negb (String.eqb (tr_Message tr) "") then
          fail (Errorf "HTTP %d: %s" [ArgD status; ArgS (tr_Message tr)])
        else
          fail (Errorf "HTTP %d: %s" [ArgD status; ArgS (strings.TrimSpace body)])
      else if String.eqb (tr_AccessToken tr) "" then
        fail (Errorf "no access_token in response" [])
      else
        ret (Tok.mk (tr_AccessToken tr) (tr_RefreshToken tr)
               (tr_ExpiresAt tr) (tr_TokenType tr))
  end.

Definition exchangeCode (clientID clientSecret code redirectURI : string)
  : M Tok.Tokens :=
  wrapErr
    (postToken [("client_id", clientID); ("client_secret", clientSecret);
                ("code", code); ("grant_type", "authorization_code");
                ("redirect_uri", redirectURI)])
    (fun e => Errorf "token exchange: %w" [ArgW e]).

Definition refreshTokens (clientID clientSecret refreshToken : string)
  : M Tok.Tokens :=
  postToken [("client_id", clientID); ("client_secret", clientSecret);
             ("refresh_token", refreshToken); ("grant_type", "refresh_token")].

(** [loginManual] from the line read from the terminal on (the prompt
    that precedes it only prints): the line is trimmed, an empty extraction
    result is an error, anything else is exchanged. *)
Definition loginManual (clientID clientSecret redirectURI line : string)
  : M Tok.Tokens :=
  let pasted := strings.TrimSpace line in
  let code := extractCode pasted in
  if String.eqb code "" then
    fail (Errorf ("no authorization code found in %q" ++ String (byte_of 10)
                  "  Hint: paste the full redirect URL or just the code value")
            [ArgQ pasted])
  else exchangeCode clientID clientSecret code redirectURI.

Definition errNotAuthenticated : error :=
  Errorf ("not authenticated " ++ emdash ++ " run: stravacli auth login") [].

Definition errRefresh (e : error) : error :=
  Errorf ("refresh token: %w" ++ String (byte_of 10)
          "  Hint: your session may have been revoked; run: stravacli auth login")
    [ArgW e].

(** The form of the refresh grant. *)
Definition refreshForm (c : Config) : list (string * string) :=
  [("client_id", ClientID c); ("client_secret", ClientSecret c);
   ("refresh_token", Tok.RefreshToken (Tokens c));
   ("grant_type", "refresh_token")].

(** [RefreshIfExpired]: refresh 30 seconds before expiry, update [cfg] in
    place and save it. *)
Definition RefreshIfExpired : M unit :=
  w <- get ;;
  if String.eqb (Tok.AccessToken (Tokens (cfg w))) "" then
    fail errNotAuthenticated
  else if wrap64 (Unix w + 30) <? Tok.ExpiresAt (Tokens (cfg w)) then
    ret tt
  else
    tokens <- wrapErr
                (refreshTokens (ClientID (cfg w)) (ClientSecret (cfg w))
                   (Tok.RefreshToken (Tokens (cfg w))))
                errRefresh ;;
    modify (fun w => set_cfg w (set_Tokens (cfg w) tokens)) ;;;
    w' <- get ;;
    config.Save (cfg w').

Definition errNoState : error :=
  Errorf ("no state parameter found in the pasted URL" ++ String (byte_of 10)
          "  Hint: paste the full redirect URL, e.g. http://localhost:8089/callback?code=...&state=...") [].

Definition errStateMismatch : error :=
  Errorf ("state mismatch " ++ emdash ++ " possible CSRF attack or stale URL"
          ++ String (byte_of 10)
          "  Run 'stravacli auth login --remote' again to get a fresh URL") [].

Definition errNoCode (pastedInput : string) : error :=
  Errorf ("no authorization code found in %q" ++ String (byte_of 10)
          "  Hint: paste the full redirect URL, e.g. http://localhost:8089/callback?code=...&state=...")
    [ArgQ pastedInput].

(** [CompleteRemoteLogin]: step 2 of the two-step remote login. *)
Definition CompleteRemoteLogin
  (clientID clientSecret redirectURI expectedState pastedInput : string)
  : M Tok.Tokens :=
  let '(code, gotState) := extractCodeAndState pastedInput in
  (if negb (String.eqb expectedState "") then
     if String.eqb gotState "" then fail errNoState
     else if negb (String.eqb gotState expectedState) then fail errStateMismatch
     else ret tt
   else ret tt) ;;;
  if String.eqb code "" then fail (errNoCode pastedInput)
  else exchangeCode clientID clientSecret code redirectURI.

End auth.

(* ===================================================================== *)
(** ** [internal/client]: the retrying transport                          *)
(* ===================================================================== *)

Module client.

Definition maxRetries : Z := 3.

(** An [*http.Request].  [Body] is the unread content of the body stream
    ([None]: no body); the stream is one object shared by the request and
    its clones.  [GetBody] returns the content of a fresh stream. *)
Record Request := mkRequest {
  Method : string;
  URL : string;
  Header : list (string * string);
  Body : option string;
  GetBody : option (unit -> error + string)
}.

(** What is left of a stream once a round trip has sent it. *)
Definition drained (stream : option string) : option string :=
  match stream with
  | None => None
  | Some _ => Some EmptyString
  end.

(** [t.base.RoundTrip(cloned)]: the base transport sends the header and
    the whole of the body stream it is given, and the server answers. *)
Definition baseRoundTrip (authorization : string) (body : option string)
  : M Response :=
  emit (EvRoundTrip authorization body) ;;;
  w <- get ;;
  match apiServer w with
  | [] => fail (External "connection refused")
  | NetErr e :: rest =>
      modify (fun w => set_apiServer w rest) ;;; fail (External e)
  | Answer r :: rest =>
      modify (fun w => set_apiServer w rest) ;;; ret r
  end.

Definition retryable (status : Z) : bool :=
  (status =? 429) || (500 <=? status).

Definition errExhausted (status : Z) : error :=
  Errorf ("HTTP %d after %d retries " ++ emdashTwice
          ++ " Strava API may be temporarily unavailable")
    [ArgD status; ArgD maxRetries].

(** The body of [cloned] on this attempt, and the state of the request's
    own stream after the round trip. *)
Definition cloneBody (attempt : Z) (req : Request) (stream : option string)
  : M (option string * option string) :=
  match GetBody req with
  | Some getBody =>
      if 0 <? attempt then
        emit EvGetBody ;;;
        match getBody tt with
        | inl gbErr =>
            fail (Errorf "reset request body for retry: %w" [ArgW gbErr])
        | inr newBody => ret (Some newBody, stream)
        end
      else ret (stream, drained stream)
  | None => ret (stream, drained stream)
  end.

(** [time.Duration(math.Pow(2, float64(attempt-1))) * baseBackoff]. *)
Definition backoff (attempt : Z) (base : Duration) : Duration :=
  wrap64 (2 ^ (attempt - 1) * base).

(** The head of the loop body: before a retry, wait and check the token
    again. *)
Definition beforeAttempt (attempt : Z) : M unit :=
  if 0 <? attempt then
    w <- get ;;
    Sleep (backoff attempt (baseBackoff w)) ;;;
    auth.RefreshIfExpired
  else ret tt.

(** The loop of [RoundTrip] from [attempt] on; [n] counts the iterations
    left, [stream] is the state of [req.Body] and [resp] the last
    response. *)
Fixpoint attempts (n : nat) (attempt : Z) (req : Request)
  (stream : option string) (resp : option Response) : M (option Response) :=
  match n with
  | O => ret resp
  | S n' =>
      beforeAttempt attempt ;;;
      w <- get ;;
      let authorization :=
        "Bearer " ++ Tok.AccessToken (Tokens (cfg w)) in
      bodies <- cloneBody attempt req stream ;;
      r <- wrapErr (baseRoundTrip authorization (fst bodies))
             (fun e => Errorf "request failed: %w" [ArgW e]) ;;
      if retryable (StatusCode r) then
        if attempt =? maxRetries then fail (errExhausted (StatusCode r))
        else attempts n' (attempt + 1) req (snd bodies) (Some r)
      else ret (Some r)
  end.

(** [retryTransport.RoundTrip]. *)
Definition RoundTrip (req : Request) : M (option Response) :=
  auth.RefreshIfExpired ;;;
  attempts (Z.to_nat (maxRetries + 1)) 0 req (Body req) None.

End client.

(* ===================================================================== *)
(** ** [net/http]: the requests the commands build                        *)
(* ===================================================================== *)

Module http.

(** The body handed to [http.NewRequestWithContext]: nil, a
    [*bytes.Buffer] or a [*bytes.Reader] with its unread content, or any
    other [io.Reader]. *)
Inductive Reader :=
| NoReader
| BytesBuffer (unread : string)
| BytesReader (unread : string)
| OtherReader (unread : string).

(** [NewRequestWithContext], as far as it returns a request.  For a
    buffer and for a reader of bytes the library keeps the content and sets
    [GetBody] to a function that returns it in a new stream each time (for
    an empty content both are [http.NoBody], the empty stream); for any
    other reader [GetBody] stays nil. *)
Definition NewRequestWithContext (method url : string) (body : Reader)
  : client.Request :=
  match body with
  | NoReader => client.mkRequest method url [] None None
  | BytesBuffer content | BytesReader content =>
      client.mkRequest method url [] (Some content) (Some (fun _ => inr content))
  | OtherReader content => client.mkRequest method url [] (Some content) None
  end.

(** [req.Header.Set(key, value)] on a request that has no such header. *)
Definition HeaderSet (req : client.Request) (key value : string) : client.Request :=
  client.mkRequest (client.Method req) (client.URL req)
    (client.Header req ++ [(key, value)]) (client.Body req) (client.GetBody req).

(** The readers whose content the library keeps. *)
Definition keepsContent (body : Reader) : bool :=
  match body with
  | OtherReader _ => false
  | _ => true
  end.

End http.

(* ===================================================================== *)
(** ** [cmd/auth.go]: step 2 of the remote login                          *)
(* ===================================================================== *)

Module cmd.

(** [_ = f()]: the error is dropped, the effects stay. *)
Definition ignoreErr {A} (m : M A) : M unit :=
  fun w => (inr tt, snd (m w)).

Definition errNoPending : error :=
  Errorf ("no pending login found " ++ emdash
          ++ " run 'strava auth login --remote' first") [].

Definition errExpired : error :=
  Errorf ("auth URL expired " ++ emdash
          ++ " run 'strava auth login --remote' again to get a fresh one") [].

(** [completeRemoteLogin]: validate state, exchange code, store tokens. *)
Definition completeRemoteLogin (authPasteURL : string) : M unit :=
  w <- get ;;
  match PendingAuth (cfg w) with
  | None => fail errNoPending
  | Some pending =>
      if Pend.ExpiresAt pending <? Unix w then
        modify (fun w => set_cfg w (set_PendingAuth (cfg w) None)) ;;;
        w1 <- get ;;
        ignoreErr (config.Save (cfg w1)) ;;;
        fail errExpired
      else
        tokens <- auth.CompleteRemoteLogin
                    (ClientID (cfg w)) (ClientSecret (cfg w))
                    (Pend.RedirectURI pending) (Pend.State pending)
                    authPasteURL ;;
        modify (fun w => set_cfg w (set_Tokens (cfg w) tokens)) ;;;
        modify (fun w => set_cfg w (set_PendingAuth (cfg w) None)) ;;;
        w2 <- get ;;
        wrapErr (config.Save (cfg w2))
          (fun e => Errorf "save config: %w" [ArgW e]) ;;;
        emit (EvPrintln
          "Successfully authenticated! Tokens stored in ~/.config/strava-cli/config.json")
  end.

(** [runAuthLogin]: the configuration is loaded, and [--auth-url] alone
    selects step 2.  [otherFlows] stands for the rest of the function (the
    prompts, step 1 and the interactive login), which runs when the flag is
    empty. *)
Definition runAuthLogin (authPasteURL : string) (otherFlows : M unit) : M unit :=
  c <- wrapErr config.Load (fun e => Errorf "load config: %w" [ArgW e]) ;;
  modify (fun w => set_cfg w c) ;;;
  if negb (String.eqb authPasteURL "") then completeRemoteLogin authPasteURL
  else otherFlows.

End cmd.

(* ===================================================================== *)
(** ** [cmd/uploads.go]: the upload poller                                *)
(* ===================================================================== *)

Module uploads.

Record uploadStatus := mkUpload {
  ID : Z;
  IDStr : string;
  ExternalID : option string;
  Error : option string;
  Status : string;
  ActivityID : option Z
}.

Inductive Output :=
| Fprintf (s : stream) (format : string) (args : list arg)
| Fprintln (s : stream) (text : string).

Definition nl : string := String (byte_of 10) EmptyString.

(** The rest of the text after a tag opened just before [s]: at least one
    byte other than ">" and then the first ">". *)
Fixpoint afterGt (s : string) : option string :=
  match s with
  | EmptyString => None
  | String c s' => if Ascii.eqb c ">"%char then Some s' else afterGt s'
  end.

Definition closeTag (s : string) : option string :=
  match s with
  | EmptyString => None
  | String c s' => if Ascii.eqb c ">"%char then None else afterGt s'
  end.

(** [htmlTagRE.ReplaceAllString(s, "")] for the expression "<[^>]+>". *)
Fixpoint stripTags (fuel : nat) (s : string) : string :=
  match fuel with
  | O => s
  | S fuel' =>
      match s with
      | EmptyString => EmptyString
      | String c s' =>
          if Ascii.eqb c "<"%char then
            match closeTag s' with
            | Some rest => stripTags fuel' rest
            | None => String c (stripTags fuel' s')
            end
          else String c (stripTags fuel' s')
      end
  end.

Definition stripHTML (s : string) : string :=
  strings.TrimSpace (stripTags (String.length s) s).

Definition printUploadStatus (w : stream) (u : uploadStatus) : list Output :=
  [Fprintf w ("Upload ID:   %d" ++ nl) [ArgD (ID u)];
   Fprintf w ("Status:      %s" ++ nl) [ArgS (Status u)]]
  ++ match ActivityID u with
     | Some a => [Fprintf w ("Activity ID: %d" ++ nl) [ArgD a]]
     | None => []
     end
  ++ match Error u with
     | Some e => [Fprintf w ("Error:       %s" ++ nl) [ArgS (stripHTML e)]]
     | None => []
     end.

(** What one call of [fetchUploadStatus] returns, and how long it takes. *)
Inductive FetchResult :=
| FetchErr (e : error)
| Fetched (u : uploadStatus) (raw : string).

Record Fetch := mkFetch {
  took : Duration;
  result : FetchResult
}.

(** The surroundings of one run: the answer to the n-th fetch, the instant
    at which the command's context is cancelled (if ever) and its error,
    the choice [select] makes when both channels are ready, and the
    [--json] flag. *)
Record Env := mkEnv {
  fetches : nat -> Fetch;
  cancelAt : option Z;
  cancelErr : error;
  tie : nat -> bool;
  jsonOutput : bool
}.

(** The state of the loop: the clock (nanoseconds), the ticker (the
    instant of its next tick and whether a tick waits in its channel), the
    number of fetches made and the output written. *)
Record State := mkState {
  now : Z;
  nextTick : Z;
  tickBuffered : bool;
  fetched : nat;
  out : list Output
}.

Definition pollInterval : Duration := 3 * Second.
Definition timeout : Duration := 5 * Minute.

(** The ticks that came due up to [now]: the first one is kept in the
    channel, the others are dropped. *)
Definition advance (st : State) : State :=
  if nextTick st <=? now st then
    mkState (now st)
      (nextTick st + pollInterval * ((now st - nextTick st) / pollInterval + 1))
      true (fetched st) (out st)
  else st.

Inductive Selected := CtxDone | Tick.

Definition takeBuffered (st : State) : State :=
  mkState (now st) (nextTick st) false (fetched st) (out st).

Definition waitUntil (t : Z) (st : State) : State :=
  mkState t (nextTick st) (tickBuffered st) (fetched st) (out st).

Definition waitTick (st : State) : State :=
  mkState (nextTick st) (nextTick st + pollInterval) false (fetched st) (out st).

(** The [select] over [cmd.Context().Done()] and [ticker.C]. *)
Definition select (env : Env) (st0 : State) : Selected * State :=
  let st := advance st0 in
  let cancelled :=
    match cancelAt env with
    | Some c => c <=? now st
    | None => false
    end in
  if tickBuffered st then
    if cancelled && tie env (fetched st) then (CtxDone, st)
    else (Tick, takeBuffered st)
  else if cancelled then (CtxDone, st)
  else
    match cancelAt env with
    | Some c =>
        if c <? nextTick st then (CtxDone, waitUntil c st)
        else if (c =? nextTick st) && tie env (fetched st)
             then (CtxDone, waitUntil c st)
             else (Tick, waitTick st)
    | None => (Tick, waitTick st)
    end.

Definition write (o : list Output) (st : State) : State :=
  mkState (now st) (nextTick st) (tickBuffered st) (fetched st) (out st ++ o).

Definition errUploadFailed (msg : string) : error :=
  Errorf "upload failed: %s" [ArgS (stripHTML msg)].

Definition errTimedOut (id : Z) : error :=
  Errorf "upload timed out after %v; check status with: strava uploads get %d"
    [ArgV timeout; ArgD id].

(** The [return] statements of [pollUpload], and the [error] each one
    returns. *)
Inductive Return :=
| Cancelled (e : error)        (* return cmd.Context().Err() *)
| FetchFailed (e : error)      (* return err *)
| UploadFailed (e : error)     (* return fmt.Errorf("upload failed: ...") *)
| Done                         (* return nil *)
| TimedOut (e : error).        (* return fmt.Errorf("upload timed out ...") *)

Definition returned (r : Return) : option error :=
  match r with
  | Cancelled e | FetchFailed e | UploadFailed e | TimedOut e => Some e
  | Done => None
  end.

(** The case [<-ticker.C] of the loop: [inl r] returns from [pollUpload],
    [inr st] goes round again. *)
Definition onTick (env : Env) (id deadline : Z) (st : State)
  : Return * State + State :=
  let f := fetches env (fetched st) in
  let st1 := mkState (now st + took f) (nextTick st) (tickBuffered st)
               (S (fetched st)) (out st) in
  match result f with
  | FetchErr err => inl (FetchFailed err, st1)
  | Fetched u raw =>
      match Error u with
      | Some e =>
          let st2 := if jsonOutput env then write [Fprintln Stdout raw] st1
                     else write (printUploadStatus Stdout u) st1 in
          inl (UploadFailed (errUploadFailed e), st2)
      | None =>
          match ActivityID u with
          | Some _ =>
              let st2 := if jsonOutput env then write [Fprintln Stdout raw] st1
                         else write (printUploadStatus Stdout u
                                     ++ [Fprintln Stderr "Done."]) st1 in
              inl (Done, st2)
          | None =>
              if deadline <? now st1 then inl (TimedOut (errTimedOut id), st1)
              else inr (write [Fprintf Stderr ("  still processing: %s" ++ nl)
                                 [ArgS (Status u)]] st1)
          end
      end
  end.

(** The [for] loop; [None] when [fuel] iterations were not enough. *)
Fixpoint loop (fuel : nat) (env : Env) (id deadline : Z) (st : State)
  : option (Return * State) :=
  match fuel with
  | O => None
  | S fuel' =>
      match select env st with
      | (CtxDone, st1) => Some (Cancelled (cancelErr env), st1)
      | (Tick, st1) =>
          match onTick env id deadline st1 with
          | inl r => Some r
          | inr st2 => loop fuel' env id deadline st2
          end
      end
  end.

(** [pollUpload], called at the instant [start]. *)
Definition pollUpload (fuel : nat) (env : Env) (start id : Z)
  : option (Return * State) :=
  let deadline := start + timeout in
  let st := mkState start (start + pollInterval) false O
              [Fprintf Stderr
                 ("Polling upload %d (Ctrl-C to cancel, check later with: strava uploads get %d)" ++ nl)
                 [ArgD id; ArgD id]] in
  loop fuel env id deadline st.

End uploads.

(* ===================================================================== *)
(** ** [internal/config]: Save, call by call on the file system           *)
(* ===================================================================== *)

Module configfile.

Record File := mkFile {
  mode : Z;
  data : string
}.

(** The configuration directory (its mode, if it exists), config.json in
    it, and the umask of the process. *)
Record FS := mkFS {
  dir : option Z;
  file : option File;
  umask : Z
}.

Definition nl : string := String (byte_of 10) EmptyString.
Definition dq : string := String (byte_of 34) EmptyString.

Section Marshal.

(** The encoders of [encoding/json] for a string and for an [int64]. *)
Variable encodeString : string -> string.
Variable encodeInt : Z -> string.

Definition field (indent name value : string) : string :=
  indent ++ dq ++ name ++ dq ++ ": " ++ value.

Definition object (indent : string) (fields : list string) : string :=
  "{" ++ nl ++ String.concat ("," ++ nl) fields ++ nl ++ indent ++ "}".

Definition omitempty (indent name : string) (v : string) : list string :=
  if String.eqb v "" then [] else [field indent name (encodeString v)].

Definition marshalTokens (t : Tok.Tokens) : string :=
  object "  "
    ([field "    " "access_token" (encodeString (Tok.AccessToken t));
      field "    " "refresh_token" (encodeString (Tok.RefreshToken t));
      field "    " "expires_at" (encodeInt (Tok.ExpiresAt t))]
     ++ omitempty "    " "token_type" (Tok.TokenType t)).

Definition marshalPending (p : Pend.PendingAuth) : string :=
  object "  "
    [field "    " "state" (encodeString (Pend.State p));
     field "    " "redirect_uri" (encodeString (Pend.RedirectURI p));
     field "    " "expires_at" (encodeInt (Pend.ExpiresAt p))].

(** [json.MarshalIndent(cfg, "", "  ")], by the tags of the structs. *)
Definition MarshalIndent (c : Config) : string :=
  object ""
    ([field "  " "client_id" (encodeString (ClientID c));
      field "  " "client_secret" (encodeString (ClientSecret c))]
     ++ omitempty "  " "redirect_uri" (RedirectURI c)
     ++ [field "  " "tokens" (marshalTokens (Tokens c))]
     ++ match PendingAuth c with
        | Some p => [field "  " "pending_auth" (marshalPending p)]
        | None => []
        end).

(** The calls [Save] makes that change the file system. *)
Inductive Op :=
| MkdirAll (perm : Z)
| OpenTrunc (perm : Z)       (* O_WRONLY|O_CREATE|O_TRUNC *)
| WriteByte (c : ascii).

Definition step (fs : FS) (op : Op) : FS :=
  match op with
  | MkdirAll perm =>
      match dir fs with
      | Some _ => fs
      | None => mkFS (Some (Z.ldiff perm (umask fs))) (file fs) (umask fs)
      end
  | OpenTrunc perm =>
      match file fs with
      | Some f => mkFS (dir fs) (Some (mkFile (mode f) EmptyString)) (umask fs)
      | None =>
          mkFS (dir fs) (Some (mkFile (Z.ldiff perm (umask fs)) EmptyString))
            (umask fs)
      end
  | WriteByte c =>
      match file fs with
      | Some f =>
          mkFS (dir fs) (Some (mkFile (mode f) (data f ++ String c EmptyString)))
            (umask fs)
      | None => fs
      end
  end.

Definition run (ops : list Op) (fs : FS) : FS := fold_left step ops fs.

(** [os.MkdirAll(dir, 0700)], then [os.WriteFile(path, data, 0600)]:
    open with truncation, then write. *)
Definition Save_ops (c : Config) : list Op :=
  MkdirAll 448 :: OpenTrunc 384
  :: map WriteByte (list_ascii_of_string (MarshalIndent c)).

(** A save that runs to its end. *)
Definition Save (c : Config) (fs : FS) : FS := run (Save_ops c) fs.

(** A save cut short after its first [k] steps. *)
Definition interrupted (k : nat) (c : Config) (fs : FS) : FS :=
  run (firstn k (Save_ops c)) fs.

End Marshal.

(** The encoding of text that needs no escape, and of a number in
    decimal; used to run [Save] on examples. *)
Definition quoted (s : string) : string := dq ++ s ++ dq.

Fixpoint digits (fuel : nat) (n : Z) (acc : string) : string :=
  match fuel with
  | O => acc
  | S fuel' =>
      let acc' := String (byte_of (48 + n mod 10)) acc in
      if n / 10 =? 0 then acc' else digits fuel' (n / 10) acc'
  end.

(** A number has no more decimal digits than binary ones. *)
Definition decimal (n : Z) : string :=
  if n <? 0 then "-" ++ digits (Z.to_nat (Z.log2 (- n) + 1)) (- n) EmptyString
  else digits (Z.to_nat (Z.log2 n + 1)) n EmptyString.

End configfile.


(** The end of [cmd.completeRemoteLogin], from the successful exchange on:
    the statements the function runs with the new tokens. *)
Definition storeTokens (tokens : Tok.Tokens) : M unit :=
  modify (fun w => set_cfg w (set_Tokens (cfg w) tokens)) ;;;
  modify (fun w => set_cfg w (set_PendingAuth (cfg w) None)) ;;;
  w2 <- get ;;
  wrapErr (config.Save (cfg w2)) (fun e => Errorf "save config: %w" [ArgW e]) ;;;
  emit (EvPrintln
    "Successfully authenticated! Tokens stored in ~/.config/strava-cli/config.json").

(* ===================================================================== *)
(** ** Counting the calls in a log                                        *)
(* ===================================================================== *)

Definition isPostForm (e : Event) : bool :=
  match e with EvPostForm _ => true | _ => false end.

Definition isRoundTrip (e : Event) : bool :=
  match e with EvRoundTrip _ _ => true | _ => false end.

(** The number of token-endpoint calls and of API round trips in a log. *)
Definition exchanges (l : list Event) : nat := List.length (filter isPostForm l).
Definition roundTrips (l : list Event) : nat := List.length (filter isRoundTrip l).

(** The bodies sent by the round trips of a log, in order. *)
Fixpoint payloads (l : list Event) : list (option string) :=
  match l with
  | [] => []
  | EvRoundTrip _ b :: l' => b :: payloads l'
  | _ :: l' => payloads l'
  end.

(* ===================================================================== *)
(** ** Example environments                                               *)
(* ===================================================================== *)

(** A stored configuration with a pending remote login, the answer of a
    token endpoint that grants a new pair, and a process started on them. *)
Definition exTokens : Tok.Tokens :=
  Tok.mk "old-access" "old-refresh" 1700000000 "Bearer".

Definition exPending (state : string) : Pend.PendingAuth :=
  Pend.mk state "http://localhost:8089/callback" 1700000600.

Definition exConfig (state : string) : Config :=
  mkConfig "cid" "csecret" "" exTokens (Some (exPending state)).

Definition exGrant : tokenResponse :=
  mkTokenResponse "new-access" "new-refresh" 1700021600 "Bearer" "".

Definition exNewTokens : Tok.Tokens :=
  Tok.mk "new-access" "new-refresh" 1700021600 "Bearer".

(** A process that has not loaded its configuration yet; [state] is the
    state of the pending login on disk. *)
Definition exWorld (state : string) : World :=
  mkWorld emptyConfig (1700000000 * Second) (Stored (exConfig state)) []
    [Reply 200 exGrant "{}"; Reply 200 exGrant "{}"] []
    (500 * Millisecond) [].

(** The rest of [runAuthLogin], which the examples do not reach. *)
Definition exOtherFlows : M unit :=
  fail (External "the interactive login is not part of the example").

(** The same with the configuration in memory. *)
Definition exLoaded (state : string) : World :=
  set_cfg (exWorld state) (exConfig state).

(** A process with a fresh token pair in memory, in front of an API server
    that gives the answers [answers]. *)
Definition exFreshConfig : Config :=
  mkConfig "cid" "csecret" "" exNewTokens None.

Definition exApi (answers : list ApiReply) : World :=
  mkWorld exFreshConfig (1700000000 * Second) (Stored exFreshConfig) []
    [] answers (500 * Millisecond) [].

Definition status (code : Z) : ApiReply := Answer (mkResponse code "").

Definition exGet : client.Request :=
  client.mkRequest "GET" "https://www.strava.com/api/v3/athlete" [] None None.

(** An update request whose body can be produced again, as
    [http.NewRequest] builds it from a [bytes.Reader], and one whose body
    is a plain stream. *)
Definition exPut (payload : string) : client.Request :=
  client.mkRequest "PUT" "https://www.strava.com/api/v3/activities/1"
    [("Content-Type", "application/json")] (Some payload)
    (Some (fun _ => inr payload)).

Definition exPutStream (payload : string) : client.Request :=
  client.mkRequest "PUT" "https://www.strava.com/api/v3/activities/1"
    [("Content-Type", "application/json")] (Some payload) None.

(** The upload of the example: two fetches find it in processing, the
    third finds the activity 555.  [d] is the time each fetch takes. *)
Definition exProcessing : uploads.uploadStatus :=
  uploads.mkUpload 7 "7" None None "Your activity is still being processed." None.

Definition exReady : uploads.uploadStatus :=
  uploads.mkUpload 7 "7" None None "Your activity is ready." (Some 555).

Definition exPoll (d : Duration) : uploads.Env :=
  uploads.mkEnv
    (fun n => match n with
              | 0%nat | 1%nat => uploads.mkFetch d (uploads.Fetched exProcessing "{}")
              | _ => uploads.mkFetch d (uploads.Fetched exReady "{}")
              end)
    None (External "context canceled") (fun _ => false) false.

(** A server that is slow: the first fetch takes six minutes, and finds
    the upload in the state [u]. *)
Definition exSlow (u : uploads.uploadStatus) : uploads.Env :=
  uploads.mkEnv (fun _ => uploads.mkFetch (6 * Minute) (uploads.Fetched u "{}"))
    None (External "context canceled") (fun _ => false) false.

(* ===================================================================== *)
(** ** Predicates used in the statements                                  *)
(* ===================================================================== *)

(** A step that makes no round trip: it may add events to the log, but no
    round trip, and it leaves the API server and the backoff alone. *)
Definition quietStep (w w' : World) : Prop :=
  (exists added, log w' = (log w ++ added)%list
                 /\ roundTrips added = 0%nat /\ payloads added = [])
  /\ apiServer w' = apiServer w /\ baseBackoff w' = baseBackoff w.

(** The token of [c] needs no refresh at the instant [t] (nanoseconds). *)
Definition freshAt (c : Config) (t : Z) : Prop :=
  Tok.AccessToken (Tokens c) <> ""
  /\ (wrap64 (t / Second + 30) <? Tok.ExpiresAt (Tokens c)) = true.

(** The time the loop sleeps before the iteration [attempt], and in [n]
    iterations from [attempt] on. *)
Definition pause (attempt : Z) (base : Duration) : Z :=
  if 0 <? attempt then Z.max 0 (client.backoff attempt base) else 0.



(** [GetBody], where there is one, returns a body. *)
Definition replayable (req : client.Request) : Prop :=
  forall g, client.GetBody req = Some g -> exists b, g tt = inr b.

(** An upload that is still being processed, and a run of the poller in
    which the first [j] fetches found the upload in that state. *)
Definition isPending (u : uploads.uploadStatus) : Prop :=
  uploads.Error u = None /\ uploads.ActivityID u = None.

Definition pendingBefore (env : uploads.Env) (j : nat) : Prop :=
  forall i, (i < j)%nat ->
    exists u raw, uploads.result (uploads.fetches env i) = uploads.Fetched u raw
                  /\ isPending u.

(** The status [u] (or, with [--json], the raw answer) is on standard
    output. *)
Definition reports (env : uploads.Env) (u : uploads.uploadStatus) (raw : string)
  (out : list uploads.Output) : Prop :=
  if uploads.jsonOutput env then In (uploads.Fprintln Stdout raw) out
  else incl (uploads.printUploadStatus Stdout u) out.

(** What the poller returns on a terminal observation. *)
Definition terminalReturn (u : uploads.uploadStatus) : uploads.Return :=
  match uploads.Error u with
  | Some e => uploads.UploadFailed (uploads.errUploadFailed e)
  | None => uploads.Done
  end.

(* ===================================================================== *)
(** ** Reading a log: headers and waits                                   *)
(* ===================================================================== *)

(** The Authorization headers of the round trips of a log and the
    durations of its sleeps, in order. *)
Fixpoint authorizations (l : list Event) : list string :=
  match l with
  | [] => []
  | EvRoundTrip a _ :: l' => a :: authorizations l'
  | _ :: l' => authorizations l'
  end.

Fixpoint sleeps (l : list Event) : list Duration :=
  match l with
  | [] => []
  | EvSleep d :: l' => d :: sleeps l'
  | _ :: l' => sleeps l'
  end.

(** The waits the loop of [RoundTrip] computes in [n] iterations from
    [attempt] on: none before the attempt 0. *)
Fixpoint backoffsFrom (n : nat) (attempt : Z) (base : Duration) : list Duration :=
  match n with
  | O => []
  | S n' =>
      (if 0 <? attempt then [client.backoff attempt base] else [])
      ++ backoffsFrom n' (attempt + 1) base
  end.

(** A header that carries a non-empty bearer token. *)
Definition bearer (authorization : string) : Prop :=
  exists token, authorization = "Bearer " ++ token /\ token <> "".

(** The errors of [config.Save]. *)
Definition isSaveError (e : error) : Prop :=
  exists format msg,
    e = Errorf format [ArgW (External msg)]
    /\ In format ["locate config dir: %w"; "create config dir: %w";
                  "marshal config: %w"; "write config: %w"].

(** The pair of tokens that an answer of the token endpoint grants. *)
Definition grantedPair (tr : tokenResponse) : Tok.Tokens :=
  Tok.mk (tr_AccessToken tr) (tr_RefreshToken tr) (tr_ExpiresAt tr)
    (tr_TokenType tr).




(** The round trips and the sleeps of a log in the order in which they
    happen: [None] for a round trip, [Some d] for a sleep of [d]. *)
Fixpoint rhythm (l : list Event) : list (option Duration) :=
  match l with
  | [] => []
  | EvRoundTrip _ _ :: l' => None :: rhythm l'
  | EvSleep d :: l' => Some d :: rhythm l'
  | _ :: l' => rhythm l'
  end.

(** The rhythm of a call of [RoundTrip] that goes through all its
    attempts: four round trips with the three waits between them. *)
Definition schedule (base : Duration) : list (option Duration) :=
  [None; Some base; None; Some (2 * base); None; Some (4 * base); None].

(** The rhythm the loop of [RoundTrip] has in [n] iterations from
    [attempt] on. *)
Fixpoint rhythmFrom (n : nat) (attempt : Z) (base : Duration)
  : list (option Duration) :=
  match n with
  | O => []
  | S n' =>
      (if 0 <? attempt then [Some (client.backoff attempt base)] else [])
      ++ None :: rhythmFrom n' (attempt + 1) base
  end.

(* ===================================================================== *)
(** ** [net/url]: escaping and [Values.Encode]; [encoding/hex]            *)
(* ===================================================================== *)

(** The other direction of [net/url], which the program takes when it
    builds the authorization URL. *)
Module urlenc.

(** [shouldEscape c encodeQueryComponent]: every byte but the letters,
    the digits and "-_.~". *)
Definition shouldEscape (c : ascii) : bool :=
  negb (url.isAlpha c || url.isDigit c || url.isOneOf c "-_.~").

(** [upperhex[n]] for a half byte [n]. *)
Definition upperhex (n : Z) : ascii :=
  if n <? 10 then byte_of (48 + n) else byte_of (65 + (n - 10)).

(** [QueryEscape]: a space becomes "+", any other byte to escape becomes
    "%" and its two hexadecimal digits. *)
Fixpoint QueryEscape (s : string) : string :=
  match s with
  | EmptyString => EmptyString
  | String c s' =>
      if shouldEscape c then
        if Ascii.eqb c " "%char then String "+"%char (QueryEscape s')
        else String "%"%char
               (String (upperhex (byte_val c / 16))
                  (String (upperhex (byte_val c mod 16)) (QueryEscape s')))
      else String c (QueryEscape s')
  end.

(** [slices.Sort(keys)], on the pairs of a [Values] that has one value for
    each key. *)
Fixpoint insert (p : string * string) (l : list (string * string))
  : list (string * string) :=
  match l with
  | [] => [p]
  | q :: l' =>
      if String.leb (fst p) (fst q) then p :: q :: l' else q :: insert p l'
  end.

Definition sortKeys (v : list (string * string)) : list (string * string) :=
  fold_right insert [] v.

(** The loop of [Values.Encode] over the keys in the order given:
    "key=value" for each, joined by "&", keys and values escaped. *)
Definition encodePairs (v : list (string * string)) : string :=
  String.concat "&"
    (map (fun p => QueryEscape (fst p) ++ "=" ++ QueryEscape (snd p)) v).

(** [Values.Encode]: the keys are sorted first. *)
Definition Encode (v : list (string * string)) : string :=
  encodePairs (sortKeys v).

End urlenc.

Module hex.

(** [hextable[n]] for a half byte [n]. *)
Definition hextable (n : Z) : ascii :=
  if n <? 10 then byte_of (48 + n) else byte_of (97 + (n - 10)).

(** [hex.EncodeToString]: two lower-case digits for each byte. *)
Fixpoint EncodeToString (src : string) : string :=
  match src with
  | EmptyString => EmptyString
  | String c src' =>
      String (hextable (byte_val c / 16))
        (String (hextable (byte_val c mod 16)) (EncodeToString src'))
  end.

End hex.

(* ===================================================================== *)
(** ** [internal/auth]: the authorization URL and the state               *)
(* ===================================================================== *)

Module oauth.

Definition authURL : string := "https://www.strava.com/oauth/authorize".
Definition scopes : string := "activity:read_all,activity:write".

(** [buildAuthURL] (the local and the manual flow). *)
Definition buildAuthURL (clientID redirectURI : string) : string :=
  authURL ++ "?"
  ++ urlenc.Encode [("client_id", clientID); ("redirect_uri", redirectURI);
                    ("response_type", "code"); ("approval_prompt", "auto");
                    ("scope", scopes)].

(** [RemoteAuthURL] (step 1 of the remote flow). *)
Definition RemoteAuthURL (clientID redirectURI state : string) : string :=
  authURL ++ "?"
  ++ urlenc.Encode [("client_id", clientID); ("redirect_uri", redirectURI);
                    ("response_type", "code"); ("approval_prompt", "auto");
                    ("scope", scopes); ("state", state)].

(** [GenerateState]; [random] is what [rand.Read] does with the 16 bytes
    it is given: an error, or the bytes it has written. *)
Definition GenerateState (random : error + string) : error + string :=
  match random with
  | inl err => inl (Errorf "generate state: %w" [ArgW err])
  | inr b => inr (hex.EncodeToString b)
  end.

End oauth.

(* ===================================================================== *)
(** ** [cmd/auth.go]: step 1 of the remote login                          *)
(* ===================================================================== *)

Module step1.

Definition defaultRedirectURI : string := "http://localhost:8089/callback".

(** [startRemoteLogin]: generate the state, persist it with the redirect
    URI and an expiry of ten minutes, print the authorization URL. *)
Definition startRemoteLogin (random : error + string) : M unit :=
  match oauth.GenerateState random with
  | inl err => fail err
  | inr state =>
      w <- get ;;
      let redirectURI :=
        if String.eqb (RedirectURI (cfg w)) "" then defaultRedirectURI
        else RedirectURI (cfg w) in
      let authURL := oauth.RemoteAuthURL (ClientID (cfg w)) redirectURI state in
      modify (fun w =>
        set_cfg w (set_PendingAuth (cfg w)
                     (Some (Pend.mk state redirectURI
                              ((clock w + 10 * Minute) / Second))))) ;;;
      w1 <- get ;;
      wrapErr (config.Save (cfg w1))
        (fun e => Errorf "save pending state: %w" [ArgW e]) ;;;
      emit (EvPrintln "Open the following URL in your local browser:") ;;;
      emit (EvPrintln "") ;;;
      emit (EvPrintln ("  " ++ authURL)) ;;;
      emit (EvPrintln "") ;;;
      emit (EvPrintln ("Strava will redirect to:" ++ String (byte_of 10) "  "
                       ++ redirectURI ++ "?code=<code>&state=<state>")) ;;;
      emit (EvPrintln "") ;;;
      emit (EvPrintln
        "Copy that URL (even if the page shows 'connection refused') and run:") ;;;
      emit (EvPrintln "  strava auth login --auth-url '<paste full URL here>'")
  end.

End step1.

(* ===================================================================== *)
(** ** Further predicates and examples                                    *)
(* ===================================================================== *)

(** Every byte of [s] satisfies [p]. *)
Fixpoint allBytes (p : ascii -> bool) (s : string) : bool :=
  match s with
  | EmptyString => true
  | String c s' => p c && allBytes p s'
  end.

(** A printable ASCII byte other than the space, the backslash, "#" and
    "?"; a text made of such bytes. *)
Definition plainByte (c : ascii) : bool :=
  let n := byte_val c in
  (33 <=? n) && (n <=? 126)
  && negb (n =? 92) && negb (n =? 35) && negb (n =? 63).

Definition allPlain (s : string) : bool := allBytes plainByte s.

(** The bytes [QueryEscape] writes: letters, digits, "-_.~", and "%" and
    "+" for what it escapes. *)
Definition escapedByte (c : ascii) : bool :=
  url.isAlpha c || url.isDigit c || url.isOneOf c "-_.~%+".

(** A lower-case hexadecimal digit. *)
Definition lowerHexByte (c : ascii) : bool :=
  let n := byte_val c in
  ((48 <=? n) && (n <=? 57)) || ((97 <=? n) && (n <=? 102)).

(** [u] with the query [q]. *)
Definition withQuery (u : url.URL) (q : string) : url.URL :=
  url.mkURL (url.Scheme u) (url.Opaque u) (url.Userinfo u) (url.Host u)
    (url.Path u) q false (url.Fragment u).

(** The URL to which the authorization server sends the browser back:
    the redirect URI with the parameters [params], escaped, as its query. *)
Definition redirectedTo (redirectURI : string) (params : list (string * string))
  : string :=
  redirectURI ++ "?" ++ urlenc.encodePairs params.

(** The poller of the example under a context that is cancelled at the
    instant [c]. *)
Definition exCancelled (c : Z) : uploads.Env :=
  uploads.mkEnv (uploads.fetches (exPoll Second)) (Some c)
    (External "context canceled") (fun _ => false) false.

(** The sixteen bytes 0, 1, ..., 15. *)
Definition exRandom : string :=
  string_of_list_ascii (map byte_of [0; 1; 2; 3; 4; 5; 6; 7; 8; 9; 10; 11; 12; 13; 14; 15]).

(** A process holding the credentials and an old token pair, with no
    pending login. *)
Definition exStep1 : World :=
  mkWorld (mkConfig "cid" "csecret" "" exTokens None) (1700000000 * Second)
    (Stored (mkConfig "cid" "csecret" "" exTokens None)) []
    [Reply 200 exGrant "{}"] [] (500 * Millisecond) [].

(** [s] contains a match of the expression "<[^>]+>". *)
Fixpoint hasTag (s : string) : bool :=
  match s with
  | EmptyString => false
  | String c s' =>
      (Ascii.eqb c "<"%char
       && match uploads.closeTag s' with Some _ => true | None => false end)
      || hasTag s'
  end.

(* ===================================================================== *)
(** ** [strconv], and [parseID] of [cmd/activities.go]                    *)
(* ===================================================================== *)

Module strconv.

Definition maxUint64 : Z := 2 ^ 64 - 1.

(** The loop of [ParseUint s 10 64] from the value [n] on; [None] is a
    syntax error or a range error. *)
Fixpoint parseDigits (s : string) (n : Z) : option Z :=
  match s with
  | EmptyString => Some n
  | String c s' =>
      if url.isDigit c then
        let d := byte_val c - 48 in
        if maxUint64 / 10 + 1 <=? n then None
        else
          let n1 := n * 10 + d in
          if maxUint64 <? n1 then None else parseDigits s' n1
      else None
  end.

Definition ParseUint (s : string) : option Z :=
  if String.eqb s "" then None else parseDigits s 0.

(** [ParseInt s 10 64]: an optional sign, then [ParseUint], then the
    range of [int64]. *)
Definition ParseInt (s : string) : option Z :=
  match s with
  | EmptyString => None
  | String c s' =>
      let neg := Ascii.eqb c "-"%char in
      let body := if Ascii.eqb c "+"%char || Ascii.eqb c "-"%char then s' else s in
      match ParseUint body with
      | None => None
      | Some un =>
          if negb neg && (2 ^ 63 <=? un) then None
          else if neg && (2 ^ 63 <? un) then None
          else Some (if neg then - un else un)
      end
  end.

(** [FormatInt n 10], which is also what [fmt] prints for "%d". *)
Definition FormatInt (n : Z) : string := configfile.decimal n.

End strconv.

Module ids.

(** [parseID]. *)
Definition parseID (s : string) : error + Z :=
  match strconv.ParseInt s with
  | Some id => inr id
  | None => inl (Errorf "invalid ID %q: must be a number" [ArgQ s])
  end.

End ids.

(** The four places at which the commands build a request of their own
    and send it through the transport. *)
Module requests.

(** [fetchUploadStatus] in [cmd/uploads.go]. *)
Definition uploadStatus (id : Z) : client.Request :=
  http.NewRequestWithContext "GET"
    ("https://www.strava.com/api/v3/uploads/" ++ strconv.FormatInt id)
    http.NoReader.

(** [runRoutesExport] in [cmd/routes.go]. *)
Definition routeExport (id : Z) (format : string) : client.Request :=
  http.NewRequestWithContext "GET"
    ("https://www.strava.com/api/v3/routes/" ++ strconv.FormatInt id
     ++ "/export_" ++ format)
    http.NoReader.

(** [runActivitiesUpdate] in [cmd/activities.go]: the JSON text is handed
    over in a [bytes.Reader]. *)
Definition activityUpdate (id : Z) (bodyBytes : string) : client.Request :=
  http.HeaderSet
    (http.NewRequestWithContext "PUT"
       ("https://www.strava.com/api/v3/activities/" ++ strconv.FormatInt id)
       (http.BytesReader bodyBytes))
    "Content-Type" "application/json".

(** [runActivitiesUpload] in [cmd/activities.go]: the multipart form is
    written into a [bytes.Buffer], which is handed over. *)
Definition activityUpload (buf contentType : string) : client.Request :=
  http.HeaderSet
    (http.NewRequestWithContext "POST" "https://www.strava.com/api/v3/uploads"
       (http.BytesBuffer buf))
    "Content-Type" contentType.

End requests.

(** A process whose token is fresh now and due for a refresh half a
    second later, in front of an API server that answers 503 and then 200
    and of a token endpoint that grants a new pair. *)
Definition exExpiring : World :=
  let c := mkConfig "cid" "csecret" ""
             (Tok.mk "old-access" "old-refresh" 1700000031 "Bearer") None in
  mkWorld c (1700000000 * Second + 800 * Millisecond) (Stored c) []
    [Reply 200 exGrant "{}"] [status 503; status 200] (500 * Millisecond) [].


(** A host that is a name or an IPv4 address, with a port or without: it
    holds no bracket and at most one colon. *)
Definition plainHost (host : string) : bool :=
  negb (strings.ContainsByte host "["%char)
  && negb (strings.ContainsByte host "]"%char)
  && (strings.CountByte host ":"%char <=? 1)%nat.

(** An upload whose second fetch fails on the network. *)
Definition exFailing : uploads.Env :=
  uploads.mkEnv
    (fun n => match n with
              | 0%nat => uploads.mkFetch Second (uploads.Fetched exProcessing "{}")
              | _ => uploads.mkFetch Second
                       (uploads.FetchErr
                          (Errorf "fetch upload: %w" [ArgW (External "timeout")]))
              end)
    None (External "context canceled") (fun _ => false) false.

(* ===================================================================== *)
(** * Properties                                                          *)
(* ===================================================================== *)

(** ** Strings *)

Lemma eqb_empty_false (s : string) : s <> "" -> String.eqb s "" = false.
Proof. intro H. apply String.eqb_neq. exact H. Qed.

Lemma Contains_nonempty (s sub : string) :
  sub <> "" -> strings.Contains s sub = true -> s <> "".
Proof.
  intros Hsub H ->. destruct sub as [|c sub]; [congruence|]. discriminate H.
Qed.

Lemma looksLikeURL_nonempty (input : string) :
  auth.looksLikeURL input = true -> input <> "".
Proof.
  unfold auth.looksLikeURL. intro H.
  apply orb_true_iff in H as [H|H];
    eapply Contains_nonempty; try exact H; discriminate.
Qed.

(** ** Extraction of the code (manual paste and step 2) *)

Lemma extractCode_cases (input : string) :
  (exists u, auth.looksLikeURL input = true /\ url.Parse input = Some u
             /\ url.Get (url.Query u) "code" <> ""
             /\ auth.extractCode input = url.Get (url.Query u) "code")
  \/ auth.extractCode input = input.
Proof.
  unfold auth.extractCode.
  destruct (auth.looksLikeURL input) eqn:Hl; [|now right].
  destruct (url.Parse input) as [u|] eqn:Hp; [|now right].
  destruct (String.eqb (url.Get (url.Query u) "code") "") eqn:Hc; simpl.
  - now right.
  - left. exists u. apply String.eqb_neq in Hc. auto.
Qed.

Lemma extractCode_empty_iff (input : string) :
  auth.extractCode input = "" <-> input = "".
Proof.
  split.
  - intro H. destruct (extractCode_cases input) as [(u & _ & _ & Hne & He)|He];
      congruence.
  - intros ->. reflexivity.
Qed.

Lemma extractCodeAndState_bare (input : string) :
  auth.looksLikeURL (strings.RemoveByte (strings.TrimSpace input) "\"%char) = false ->
  auth.extractCodeAndState input =
    (strings.RemoveByte (strings.TrimSpace input) "\"%char, "").
Proof. unfold auth.extractCodeAndState. intros ->. reflexivity. Qed.

(** ** Step 2: [auth.CompleteRemoteLogin] *)

Ltac monad :=
  unfold bind, ret, fail, get, modify, emit, wrapErr; simpl.

(** With a non-empty expected state, a pasted input whose state is missing
    or different is rejected before anything else happens. *)
Lemma CompleteRemoteLogin_rejects
  (clientID clientSecret redirectURI expectedState pastedInput : string) (w : World) :
  expectedState <> "" ->
  snd (auth.extractCodeAndState pastedInput) <> expectedState ->
  auth.CompleteRemoteLogin clientID clientSecret redirectURI expectedState pastedInput w
  = (inl (if String.eqb (snd (auth.extractCodeAndState pastedInput)) ""
          then auth.errNoState else auth.errStateMismatch), w).
Proof.
  intros HX HY. unfold auth.CompleteRemoteLogin.
  destruct (auth.extractCodeAndState pastedInput) as [code gotState]; simpl in *.
  rewrite (eqb_empty_false _ HX); simpl.
  destruct (String.eqb gotState "") eqn:He; monad; [reflexivity|].
  apply String.eqb_neq in HY. rewrite HY. reflexivity.
Qed.

(** Without an expected state nothing is validated: the outcome depends on
    the extracted code alone. *)
Lemma CompleteRemoteLogin_no_expected_state
  (clientID clientSecret redirectURI pastedInput : string) (w : World) :
  auth.CompleteRemoteLogin clientID clientSecret redirectURI "" pastedInput w
  = if String.eqb (fst (auth.extractCodeAndState pastedInput)) ""
    then (inl (auth.errNoCode pastedInput), w)
    else auth.exchangeCode clientID clientSecret
           (fst (auth.extractCodeAndState pastedInput)) redirectURI w.
Proof.
  unfold auth.CompleteRemoteLogin.
  destruct (auth.extractCodeAndState pastedInput) as [code gotState]; simpl.
  monad. destruct (String.eqb code ""); reflexivity.
Qed.

(** [postToken] makes one call of the token endpoint and touches neither
    the configuration in memory nor the file. *)
Lemma postToken_effects (vals : list (string * string)) (w : World) :
  let w' := snd (auth.postToken vals w) in
  log w' = (log w ++ [EvPostForm vals])%list
  /\ cfg w' = cfg w /\ disk w' = disk w /\ saveFaults w' = saveFaults w
  /\ clock w' = clock w /\ apiServer w' = apiServer w
  /\ baseBackoff w' = baseBackoff w
  /\ tokenServer w' = tl (tokenServer w).
Proof.
  unfold auth.postToken, auth.nextTokenReply. monad.
  destruct (tokenServer w) as [|r rest] eqn:E; simpl.
  - rewrite ?E. repeat split; reflexivity.
  - destruct r as [e|e|st e|st tr body]; simpl; try (repeat split; reflexivity).
    destruct (negb (st =? 200)); simpl.
    + destruct (negb (String.eqb (tr_Message tr) "")); simpl; repeat split; reflexivity.
    + destruct (String.eqb (tr_AccessToken tr) ""); simpl; repeat split; reflexivity.
Qed.

(** The errors of the exchange are wrapped, so none of them is one of the
    two state errors. *)
Lemma exchangeCode_error_wrapped (clientID clientSecret code redirectURI : string)
  (w : World) (e : error) :
  fst (auth.exchangeCode clientID clientSecret code redirectURI w) = inl e ->
  exists e', e = Errorf "token exchange: %w" [ArgW e'].
Proof.
  unfold auth.exchangeCode, wrapErr.
  destruct (auth.postToken _ w) as [[e'|t] w']; simpl; intro H; inversion H.
  now exists e'.
Qed.

(** C7, as stated, fails for the manual-paste extraction: a pasted URL
    without a [code] parameter contains "?" and parses, yet the result is
    not its (empty) [code] parameter but the whole input, which is then
    sent to the exchange instead of being rejected as empty. *)
Lemma extractCode_url_without_code :
  let input := "https://example.com/callback?error=access_denied" in
  auth.looksLikeURL input = true
  /\ (exists u, url.Parse input = Some u
                /\ url.Get (url.Query u) "code" = ""
                /\ auth.extractCode input <> url.Get (url.Query u) "code")
  /\ auth.extractCode input = input
  /\ (forall w, auth.loginManual "cid" "csecret" "https://example.com/callback" input w
                 = auth.exchangeCode "cid" "csecret" input
                     "https://example.com/callback" w).
Proof.
  cbv zeta. split; [reflexivity|]. split.
  - eexists. split; [reflexivity|]. split; [reflexivity|]. discriminate.
  - split; [reflexivity|]. intro w. reflexivity.
Qed.

(** C7, amended.  Manual paste: the result is the [code] parameter when the
    input contains "?" or "&", parses as a URL and has a non-empty [code]
    parameter, and the whole input in every other case; it is empty only
    for empty input, and then the login fails.  Step 2: the input is first
    trimmed and freed of backslashes; if it then contains "?" or "&" and
    parses, code and state are the two query parameters, otherwise the
    whole cleaned input is the code and the state is empty; an empty code
    is an error and nothing is exchanged.  The two examples of the claim
    hold. *)
Theorem extraction_spec (input : string) :
  (forall u, auth.looksLikeURL input = true -> url.Parse input = Some u ->
             url.Get (url.Query u) "code" <> "" ->
             auth.extractCode input = url.Get (url.Query u) "code")
  /\ (auth.looksLikeURL input = false \/ url.Parse input = None
      \/ (exists u, url.Parse input = Some u /\ url.Get (url.Query u) "code" = "") ->
      auth.extractCode input = input)
  /\ (auth.extractCode input = "" <-> input = "")
  /\ (strings.TrimSpace input = "" ->
      forall clientID clientSecret redirectURI w,
      exists e,
        auth.loginManual clientID clientSecret redirectURI input w = (inl e, w))
  /\ (let cleaned := strings.RemoveByte (strings.TrimSpace input) "\"%char in
      (forall u, auth.looksLikeURL cleaned = true -> url.Parse cleaned = Some u ->
                 auth.extractCodeAndState input
                 = (url.Get (url.Query u) "code", url.Get (url.Query u) "state"))
      /\ (auth.looksLikeURL cleaned = false \/ url.Parse cleaned = None ->
          auth.extractCodeAndState input = (cleaned, "")))
  /\ (fst (auth.extractCodeAndState input) = "" ->
      forall clientID clientSecret redirectURI expectedState w,
      exists e,
        auth.CompleteRemoteLogin clientID clientSecret redirectURI
          expectedState input w = (inl e, w))
  /\ auth.extractCode "http://host/cb?code=abc&state=xyz" = "abc"
  /\ auth.extractCodeAndState "http://host/cb?code=abc&state=xyz" = ("abc", "xyz")
  /\ auth.extractCode "abc" = "abc"
  /\ auth.extractCodeAndState "abc" = ("abc", "").
Proof.
  repeat match goal with |- _ /\ _ => split end; try reflexivity.
  - intros u Hl Hp Hc. unfold auth.extractCode. rewrite Hl, Hp.
    rewrite (eqb_empty_false _ Hc). reflexivity.
  - unfold auth.extractCode. intros [Hl|[Hp|(u & Hp & Hc)]].
    + now rewrite Hl.
    + rewrite Hp. now destruct (auth.looksLikeURL input).
    + rewrite Hp, Hc. now destruct (auth.looksLikeURL input).
  - apply extractCode_empty_iff.
  - intros H clientID clientSecret redirectURI w.
    unfold auth.loginManual. rewrite H. simpl. eexists. reflexivity.
  - cbv zeta. unfold auth.extractCodeAndState. split.
    + intros u Hl Hp. now rewrite Hl, Hp.
    + intros [Hl|Hp].
      * now rewrite Hl.
      * rewrite Hp. now destruct (auth.looksLikeURL _).
  - intros Hc clientID clientSecret redirectURI expectedState w.
    unfold auth.CompleteRemoteLogin.
    destruct (auth.extractCodeAndState input) as [code gotState]; simpl in Hc.
    subst code. monad.
    destruct (negb (String.eqb expectedState "")); simpl; eauto.
    destruct (String.eqb gotState ""); simpl; eauto.
    destruct (negb (String.eqb gotState expectedState)); simpl; eauto.
Qed.

(** The amended C7 at the pasted URL of the claim and at an empty line. *)
Lemma extraction_spec_witness :
  auth.extractCode "http://host/cb?code=abc&state=xyz" = "abc"
  /\ auth.extractCodeAndState "http://host/cb?code=abc&state=xyz" = ("abc", "xyz")
  /\ (exists e, auth.loginManual "cid" "csecret" "https://example.com/callback"
                   "  " (exLoaded "") = (inl e, exLoaded "")).
Proof.
  split; [|split].
  - destruct (url.Parse "http://host/cb?code=abc&state=xyz") as [u|] eqn:Hp;
      [|discriminate Hp].
    transitivity (url.Get (url.Query u) "code").
    + apply (proj1 (extraction_spec "http://host/cb?code=abc&state=xyz") u);
        [reflexivity | exact Hp |].
      inversion Hp; subst u; discriminate.
    + inversion Hp; subst u; reflexivity.
  - destruct (url.Parse "http://host/cb?code=abc&state=xyz") as [u|] eqn:Hp;
      [|discriminate Hp].
    transitivity (url.Get (url.Query u) "code", url.Get (url.Query u) "state").
    + apply (proj1 (proj1 (proj2 (proj2 (proj2 (proj2
               (extraction_spec "http://host/cb?code=abc&state=xyz")))))) u);
        [reflexivity | exact Hp].
    + inversion Hp; subst u; reflexivity.
  - apply (proj1 (proj2 (proj2 (proj2 (extraction_spec "  "))))). reflexivity.
Defined.

Lemma exchangeCode_effects (clientID clientSecret code redirectURI : string)
  (w : World) :
  let w' := snd (auth.exchangeCode clientID clientSecret code redirectURI w) in
  log w' = (log w ++ [EvPostForm
                        [("client_id", clientID); ("client_secret", clientSecret);
                         ("code", code); ("grant_type", "authorization_code");
                         ("redirect_uri", redirectURI)]])%list
  /\ cfg w' = cfg w /\ disk w' = disk w /\ saveFaults w' = saveFaults w
  /\ clock w' = clock w.
Proof.
  unfold auth.exchangeCode, wrapErr.
  pose proof (postToken_effects
    [("client_id", clientID); ("client_secret", clientSecret);
     ("code", code); ("grant_type", "authorization_code");
     ("redirect_uri", redirectURI)] w) as H.
  destruct (auth.postToken _ w) as [[e|t] w']; simpl in *; tauto.
Qed.

(** What [CompleteRemoteLogin] can return as an error, and what it leaves
    untouched. *)
Lemma CompleteRemoteLogin_effects
  (clientID clientSecret redirectURI expectedState pastedInput : string) (w : World) :
  let r := auth.CompleteRemoteLogin clientID clientSecret redirectURI
             expectedState pastedInput w in
  cfg (snd r) = cfg w /\ disk (snd r) = disk w
  /\ saveFaults (snd r) = saveFaults w /\ clock (snd r) = clock w
  /\ forall e, fst r = inl e ->
       e = auth.errNoState \/ e = auth.errStateMismatch
       \/ e = auth.errNoCode pastedInput
       \/ exists e', e = Errorf "token exchange: %w" [ArgW e'].
Proof.
  unfold auth.CompleteRemoteLogin.
  destruct (auth.extractCodeAndState pastedInput) as [code gotState]. monad.
  pose proof (exchangeCode_effects clientID clientSecret code redirectURI w) as Hx.
  pose proof (exchangeCode_error_wrapped clientID clientSecret code redirectURI w)
    as Hw.
  simpl in Hx.
  destruct (negb (String.eqb expectedState "")); simpl;
    [destruct (String.eqb gotState ""); simpl;
     [|destruct (negb (String.eqb gotState expectedState)); simpl]|];
    try destruct (String.eqb code ""); simpl;
    (repeat split; try reflexivity; try tauto;
     intros e H; try (apply Hw in H; tauto); inversion H; tauto).
Qed.

(** C9, as stated, fails on two inputs without "?" or "&": a backslash is
    removed before the input is used as the code, so what is exchanged is
    not the entire pasted input; and an empty input is not exchanged at all. *)
Lemma CompleteRemoteLogin_bare_input_is_cleaned :
  let w := exLoaded "" in
  let pasted := "a\b" in
  auth.looksLikeURL pasted = false
  /\ log (snd (auth.CompleteRemoteLogin "cid" "csecret"
                 "http://localhost:8089/callback" "" pasted w))
     = [EvPostForm [("client_id", "cid"); ("client_secret", "csecret");
                    ("code", "ab"); ("grant_type", "authorization_code");
                    ("redirect_uri", "http://localhost:8089/callback")]]
  /\ "ab" <> pasted
  /\ auth.CompleteRemoteLogin "cid" "csecret" "http://localhost:8089/callback"
       "" "" w = (inl (auth.errNoCode ""), w).
Proof.
  cbv zeta. repeat split; try reflexivity. discriminate.
Qed.

(** C9, amended.  With an empty expected state [CompleteRemoteLogin]
    validates no state: neither state error can occur, and the two state
    errors occur only when the expected state is non-empty.  The extracted
    code, if it is not empty, is what is sent to the token exchange; for an
    input that has no "?" or "&" once trimmed and freed of backslashes,
    the code is that cleaned input.  An empty code is rejected and nothing
    is exchanged. *)
Theorem CompleteRemoteLogin_without_expected_state
  (clientID clientSecret redirectURI pastedInput : string) (w : World) :
  let code := fst (auth.extractCodeAndState pastedInput) in
  let cleaned := strings.RemoveByte (strings.TrimSpace pastedInput) "\"%char in
  let r := auth.CompleteRemoteLogin clientID clientSecret redirectURI ""
             pastedInput w in
  fst r <> inl auth.errNoState
  /\ fst r <> inl auth.errStateMismatch
  /\ (code <> "" ->
      r = auth.exchangeCode clientID clientSecret code redirectURI w
      /\ log (snd r)
         = (log w ++ [EvPostForm
                        [("client_id", clientID); ("client_secret", clientSecret);
                         ("code", code); ("grant_type", "authorization_code");
                         ("redirect_uri", redirectURI)]])%list)
  /\ (code = "" -> r = (inl (auth.errNoCode pastedInput), w))
  /\ (auth.looksLikeURL cleaned = false -> code = cleaned)
  /\ (forall expectedState,
        let r' := auth.CompleteRemoteLogin clientID clientSecret redirectURI
                    expectedState pastedInput w in
        fst r' = inl auth.errNoState \/ fst r' = inl auth.errStateMismatch ->
        expectedState <> "").
Proof.
  cbv zeta.
  assert (Hno : forall e,
    fst (auth.CompleteRemoteLogin clientID clientSecret redirectURI ""
           pastedInput w) = inl e ->
    e <> auth.errNoState /\ e <> auth.errStateMismatch).
  { intros e. rewrite CompleteRemoteLogin_no_expected_state.
    destruct (String.eqb (fst (auth.extractCodeAndState pastedInput)) ""); simpl.
    - intro H. inversion H. split; discriminate.
    - intro H. apply exchangeCode_error_wrapped in H as [e' ->].
      split; discriminate. }
  split; [|split; [|split; [|split; [|split]]]].
  - intro H. apply Hno in H. tauto.
  - intro H. apply Hno in H. tauto.
  - intro Hc. rewrite CompleteRemoteLogin_no_expected_state.
    rewrite (eqb_empty_false _ Hc). split; [reflexivity|].
    apply exchangeCode_effects.
  - intro Hc. rewrite CompleteRemoteLogin_no_expected_state, Hc. reflexivity.
  - intro Hl. now rewrite extractCodeAndState_bare.
  - intros expectedState H ->. destruct H as [H|H]; apply Hno in H; tauto.
Qed.

(** The amended C9 on a pasted URL and on an empty input. *)
Lemma CompleteRemoteLogin_without_expected_state_witness :
  log (snd (auth.CompleteRemoteLogin "cid" "csecret"
              "http://localhost:8089/callback" ""
              "http://localhost:8089/callback?code=abc&state=xyz" (exLoaded "")))
  = [EvPostForm [("client_id", "cid"); ("client_secret", "csecret");
                 ("code", "abc"); ("grant_type", "authorization_code");
                 ("redirect_uri", "http://localhost:8089/callback")]]
  /\ auth.CompleteRemoteLogin "cid" "csecret" "http://localhost:8089/callback"
       "" "" (exLoaded "") = (inl (auth.errNoCode ""), exLoaded "").
Proof.
  split.
  - refine (proj2 (proj1 (proj2 (proj2
      (CompleteRemoteLogin_without_expected_state "cid" "csecret"
         "http://localhost:8089/callback"
         "http://localhost:8089/callback?code=abc&state=xyz" (exLoaded ""))))
      _)).
    discriminate.
  - apply (proj1 (proj2 (proj2 (proj2
      (CompleteRemoteLogin_without_expected_state "cid" "csecret"
         "http://localhost:8089/callback" "" (exLoaded "")))))).
    reflexivity.
Defined.

(** ** Step 2: [cmd.completeRemoteLogin] *)

Lemma completeRemoteLogin_pending (w : World) (pending : Pend.PendingAuth)
  (authPasteURL : string) :
  PendingAuth (cfg w) = Some pending ->
  Unix w <= Pend.ExpiresAt pending ->
  cmd.completeRemoteLogin authPasteURL w
  = match auth.CompleteRemoteLogin (ClientID (cfg w)) (ClientSecret (cfg w))
            (Pend.RedirectURI pending) (Pend.State pending) authPasteURL w with
    | (inl e, w') => (inl e, w')
    | (inr tokens, w') => storeTokens tokens w'
    end.
Proof.
  intros Hp Ht. unfold cmd.completeRemoteLogin. monad. rewrite Hp.
  assert ((Pend.ExpiresAt pending <? Unix w) = false) as -> by (apply Z.ltb_ge; lia).
  destruct (auth.CompleteRemoteLogin _ _ _ _ _ w) as [[e|tokens] w']; reflexivity.
Qed.

Lemma runAuthLogin_stored (w : World) (c : Config) (authPasteURL : string)
  (otherFlows : M unit) :
  authPasteURL <> "" ->
  disk w = Stored c ->
  cmd.runAuthLogin authPasteURL otherFlows w
  = cmd.completeRemoteLogin authPasteURL (set_cfg w c).
Proof.
  intros Hu Hd. unfold cmd.runAuthLogin, config.Load. monad.
  rewrite Hd, (eqb_empty_false _ Hu). reflexivity.
Qed.

Lemma Save_no_fault (c : Config) (w : World) :
  hd None (saveFaults w) = None ->
  config.Save c w
  = (inr tt, set_disk (set_log (set_saveFaults w (tl (saveFaults w)))
                         (log w ++ [EvSave c])) (Stored c)).
Proof.
  unfold config.Save, config.nextSaveFault. monad.
  destruct (saveFaults w) as [|f rest] eqn:E; simpl.
  - intros _. destruct w; simpl in *. subst. reflexivity.
  - intros ->. reflexivity.
Qed.

Lemma Save_error_wrapped (c : Config) (w : World) (e : error) :
  fst (config.Save c w) = inl e -> exists fmt e', e = Errorf fmt [ArgW e'].
Proof.
  unfold config.Save, config.nextSaveFault. monad.
  destruct (saveFaults w) as [|[f|] rest]; simpl; try discriminate.
  destruct f; simpl; intro H; inversion H; eauto.
Qed.

Lemma storeTokens_error (tokens : Tok.Tokens) (w : World) (e : error) :
  fst (storeTokens tokens w) = inl e ->
  exists e', e = Errorf "save config: %w" [ArgW e'].
Proof.
  unfold storeTokens. monad.
  destruct (config.Save _ _) as [[e'|[]] w']; simpl; intro H; inversion H.
  eauto.
Qed.

(** Whenever the file holds a pending login, step 2 does not answer "no
    pending login found". *)
Lemma runAuthLogin_finds_pending (w : World) (c : Config)
  (pending : Pend.PendingAuth) (authPasteURL : string) (otherFlows : M unit) :
  authPasteURL <> "" ->
  disk w = Stored c ->
  PendingAuth c = Some pending ->
  fst (cmd.runAuthLogin authPasteURL otherFlows w) <> inl cmd.errNoPending.
Proof.
  intros Hu Hd Hp. rewrite (runAuthLogin_stored w c) by assumption.
  destruct (Z.le_gt_cases (Unix w) (Pend.ExpiresAt pending)) as [Ht|Ht].
  - rewrite (completeRemoteLogin_pending _ pending) by (simpl; assumption).
    simpl.
    pose proof (CompleteRemoteLogin_effects (ClientID c) (ClientSecret c)
      (Pend.RedirectURI pending) (Pend.State pending) authPasteURL (set_cfg w c))
      as (_ & _ & _ & _ & He).
    destruct (auth.CompleteRemoteLogin _ _ _ _ _ _) as [[e|tokens] w']; simpl in *.
    + intro H. inversion H. subst e.
      destruct (He _ eq_refl) as [H1|[H1|[H1|[e' H1]]]]; discriminate H1.
    + destruct (fst (storeTokens tokens w')) as [e|[]] eqn:Hs; [|discriminate].
      apply storeTokens_error in Hs as [e' ->]. discriminate.
  - unfold cmd.completeRemoteLogin. monad. rewrite Hp.
    unfold Unix in *. simpl.
    assert ((Pend.ExpiresAt pending <? clock w / Second) = true) as ->
      by (apply Z.ltb_lt; lia).
    simpl. discriminate.
Qed.

(** C1, as stated, fails: after a state mismatch the pending login is still
    in the file, and the same call again is validated again and fails with
    the same state error, not with "no pending login found". *)
Lemma step2_mismatch_keeps_pending :
  let pasted := "http://localhost:8089/callback?code=abc&state=WRONG" in
  let run1 := cmd.runAuthLogin pasted exOtherFlows (exWorld "3f9a") in
  let run2 := cmd.runAuthLogin pasted exOtherFlows (snd run1) in
  fst run1 = inl auth.errStateMismatch
  /\ disk (snd run1) = Stored (exConfig "3f9a")
  /\ PendingAuth (exConfig "3f9a") = Some (exPending "3f9a")
  /\ fst run2 = inl auth.errStateMismatch
  /\ fst run2 <> inl cmd.errNoPending.
Proof.
  cbv zeta. repeat split; try reflexivity. discriminate.
Qed.

(** C1, amended.  For a step-2 call that finds a non-expired pending login:
    if the validation and the exchange succeed and the save does not fail,
    the file holds the new tokens and no pending login, and the same call
    again fails with "no pending login found"; if the call fails on a
    missing state, a state mismatch, a missing code or a failed exchange,
    that error is returned, the file is left as it was, pending login
    included, and the same call again does not fail with "no pending login
    found". *)
Theorem step2_consumes_pending_on_success
  (w : World) (c : Config) (pending : Pend.PendingAuth) (authPasteURL : string)
  (otherFlows : M unit) :
  authPasteURL <> "" ->
  disk w = Stored c ->
  PendingAuth c = Some pending ->
  Unix w <= Pend.ExpiresAt pending ->
  let step := auth.CompleteRemoteLogin (ClientID c) (ClientSecret c)
                (Pend.RedirectURI pending) (Pend.State pending) authPasteURL
                (set_cfg w c) in
  let run1 := cmd.runAuthLogin authPasteURL otherFlows w in
  (forall tokens, fst step = inr tokens -> hd None (saveFaults w) = None ->
     fst run1 = inr tt
     /\ disk (snd run1)
        = Stored (mkConfig (ClientID c) (ClientSecret c) (RedirectURI c) tokens None)
     /\ fst (cmd.runAuthLogin authPasteURL otherFlows (snd run1))
        = inl cmd.errNoPending)
  /\ (forall e, fst step = inl e ->
        (e = auth.errNoState \/ e = auth.errStateMismatch
         \/ e = auth.errNoCode authPasteURL
         \/ exists e', e = Errorf "token exchange: %w" [ArgW e'])
        /\ run1 = (inl e, snd step)
        /\ disk (snd run1) = Stored c
        /\ fst (cmd.runAuthLogin authPasteURL otherFlows (snd run1))
           <> inl cmd.errNoPending).
Proof.
  intros Hu Hd Hp Ht. cbv zeta.
  rewrite (runAuthLogin_stored w c) by assumption.
  rewrite (completeRemoteLogin_pending _ pending) by (simpl; assumption).
  simpl.
  pose proof (CompleteRemoteLogin_effects (ClientID c) (ClientSecret c)
    (Pend.RedirectURI pending) (Pend.State pending) authPasteURL (set_cfg w c))
    as (Hc & Hdisk & Hf & Hclock & He).
  destruct (auth.CompleteRemoteLogin _ _ _ _ _ _) as [[e|tokens] w'] eqn:Hstep;
    simpl in *; split.
  - intros tokens H. discriminate H.
  - intros e0 H. inversion H. subst e0. split; [now apply He|].
    split; [reflexivity|]. simpl. split; [congruence|].
    apply (runAuthLogin_finds_pending w' c pending); congruence.
  - intros tokens0 H Hs. inversion H. subst tokens0.
    unfold storeTokens. monad.
    rewrite Save_no_fault by (simpl; congruence). simpl.
    split; [reflexivity|]. split; [rewrite Hc; reflexivity|].
    unfold cmd.runAuthLogin, config.Load, cmd.completeRemoteLogin.
    monad. rewrite (eqb_empty_false _ Hu). reflexivity.
  - intros e H. discriminate H.
Qed.

(** The amended C1 on a matching and on a mismatching pasted URL. *)
Lemma step2_consumes_pending_on_success_witness :
  (let run1 := cmd.runAuthLogin
                 "http://localhost:8089/callback?code=abc&state=3f9a"
                 exOtherFlows (exWorld "3f9a") in
   fst run1 = inr tt
   /\ disk (snd run1) = Stored (mkConfig "cid" "csecret" "" exNewTokens None)
   /\ fst (cmd.runAuthLogin
             "http://localhost:8089/callback?code=abc&state=3f9a"
             exOtherFlows (snd run1))
      = inl cmd.errNoPending)
  /\ disk (snd (cmd.runAuthLogin
                  "http://localhost:8089/callback?code=abc&state=WRONG"
                  exOtherFlows (exWorld "3f9a")))
     = Stored (exConfig "3f9a").
Proof.
  split.
  - refine (proj1 (step2_consumes_pending_on_success (exWorld "3f9a")
              (exConfig "3f9a") (exPending "3f9a")
              "http://localhost:8089/callback?code=abc&state=3f9a" exOtherFlows
              _ eq_refl eq_refl _) exNewTokens eq_refl eq_refl).
    + discriminate.
    + vm_compute. discriminate.
  - refine (proj1 (proj2 (proj2 (proj2 (step2_consumes_pending_on_success
              (exWorld "3f9a") (exConfig "3f9a") (exPending "3f9a")
              "http://localhost:8089/callback?code=abc&state=WRONG" exOtherFlows
              _ eq_refl eq_refl _) auth.errStateMismatch eq_refl)))).
    + discriminate.
    + vm_compute. discriminate.
Defined.

(** C6, as stated, fails for an empty persisted state: the pasted state
    differs from it, yet step 2 succeeds and exchanges the code. *)
Lemma step2_empty_stored_state_is_not_checked :
  let pasted := "http://localhost:8089/callback?code=abc&state=forged" in
  let run := cmd.runAuthLogin pasted exOtherFlows (exWorld "") in
  Pend.State (exPending "") = ""
  /\ snd (auth.extractCodeAndState pasted) = "forged"
  /\ snd (auth.extractCodeAndState pasted) <> Pend.State (exPending "")
  /\ fst run = inr tt
  /\ exchanges (log (snd run)) = 1%nat
  /\ Tokens (cfg (snd run)) = exNewTokens.
Proof.
  cbv zeta. repeat split; try reflexivity. discriminate.
Qed.

(** C6, amended.  For every non-empty persisted state and every pasted
    input whose extracted state is empty or differs from it, step 2 fails
    with one of the two state errors and leaves everything as it was: no
    call of the token endpoint is made, because the state is checked
    before the code is exchanged. *)
Theorem step2_state_mismatch_never_exchanges
  (w : World) (pending : Pend.PendingAuth) (authPasteURL : string) :
  PendingAuth (cfg w) = Some pending ->
  Unix w <= Pend.ExpiresAt pending ->
  Pend.State pending <> "" ->
  snd (auth.extractCodeAndState authPasteURL) <> Pend.State pending ->
  exists e,
    (e = auth.errNoState \/ e = auth.errStateMismatch)
    /\ cmd.completeRemoteLogin authPasteURL w = (inl e, w)
    /\ exchanges (log (snd (cmd.completeRemoteLogin authPasteURL w)))
       = exchanges (log w)
    /\ forall clientID clientSecret redirectURI,
         auth.CompleteRemoteLogin clientID clientSecret redirectURI
           (Pend.State pending) authPasteURL w = (inl e, w).
Proof.
  intros Hp Ht HX HY.
  exists (if String.eqb (snd (auth.extractCodeAndState authPasteURL)) ""
          then auth.errNoState else auth.errStateMismatch).
  split; [destruct (String.eqb _ ""); tauto|].
  assert (Hc : cmd.completeRemoteLogin authPasteURL w
               = (inl (if String.eqb (snd (auth.extractCodeAndState authPasteURL)) ""
                       then auth.errNoState else auth.errStateMismatch), w)).
  { rewrite (completeRemoteLogin_pending _ pending) by assumption.
    rewrite CompleteRemoteLogin_rejects by assumption. reflexivity. }
  split; [exact Hc|]. split; [rewrite Hc; reflexivity|].
  intros. apply CompleteRemoteLogin_rejects; assumption.
Qed.

(** The amended C6 on a pasted URL with a wrong state. *)
Lemma step2_state_mismatch_never_exchanges_witness :
  exists e,
    (e = auth.errNoState \/ e = auth.errStateMismatch)
    /\ cmd.completeRemoteLogin
         "http://localhost:8089/callback?code=abc&state=WRONG" (exLoaded "3f9a")
       = (inl e, exLoaded "3f9a").
Proof.
  destruct (step2_state_mismatch_never_exchanges (exLoaded "3f9a")
              (exPending "3f9a")
              "http://localhost:8089/callback?code=abc&state=WRONG")
    as (e & He & Hc & _).
  - reflexivity.
  - vm_compute. discriminate.
  - discriminate.
  - discriminate.
  - exists e. split; assumption.
Defined.

(** ** The token refresher *)

Lemma wrap64_small (z : Z) : int64_min <= z <= int64_max -> wrap64 z = z.
Proof.
  unfold wrap64, int64_min, int64_max. intro H.
  rewrite Z.mod_small; lia.
Qed.

Lemma exchanges_app (l1 l2 : list Event) :
  exchanges (l1 ++ l2) = (exchanges l1 + exchanges l2)%nat.
Proof. unfold exchanges. now rewrite filter_app, length_app. Qed.

Lemma roundTrips_app (l1 l2 : list Event) :
  roundTrips (l1 ++ l2) = (roundTrips l1 + roundTrips l2)%nat.
Proof. unfold roundTrips. now rewrite filter_app, length_app. Qed.

Lemma payloads_app (l1 l2 : list Event) :
  payloads (l1 ++ l2) = (payloads l1 ++ payloads l2)%list.
Proof.
  induction l1 as [|e l1 IH]; simpl; [reflexivity|].
  destruct e; simpl; rewrite IH; reflexivity.
Qed.

(** [Save] calls neither server; it writes at most one event. *)
Lemma Save_effects (c : Config) (w : World) :
  let w' := snd (config.Save c w) in
  (log w' = log w \/ log w' = (log w ++ [EvSave c])%list)
  /\ cfg w' = cfg w /\ clock w' = clock w /\ tokenServer w' = tokenServer w
  /\ apiServer w' = apiServer w /\ baseBackoff w' = baseBackoff w.
Proof.
  unfold config.Save, config.nextSaveFault. monad.
  destruct (saveFaults w) as [|[f|] rest]; simpl; try tauto.
  destruct f; simpl; tauto.
Qed.

(** [RefreshIfExpired], with its three cases laid out. *)
Lemma RefreshIfExpired_unfold (w : World) :
  auth.RefreshIfExpired w
  = if String.eqb (Tok.AccessToken (Tokens (cfg w))) "" then
      (inl auth.errNotAuthenticated, w)
    else if wrap64 (Unix w + 30) <? Tok.ExpiresAt (Tokens (cfg w)) then (inr tt, w)
    else match auth.postToken (auth.refreshForm (cfg w)) w with
         | (inl e, w') => (inl (auth.errRefresh e), w')
         | (inr t, w') =>
             config.Save (set_Tokens (cfg w') t) (set_cfg w' (set_Tokens (cfg w') t))
         end.
Proof.
  unfold auth.RefreshIfExpired, auth.refreshTokens, auth.refreshForm. monad.
  destruct (String.eqb _ ""); [reflexivity|].
  destruct (wrap64 _ <? _); [reflexivity|].
  destruct (auth.postToken _ w) as [[e|t] w']; reflexivity.
Qed.

(** The refresher never talks to the API server, and it leaves the log a
    prefix of what it was plus events of its own. *)
Lemma RefreshIfExpired_effects (w : World) :
  let w' := snd (auth.RefreshIfExpired w) in
  (exists added, log w' = (log w ++ added)%list
                 /\ roundTrips added = 0%nat /\ payloads added = [])
  /\ apiServer w' = apiServer w /\ baseBackoff w' = baseBackoff w.
Proof.
  cbv zeta. rewrite RefreshIfExpired_unfold.
  destruct (String.eqb _ ""); simpl.
  { split; [exists []; rewrite app_nil_r; auto | auto]. }
  destruct (wrap64 _ <? _); simpl.
  { split; [exists []; rewrite app_nil_r; auto | auto]. }
  pose proof (postToken_effects (auth.refreshForm (cfg w)) w)
    as (Hl & _ & _ & _ & _ & Ha & Hb & _).
  destruct (auth.postToken _ w) as [[e|t] w1]; simpl in *.
  { split; [eexists; split; [exact Hl|split; reflexivity] | auto]. }
  pose proof (Save_effects (set_Tokens (cfg w1) t) (set_cfg w1 (set_Tokens (cfg w1) t)))
    as ([Hs|Hs] & _ & _ & _ & Ha' & Hb'); simpl in *.
  - split; [|split; congruence].
    eexists. rewrite Hs, Hl. split; [reflexivity|split; reflexivity].
  - split; [|split; congruence].
    exists [EvPostForm (auth.refreshForm (cfg w)); EvSave (set_Tokens (cfg w1) t)].
    rewrite Hs, Hl, <- app_assoc. split; [reflexivity|split; reflexivity].
Qed.

(** The token endpoint's answer is accepted only with an access token. *)
Lemma postToken_granted (vals : list (string * string)) (w : World)
  (t : Tok.Tokens) :
  fst (auth.postToken vals w) = inr t -> Tok.AccessToken t <> "".
Proof.
  unfold auth.postToken, auth.nextTokenReply. monad.
  destruct (tokenServer w) as [|r rest]; simpl; [discriminate|].
  destruct r as [e|e|st e|st tr body]; simpl; try discriminate.
  destruct (negb (st =? 200)); simpl.
  - destruct (negb (String.eqb (tr_Message tr) "")); discriminate.
  - destruct (String.eqb (tr_AccessToken tr) "") eqn:E; simpl; [discriminate|].
    intro H. inversion H. simpl. apply String.eqb_neq. exact E.
Qed.

(** Tokens come from the token endpoint only: a call that returns a pair
    was answered with the status 200 and that pair. *)
Lemma postToken_reply (vals : list (string * string)) (w : World)
  (t : Tok.Tokens) :
  fst (auth.postToken vals w) = inr t ->
  exists tr body rest,
    tokenServer w = Reply 200 tr body :: rest
    /\ tr_AccessToken tr <> "" /\ t = grantedPair tr.
Proof.
  unfold auth.postToken, auth.nextTokenReply. monad.
  destruct (tokenServer w) as [|r rest]; simpl; [discriminate|].
  destruct r as [e|e|st e|st tr body]; simpl; try discriminate.
  destruct (st =? 200) eqn:Hst; simpl.
  - apply Z.eqb_eq in Hst. subst st.
    destruct (String.eqb (tr_AccessToken tr) "") eqn:E; simpl; [discriminate|].
    intro H. inversion H. exists tr, body, rest.
    split; [reflexivity|]. split; [apply String.eqb_neq; exact E|reflexivity].
  - destruct (negb (String.eqb (tr_Message tr) "")); discriminate.
Qed.

(** [Save], by its result: the file holds [c] after a success; after a
    failure it is as it was or does not parse.  *)
Lemma Save_outcome (c : Config) (w : World) :
  let res := config.Save c w in
  match fst res with
  | inr _ => disk (snd res) = Stored c
  | inl e => isSaveError e
             /\ (disk (snd res) = disk w \/ disk (snd res) = Corrupt)
  end.
Proof.
  unfold config.Save, config.nextSaveFault, isSaveError. monad.
  destruct (saveFaults w) as [|[f|] rest]; simpl; try reflexivity.
  destruct f; simpl; (split; [do 2 eexists; split; [reflexivity|simpl; tauto] | tauto]).
Qed.


(** C4.  With a non-empty access token: if now + 30 s has reached
    [expires_at], the refresher makes exactly one call of the token
    endpoint, a refresh grant, and, when the endpoint grants a new pair,
    puts it into the configuration and saves that to the file; if
    now + 30 s is before [expires_at], it makes no call and changes
    nothing.  With an empty access token it fails at once with "not
    authenticated" and makes no call. *)
Theorem RefreshIfExpired_spec (w : World) :
  int64_min <= Unix w + 30 <= int64_max ->
  let r := auth.RefreshIfExpired w in
  let access := Tok.AccessToken (Tokens (cfg w)) in
  let expires_at := Tok.ExpiresAt (Tokens (cfg w)) in
  (access = "" -> r = (inl auth.errNotAuthenticated, w))
  /\ (access <> "" -> Unix w + 30 < expires_at -> r = (inr tt, w))
  /\ (access <> "" -> Unix w + 30 >= expires_at ->
      exchanges (log (snd r)) = S (exchanges (log w))
      /\ (exists rest,
            log (snd r)
            = (log w ++ EvPostForm (auth.refreshForm (cfg w)) :: rest)%list
            /\ exchanges rest = 0%nat)
      /\ forall tr body others,
           tokenServer w = Reply 200 tr body :: others ->
           tr_AccessToken tr <> "" ->
           hd None (saveFaults w) = None ->
           let new := Tok.mk (tr_AccessToken tr) (tr_RefreshToken tr)
                        (tr_ExpiresAt tr) (tr_TokenType tr) in
           fst r = inr tt
           /\ cfg (snd r) = set_Tokens (cfg w) new
           /\ disk (snd r) = Stored (set_Tokens (cfg w) new)).
Proof.
  intro Hrange. cbv zeta. rewrite RefreshIfExpired_unfold.
  rewrite (wrap64_small _ Hrange).
  split; [|split].
  - intros ->. reflexivity.
  - intros Ha Hlt. rewrite (eqb_empty_false _ Ha).
    apply Z.ltb_lt in Hlt. rewrite Hlt. reflexivity.
  - intros Ha Hge. rewrite (eqb_empty_false _ Ha).
    assert ((Unix w + 30 <? Tok.ExpiresAt (Tokens (cfg w))) = false) as ->
      by (apply Z.ltb_ge; lia).
    pose proof (postToken_effects (auth.refreshForm (cfg w)) w) as (Hl & Hc & _).
    assert (Hlog : exists rest,
      log (snd
        (match auth.postToken (auth.refreshForm (cfg w)) w with
         | (inl e, w') => (inl (auth.errRefresh e), w')
         | (inr t, w') =>
             config.Save (set_Tokens (cfg w') t) (set_cfg w' (set_Tokens (cfg w') t))
         end))
      = (log w ++ EvPostForm (auth.refreshForm (cfg w)) :: rest)%list
      /\ exchanges rest = 0%nat).
    { destruct (auth.postToken _ w) as [[e|t] w1]; simpl in *.
      - exists []. split; [exact Hl|reflexivity].
      - pose proof (Save_effects (set_Tokens (cfg w1) t)
                      (set_cfg w1 (set_Tokens (cfg w1) t))) as ([Hs|Hs] & _);
          simpl in Hs; rewrite Hs, Hl.
        + exists []. split; reflexivity.
        + exists [EvSave (set_Tokens (cfg w1) t)].
          rewrite <- app_assoc. split; reflexivity. }
    split; [|split; [exact Hlog|]].
    + destruct Hlog as (rest & -> & Hr).
      rewrite exchanges_app.
      change (EvPostForm (auth.refreshForm (cfg w)) :: rest)
        with ([EvPostForm (auth.refreshForm (cfg w))] ++ rest)%list.
      rewrite exchanges_app, Hr. simpl. lia.
    + intros tr body others Hsrv Htr Hsave.
      unfold auth.postToken, auth.nextTokenReply. monad. rewrite Hsrv. simpl.
      rewrite (eqb_empty_false _ Htr). simpl.
      rewrite Save_no_fault by exact Hsave. simpl. auto.
Qed.

(** C4 on an expired pair, on a fresh pair and on an empty configuration. *)
Lemma RefreshIfExpired_spec_witness :
  (let r := auth.RefreshIfExpired (exLoaded "") in
   exchanges (log (snd r)) = 1%nat
   /\ fst r = inr tt
   /\ Tokens (cfg (snd r)) = exNewTokens
   /\ disk (snd r) = Stored (set_Tokens (exConfig "") exNewTokens))
  /\ auth.RefreshIfExpired (set_clock (exLoaded "") (1699990000 * Second))
     = (inr tt, set_clock (exLoaded "") (1699990000 * Second))
  /\ auth.RefreshIfExpired (exWorld "")
     = (inl auth.errNotAuthenticated, exWorld "").
Proof.
  split; [|split].
  - assert (Hr : int64_min <= Unix (exLoaded "") + 30 <= int64_max)
      by (vm_compute; split; discriminate).
    destruct (proj2 (proj2 (RefreshIfExpired_spec (exLoaded "") Hr)))
      as (Hn & _ & Hg).
    + discriminate.
    + vm_compute. discriminate.
    + destruct (Hg exGrant "{}" [Reply 200 exGrant "{}"] eq_refl)
        as (H1 & H2 & H3); [discriminate | reflexivity |].
      cbv zeta. split; [exact Hn|]. split; [exact H1|].
      split; [rewrite H2; reflexivity | exact H3].
  - apply (proj1 (proj2 (RefreshIfExpired_spec
             (set_clock (exLoaded "") (1699990000 * Second))
             ltac:(vm_compute; split; discriminate))));
      [discriminate | reflexivity].
  - apply (proj1 (RefreshIfExpired_spec (exWorld "")
             ltac:(vm_compute; split; discriminate))).
    reflexivity.
Defined.

(** ** The retrying transport *)

Lemma quietStep_refl (w : World) : quietStep w w.
Proof.
  split; [exists []; rewrite app_nil_r; auto | auto].
Qed.

Lemma quietStep_trans (w1 w2 w3 : World) :
  quietStep w1 w2 -> quietStep w2 w3 -> quietStep w1 w3.
Proof.
  intros ((a1 & L1 & R1 & P1) & A1 & B1) ((a2 & L2 & R2 & P2) & A2 & B2).
  split; [|split; congruence].
  exists (a1 ++ a2)%list. rewrite L2, L1, <- app_assoc.
  rewrite roundTrips_app, payloads_app, R1, R2, P1, P2. auto.
Qed.

Lemma beforeAttempt_quiet (attempt : Z) (w : World) :
  quietStep w (snd (client.beforeAttempt attempt w)).
Proof.
  unfold client.beforeAttempt. destruct (0 <? attempt); [|apply quietStep_refl].
  unfold Sleep. monad.
  eapply quietStep_trans; [|apply RefreshIfExpired_effects].
  split; [|split; reflexivity].
  eexists. simpl. split; [reflexivity|]. split; reflexivity.
Qed.

Lemma cloneBody_quiet (attempt : Z) (req : client.Request)
  (stream : option string) (w : World) :
  quietStep w (snd (client.cloneBody attempt req stream w)).
Proof.
  unfold client.cloneBody.
  destruct (client.GetBody req) as [g|]; [|apply quietStep_refl].
  destruct (0 <? attempt); [|apply quietStep_refl]. monad.
  destruct (g tt); simpl;
    (split; [|split; reflexivity]);
    (exists [EvGetBody]; simpl; split; [reflexivity|split; reflexivity]).
Qed.

(** The body a clone carries: the fresh one on a retry with [GetBody], the
    request's own stream otherwise. *)
Lemma cloneBody_result (attempt : Z) (req : client.Request)
  (stream : option string) (w : World) (bodies : option string * option string)
  (w' : World) :
  client.cloneBody attempt req stream w = (inr bodies, w') ->
  match client.GetBody req with
  | Some g => if 0 <? attempt
              then g tt = inr (match fst bodies with
                               | Some b => b
                               | None => ""
                               end)
                   /\ fst bodies <> None /\ snd bodies = stream
              else bodies = (stream, client.drained stream)
  | None => bodies = (stream, client.drained stream)
  end.
Proof.
  unfold client.cloneBody.
  destruct (client.GetBody req) as [g|].
  - destruct (0 <? attempt); monad.
    + destruct (g tt) as [e|b]; simpl; intro H; inversion H; subst; simpl.
      split; [reflexivity|]. split; [discriminate|reflexivity].
    + intro H. inversion H. reflexivity.
  - monad. intro H. inversion H. reflexivity.
Qed.

(** One round trip: one event, and the next answer of the server. *)
Lemma baseRoundTrip_effects (authorization : string) (body : option string)
  (w : World) :
  let res := client.baseRoundTrip authorization body w in
  log (snd res) = (log w ++ [EvRoundTrip authorization body])%list
  /\ baseBackoff (snd res) = baseBackoff w
  /\ apiServer (snd res) = tl (apiServer w)
  /\ forall r, fst res = inr r -> hd_error (apiServer w) = Some (Answer r).
Proof.
  unfold client.baseRoundTrip. monad.
  destruct (apiServer w) as [|[e|r] rest] eqn:E; simpl; rewrite ?E;
    repeat split; try reflexivity; intros r0 H; inversion H; reflexivity.
Qed.

(** The loop, one iteration at a time. *)
Lemma attempts_S (n : nat) (attempt : Z) (req : client.Request)
  (stream : option string) (resp : option Response) (w : World) :
  client.attempts (S n) attempt req stream resp w
  = match client.beforeAttempt attempt w with
    | (inl e, w1) => (inl e, w1)
    | (inr _, w1) =>
        match client.cloneBody attempt req stream w1 with
        | (inl e, w2) => (inl e, w2)
        | (inr bodies, w2) =>
            match client.baseRoundTrip
                    ("Bearer " ++ Tok.AccessToken (Tokens (cfg w1)))
                    (fst bodies) w2 with
            | (inl e, w3) => (inl (Errorf "request failed: %w" [ArgW e]), w3)
            | (inr r, w3) =>
                if client.retryable (StatusCode r) then
                  if attempt =? client.maxRetries
                  then (inl (client.errExhausted (StatusCode r)), w3)
                  else client.attempts n (attempt + 1) req (snd bodies) (Some r) w3
                else (inr (Some r), w3)
            end
        end
    end.
Proof.
  simpl. unfold bind at 1.
  destruct (client.beforeAttempt attempt w) as [[e|[]] w1]; [reflexivity|].
  unfold bind at 1. unfold get at 1.
  unfold bind at 1.
  destruct (client.cloneBody attempt req stream w1) as [[e|bodies] w2];
    [reflexivity|].
  unfold bind at 1, wrapErr.
  destruct (client.baseRoundTrip _ (fst bodies) w2) as [[e|r] w3]; [reflexivity|].
  destruct (client.retryable (StatusCode r)); [|reflexivity].
  destruct (attempt =? client.maxRetries); reflexivity.
Qed.

(** The invariant of the loop: at most one round trip per iteration, a
    further round trip only after a retryable answer, and with [GetBody]
    the same body on every round trip. *)
Lemma attempts_trace (req : client.Request) (n : nat) :
  forall (attempt : Z) (stream : option string) (resp : option Response)
         (w : World),
  0 <= attempt ->
  let res := client.attempts n attempt req stream resp w in
  exists added,
    log (snd res) = (log w ++ added)%list
    /\ (roundTrips added <= n)%nat
    /\ (forall i, (S i < roundTrips added)%nat ->
          exists r, nth_error (apiServer w) i = Some (Answer r)
                    /\ client.retryable (StatusCode r) = true)
    /\ (forall g p, client.GetBody req = Some g -> g tt = inr p ->
          0 < attempt \/ stream = Some p ->
          Forall (eq (Some p)) (payloads added)).
Proof.
  induction n as [|n IH]; intros attempt stream resp w Hatt; cbv zeta.
  { exists []. unfold roundTrips. simpl. rewrite app_nil_r.
    repeat split; auto; intros; try lia. }
  rewrite attempts_S.
  pose proof (beforeAttempt_quiet attempt w) as Q1.
  destruct (client.beforeAttempt attempt w) as [[e|[]] w1]; simpl in Q1.
  { destruct Q1 as ((a1 & L1 & R1 & P1) & _). exists a1. simpl.
    rewrite R1, P1. repeat split; auto; intros; try lia. }
  pose proof (cloneBody_quiet attempt req stream w1) as Q2.
  pose proof (cloneBody_result attempt req stream w1) as HB.
  destruct (client.cloneBody attempt req stream w1) as [[e|bodies] w2];
    simpl in Q2.
  { destruct (quietStep_trans _ _ _ Q1 Q2) as ((a & L & R & P) & _).
    exists a. simpl. rewrite R, P. repeat split; auto; intros; try lia. }
  specialize (HB bodies w2 eq_refl).
  destruct (quietStep_trans _ _ _ Q1 Q2) as ((a & L & R & P) & A & B).
  pose proof (baseRoundTrip_effects
    ("Bearer " ++ Tok.AccessToken (Tokens (cfg w1))) (fst bodies) w2)
    as (L3 & B3 & A3 & H3).
  assert (Hpay : forall g p, client.GetBody req = Some g -> g tt = inr p ->
            0 < attempt \/ stream = Some p -> fst bodies = Some p).
  { intros g p Hg Hp Hs. rewrite Hg in HB.
    destruct (0 <? attempt) eqn:Hlt.
    - destruct HB as (HB1 & HB2 & _). rewrite Hp in HB1.
      destruct (fst bodies); [congruence|contradiction].
    - apply Z.ltb_ge in Hlt. destruct Hs as [Hs|Hs]; [lia|].
      rewrite HB. simpl. exact Hs. }
  set (ev := EvRoundTrip ("Bearer " ++ Tok.AccessToken (Tokens (cfg w1)))
               (fst bodies)) in *.
  assert (Hone : forall w3 : World,
    log w3 = (log w2 ++ [ev])%list ->
    exists added,
      log w3 = (log w ++ added)%list
      /\ (roundTrips added <= S n)%nat
      /\ (forall i, (S i < roundTrips added)%nat ->
            exists r, nth_error (apiServer w) i = Some (Answer r)
                      /\ client.retryable (StatusCode r) = true)
      /\ (forall g p, client.GetBody req = Some g -> g tt = inr p ->
            0 < attempt \/ stream = Some p ->
            Forall (eq (Some p)) (payloads added))).
  { intros w3 Hl. exists (a ++ [ev])%list.
    rewrite Hl, L, <- app_assoc, roundTrips_app, payloads_app, R, P.
    unfold ev, roundTrips. simpl.
    repeat split; auto; intros; try lia.
    constructor; [|constructor]. symmetry. eauto. }
  destruct (client.baseRoundTrip _ (fst bodies) w2) as [[e|r] w3] eqn:Hbase;
    simpl in *.
  { apply Hone. exact L3. }
  destruct (client.retryable (StatusCode r)) eqn:Hretry; [|apply Hone; exact L3].
  destruct (attempt =? client.maxRetries); [apply Hone; exact L3|].
  specialize (H3 r eq_refl).
  destruct (IH (attempt + 1) (snd bodies) (Some r) w3 ltac:(lia))
    as (added & L4 & R4 & N4 & P4).
  exists (a ++ [ev] ++ added)%list.
  rewrite L4, L3, L, <- !app_assoc.
  rewrite roundTrips_app, roundTrips_app, payloads_app, payloads_app, R, P.
  unfold ev. change (roundTrips [EvRoundTrip ?x ?y]) with 1%nat.
  simpl. split; [reflexivity|]. split; [lia|]. split.
  - intros i Hi. rewrite <- A.
    destruct (apiServer w2) as [|x rest]; [discriminate H3|].
    simpl in H3, A3. inversion H3; subst x.
    destruct i as [|j]; simpl; [eauto|].
    rewrite <- A3. apply N4. lia.
  - intros g p Hg Hp Hs. constructor; [symmetry; eauto|].
    apply (P4 g p Hg Hp). left. lia.
Qed.

Lemma RefreshIfExpired_fresh (w : World) :
  freshAt (cfg w) (clock w) -> auth.RefreshIfExpired w = (inr tt, w).
Proof.
  intros [Ha Hf]. rewrite RefreshIfExpired_unfold.
  rewrite (eqb_empty_false _ Ha). unfold Unix. rewrite Hf. reflexivity.
Qed.







(** The whole of [RoundTrip]: its round trips are those of the loop. *)
Lemma RoundTrip_trace (req : client.Request) (w : World) :
  let res := client.RoundTrip req w in
  exists added,
    log (snd res) = (log w ++ added)%list
    /\ (roundTrips added <= Z.to_nat (client.maxRetries + 1))%nat
    /\ (forall i, (S i < roundTrips added)%nat ->
          exists r, nth_error (apiServer w) i = Some (Answer r)
                    /\ client.retryable (StatusCode r) = true)
    /\ (forall g p, client.GetBody req = Some g -> g tt = inr p ->
          client.Body req = Some p ->
          Forall (eq (Some p)) (payloads added)).
Proof.
  cbv zeta. unfold client.RoundTrip. unfold bind at 1.
  pose proof (RefreshIfExpired_effects w) as Q. simpl in Q.
  destruct (auth.RefreshIfExpired w) as [[e|[]] w1]; simpl in Q; cbv beta iota.
  - destruct Q as ((a & L & R & P) & _). exists a. simpl. rewrite R, P.
    repeat split; auto; intros; lia.
  - destruct Q as ((a & L & R & P) & A & _).
    destruct (attempts_trace req (Z.to_nat (client.maxRetries + 1)) 0
                (client.Body req) None w1 ltac:(lia))
      as (added & L1 & R1 & N1 & P1).
    exists (a ++ added)%list.
    rewrite L1, L, <- app_assoc, roundTrips_app, payloads_app, R, P. simpl.
    split; [reflexivity|]. split; [exact R1|]. split.
    + intros i Hi. rewrite <- A. apply N1. exact Hi.
    + intros g p Hg Hp Hb. apply (P1 g p Hg Hp). right. exact Hb.
Qed.









(** With [GetBody], every round trip of a request carries the payload of
    the first one. *)
Lemma RoundTrip_replays_body (req : client.Request) (w : World)
  (g : unit -> error + string) (p : string) :
  client.GetBody req = Some g -> g tt = inr p -> client.Body req = Some p ->
  exists added,
    log (snd (client.RoundTrip req w)) = (log w ++ added)%list
    /\ Forall (eq (Some p)) (payloads added).
Proof.
  intros Hg Hp Hb.
  destruct (RoundTrip_trace req w) as (added & L & _ & _ & P).
  exists added. split; [exact L|]. exact (P g p Hg Hp Hb).
Qed.

(** [GetBody] is called anew before each retry. *)
Example RoundTrip_calls_GetBody :
  log (snd (client.RoundTrip (exPut "name=Morning+Run")
              (exApi [status 500; status 429; status 200])))
  = [EvRoundTrip "Bearer new-access" (Some "name=Morning+Run");
     EvSleep (500 * Millisecond); EvGetBody;
     EvRoundTrip "Bearer new-access" (Some "name=Morning+Run");
     EvSleep (1000 * Millisecond); EvGetBody;
     EvRoundTrip "Bearer new-access" (Some "name=Morning+Run")].
Proof. vm_compute. reflexivity. Qed.

(** *** The payload of a request that the program builds *)








(** The four requests of the commands are built in this way. *)
Lemma requests_keep_content (id : Z) (format bodyBytes buf contentType : string) :
  let built (req : client.Request) :=
    exists method url body headers,
      http.keepsContent body = true
      /\ req = fold_left (fun r h => http.HeaderSet r (fst h) (snd h)) headers
                 (http.NewRequestWithContext method url body) in
  built (requests.uploadStatus id) /\ built (requests.routeExport id format)
  /\ built (requests.activityUpdate id bodyBytes)
  /\ built (requests.activityUpload buf contentType).
Proof.
  cbv zeta. repeat split.
  - exists "GET", ("https://www.strava.com/api/v3/uploads/" ++ strconv.FormatInt id),
      http.NoReader, []. auto.
  - exists "GET", ("https://www.strava.com/api/v3/routes/" ++ strconv.FormatInt id
                   ++ "/export_" ++ format), http.NoReader, []. auto.
  - exists "PUT", ("https://www.strava.com/api/v3/activities/" ++ strconv.FormatInt id),
      (http.BytesReader bodyBytes), [("Content-Type", "application/json")]. auto.
  - exists "POST", "https://www.strava.com/api/v3/uploads",
      (http.BytesBuffer buf), [("Content-Type", contentType)]. auto.
Qed.

(** The transport itself does not look at the kind of body: handed a
    request with a body and without [GetBody], which none of the commands
    builds, it would send the retry with what the first round trip left of
    the stream. *)
Lemma RoundTrip_retries_drained_stream :
  let req := exPutStream "name=Morning+Run" in
  let res := client.RoundTrip req (exApi [status 500; status 200]) in
  client.GetBody req = None
  /\ fst res = inr (Some (mkResponse 200 ""))
  /\ payloads (log (snd res)) = [Some "name=Morning+Run"; Some ""]
  /\ log (snd res)
     = [EvRoundTrip "Bearer new-access" (Some "name=Morning+Run");
        EvSleep (500 * Millisecond);
        EvRoundTrip "Bearer new-access" (Some "")].
Proof. cbv zeta. repeat split; vm_compute; reflexivity. Qed.

(** ** The upload poller *)

Lemma select_fetched (env : uploads.Env) (st : uploads.State) :
  uploads.fetched (snd (uploads.select env st)) = uploads.fetched st.
Proof.
  unfold uploads.select, uploads.advance.
  destruct (uploads.nextTick st <=? uploads.now st); simpl;
    destruct (uploads.cancelAt env) as [c|]; simpl;
    repeat match goal with
           | |- context [if ?b then _ else _] => destruct b; simpl
           end; reflexivity.
Qed.

(** One tick, by what the fetch returns. *)
Lemma onTick_cases (env : uploads.Env) (id deadline : Z) (st : uploads.State) :
  match uploads.result (uploads.fetches env (uploads.fetched st)) with
  | uploads.FetchErr err =>
      exists st', uploads.onTick env id deadline st = inl (uploads.FetchFailed err, st')
                  /\ uploads.fetched st' = S (uploads.fetched st)
  | uploads.Fetched u raw =>
      match uploads.Error u, uploads.ActivityID u with
      | Some e, _ =>
          exists st', uploads.onTick env id deadline st
                      = inl (uploads.UploadFailed (uploads.errUploadFailed e), st')
                      /\ uploads.fetched st' = S (uploads.fetched st)
                      /\ reports env u raw (uploads.out st')
      | None, Some a =>
          exists st', uploads.onTick env id deadline st = inl (uploads.Done, st')
                      /\ uploads.fetched st' = S (uploads.fetched st)
                      /\ reports env u raw (uploads.out st')
      | None, None =>
          exists st',
            uploads.fetched st' = S (uploads.fetched st)
            /\ uploads.now st'
               = uploads.now st + uploads.took (uploads.fetches env (uploads.fetched st))
            /\ uploads.nextTick st' = uploads.nextTick st
            /\ uploads.tickBuffered st' = uploads.tickBuffered st
            /\ if deadline <? uploads.now st'
               then uploads.onTick env id deadline st
                    = inl (uploads.TimedOut (uploads.errTimedOut id), st')
               else uploads.onTick env id deadline st = inr st'
      end
  end.
Proof.
  unfold uploads.onTick.
  destruct (uploads.result _) as [err|u raw]; [eexists; split; reflexivity|].
  destruct (uploads.Error u) as [e|].
  { unfold reports.
    destruct (uploads.jsonOutput env); eexists;
      (split; [reflexivity|]); (split; [reflexivity|]);
      unfold uploads.write; cbn [uploads.out].
    - apply in_or_app. right. left. reflexivity.
    - apply incl_appr, incl_refl. }
  destruct (uploads.ActivityID u) as [a|].
  { unfold reports.
    destruct (uploads.jsonOutput env); eexists;
      (split; [reflexivity|]); (split; [reflexivity|]);
      unfold uploads.write; cbn [uploads.out].
    - apply in_or_app. right. left. reflexivity.
    - apply incl_appr, incl_appl, incl_refl. }
  set (st1 := uploads.mkState
                (uploads.now st + uploads.took (uploads.fetches env (uploads.fetched st)))
                (uploads.nextTick st) (uploads.tickBuffered st)
                (S (uploads.fetched st)) (uploads.out st)).
  destruct (deadline <? uploads.now st1) eqn:Hd.
  - exists st1. simpl. simpl in Hd. rewrite Hd. repeat split; reflexivity.
  - exists (uploads.write
              [uploads.Fprintf Stderr ("  still processing: %s" ++ uploads.nl)
                 [ArgS (uploads.Status u)]] st1).
    simpl. simpl in Hd. rewrite Hd. repeat split; reflexivity.
Qed.

(** The loop returns a timeout only from a pending observation made after
    the deadline, and a terminal observation is returned as such whatever
    the clock says. *)
Lemma loop_returns (env : uploads.Env) (id deadline : Z) (fuel : nat) :
  forall (st : uploads.State) (r : uploads.Return) (st' : uploads.State),
  pendingBefore env (uploads.fetched st) ->
  uploads.loop fuel env id deadline st = Some (r, st') ->
  (forall e, r = uploads.TimedOut e ->
     e = uploads.errTimedOut id /\ deadline < uploads.now st'
     /\ exists k u raw,
          uploads.fetched st' = S k
          /\ uploads.result (uploads.fetches env k) = uploads.Fetched u raw
          /\ isPending u)
  /\ (forall k u raw,
        uploads.fetched st' = S k ->
        uploads.result (uploads.fetches env k) = uploads.Fetched u raw ->
        ~ isPending u ->
        r = terminalReturn u /\ reports env u raw (uploads.out st')).
Proof.
  induction fuel as [|fuel IH]; intros st r st' Hinv Hrun; [discriminate Hrun|].
  simpl in Hrun.
  pose proof (select_fetched env st) as Hsel.
  destruct (uploads.select env st) as [[|] st1]; simpl in Hsel.
  - (* the context is done *)
    inversion Hrun; subst r st'. split; [intros e He; discriminate He|].
    intros k u raw Hk Hres Hnp. exfalso.
    destruct (Hinv k ltac:(lia)) as (u' & raw' & Hres' & Hp).
    rewrite Hres in Hres'. inversion Hres'; subst. contradiction.
  - pose proof (onTick_cases env id deadline st1) as Hc.
    rewrite Hsel in Hc.
    destruct (uploads.result (uploads.fetches env (uploads.fetched st)))
      as [err|u raw] eqn:Hres.
    + destruct Hc as (st2 & Ht & Hf). rewrite Ht in Hrun.
      inversion Hrun; subst r st'. split; [intros e He; discriminate He|].
      intros k u raw Hk Hres' _. rewrite Hf in Hk. inversion Hk; subst k.
      congruence.
    + destruct (uploads.Error u) as [e|] eqn:He.
      { destruct Hc as (st2 & Ht & Hf & Hout). rewrite Ht in Hrun.
        inversion Hrun; subst r st'. split; [intros e0 H0; discriminate H0|].
        intros k u0 raw0 Hk Hres' _. rewrite Hf in Hk. inversion Hk; subst k.
        rewrite Hres in Hres'. inversion Hres'; subst u0 raw0.
        unfold terminalReturn. rewrite He. split; [reflexivity|exact Hout]. }
      destruct (uploads.ActivityID u) as [a|] eqn:Ha.
      { destruct Hc as (st2 & Ht & Hf & Hout). rewrite Ht in Hrun.
        inversion Hrun; subst r st'. split; [intros e0 H0; discriminate H0|].
        intros k u0 raw0 Hk Hres' _. rewrite Hf in Hk. inversion Hk; subst k.
        rewrite Hres in Hres'. inversion Hres'; subst u0 raw0.
        unfold terminalReturn. rewrite He. split; [reflexivity|exact Hout]. }
      destruct Hc as (st2 & Hf & Hnow & _ & _ & Hd).
      destruct (deadline <? uploads.now st2) eqn:Hdl.
      * rewrite Hd in Hrun. inversion Hrun; subst r st'. split.
        -- intros e0 H0. inversion H0. split; [reflexivity|].
           split; [apply Z.ltb_lt; exact Hdl|].
           exists (uploads.fetched st), u, raw. repeat split; assumption.
        -- intros k u0 raw0 Hk Hres' Hnp. rewrite Hf in Hk. inversion Hk; subst k.
           rewrite Hres in Hres'. inversion Hres'; subst u0 raw0.
           exfalso. apply Hnp. split; assumption.
      * rewrite Hd in Hrun. apply (IH st2 r st'); [|exact Hrun].
        intros i Hi. rewrite Hf in Hi.
        destruct (Nat.eq_dec i (uploads.fetched st)) as [->|Hne].
        -- exists u, raw. repeat split; assumption.
        -- apply Hinv. lia.
Qed.

(** C10.  In every run of the poller: a timeout is returned only when the
    last fetch found the upload still pending and the deadline had passed
    after it; and when the last fetch found a terminal state, an error or
    an activity id, that state is what the poller returns (the failure or
    success), on a tick after the deadline as on any other. *)
Theorem pollUpload_timeout_only_when_pending
  (fuel : nat) (env : uploads.Env) (start id : Z)
  (r : uploads.Return) (st' : uploads.State) :
  uploads.pollUpload fuel env start id = Some (r, st') ->
  (forall e, r = uploads.TimedOut e ->
     e = uploads.errTimedOut id /\ start + uploads.timeout < uploads.now st'
     /\ exists k u raw,
          uploads.fetched st' = S k
          /\ uploads.result (uploads.fetches env k) = uploads.Fetched u raw
          /\ uploads.Error u = None /\ uploads.ActivityID u = None)
  /\ (forall k u raw,
        uploads.fetched st' = S k ->
        uploads.result (uploads.fetches env k) = uploads.Fetched u raw ->
        (forall e, uploads.Error u = Some e ->
                   r = uploads.UploadFailed
                         (Errorf "upload failed: %s" [ArgS (uploads.stripHTML e)])
                   /\ uploads.returned r <> Some (uploads.errTimedOut id))
        /\ (forall a, uploads.Error u = None -> uploads.ActivityID u = Some a ->
                      r = uploads.Done
                      /\ uploads.returned r = None
                      /\ (uploads.jsonOutput env = false ->
                          In (uploads.Fprintf Stdout
                                ("Activity ID: %d" ++ uploads.nl) [ArgD a])
                             (uploads.out st')))).
Proof.
  unfold uploads.pollUpload. intro Hrun.
  apply loop_returns in Hrun as [Ht Hterm]; [|intros i Hi; simpl in Hi; lia].
  split.
  - intros e He. destruct (Ht e He) as (H1 & H2 & k & u & raw & H3 & H4 & H5 & H6).
    split; [exact H1|]. split; [exact H2|]. exists k, u, raw. auto.
  - intros k u raw Hk Hres. split.
    + intros e He.
      destruct (Hterm k u raw Hk Hres) as [-> _]; [intros [Hp _]; congruence|].
      unfold terminalReturn. rewrite He. split; [reflexivity|].
      simpl. unfold uploads.errUploadFailed, uploads.errTimedOut. discriminate.
    + intros a He Ha.
      destruct (Hterm k u raw Hk Hres) as [-> Hout]; [intros [_ Hp]; congruence|].
      unfold terminalReturn. rewrite He. split; [reflexivity|].
      split; [reflexivity|].
      intro Hj. unfold reports in Hout. rewrite Hj in Hout. apply Hout.
      unfold uploads.printUploadStatus. rewrite Ha. simpl. auto.
Qed.

(** C10 on a fetch that takes six minutes: if it finds the activity, the
    poller returns success although the deadline has passed; if it finds
    the upload still pending, the poller returns the timeout. *)
Lemma pollUpload_timeout_only_when_pending_witness :
  (exists r st', uploads.pollUpload 1 (exSlow exReady) 0 7 = Some (r, st')
                 /\ 0 + uploads.timeout < uploads.now st'
                 /\ r = uploads.Done)
  /\ (exists r st', uploads.pollUpload 1 (exSlow exProcessing) 0 7 = Some (r, st')
                    /\ 0 + uploads.timeout < uploads.now st'
                    /\ r = uploads.TimedOut (uploads.errTimedOut 7)).
Proof.
  split.
  - destruct (uploads.pollUpload 1 (exSlow exReady) 0 7) as [[r st']|] eqn:Hrun;
      [|vm_compute in Hrun; discriminate Hrun].
    exists r, st'. split; [reflexivity|].
    assert (Hst : uploads.fetched st' = 1%nat /\ 0 + uploads.timeout < uploads.now st')
      by (vm_compute in Hrun; inversion Hrun; split; reflexivity).
    split; [exact (proj2 Hst)|].
    exact (proj1 (proj2 (proj2 (pollUpload_timeout_only_when_pending 1
                                  (exSlow exReady) 0 7 r st' Hrun)
                           0%nat exReady "{}" (proj1 Hst) eq_refl)
                    555 eq_refl eq_refl)).
  - destruct (uploads.pollUpload 1 (exSlow exProcessing) 0 7) as [[r st']|] eqn:Hrun;
      [|vm_compute in Hrun; discriminate Hrun].
    exists r, st'. split; [reflexivity|].
    assert (Hr : exists e, r = uploads.TimedOut e)
      by (vm_compute in Hrun; inversion Hrun; eexists; reflexivity).
    destruct Hr as [e He].
    destruct (proj1 (pollUpload_timeout_only_when_pending 1 (exSlow exProcessing)
                       0 7 r st' Hrun) e He) as (H1 & H2 & _).
    split; [exact H2|]. rewrite He, H1. reflexivity.
Defined.

Lemma select_wait (env : uploads.Env) (st : uploads.State) :
  uploads.cancelAt env = None ->
  uploads.tickBuffered st = false ->
  uploads.now st < uploads.nextTick st ->
  uploads.select env st = (uploads.Tick, uploads.waitTick st).
Proof.
  intros Hc Hb Hlt. unfold uploads.select, uploads.advance.
  assert ((uploads.nextTick st <=? uploads.now st) = false) as ->
    by (apply Z.leb_gt; exact Hlt).
  rewrite Hc, Hb. reflexivity.
Qed.

Lemma onTick_pending (env : uploads.Env) (id deadline : Z) (st : uploads.State)
  (d : Duration) (u : uploads.uploadStatus) (raw : string) :
  uploads.fetches env (uploads.fetched st) = uploads.mkFetch d (uploads.Fetched u raw) ->
  isPending u ->
  uploads.now st + d <= deadline ->
  uploads.onTick env id deadline st
  = inr (uploads.write
           [uploads.Fprintf Stderr ("  still processing: %s" ++ uploads.nl)
              [ArgS (uploads.Status u)]]
           (uploads.mkState (uploads.now st + d) (uploads.nextTick st)
              (uploads.tickBuffered st) (S (uploads.fetched st)) (uploads.out st))).
Proof.
  intros Hf [He Ha] Hd. unfold uploads.onTick. rewrite Hf. simpl.
  rewrite He, Ha.
  assert ((deadline <? uploads.now st + d) = false) as -> by (apply Z.ltb_ge; lia).
  reflexivity.
Qed.

Lemma onTick_done (env : uploads.Env) (id deadline : Z) (st : uploads.State)
  (d : Duration) (u : uploads.uploadStatus) (raw : string) (a : Z) :
  uploads.fetches env (uploads.fetched st) = uploads.mkFetch d (uploads.Fetched u raw) ->
  uploads.Error u = None ->
  uploads.ActivityID u = Some a ->
  uploads.onTick env id deadline st
  = inl (uploads.Done,
         uploads.write
           (if uploads.jsonOutput env then [uploads.Fprintln Stdout raw]
            else (uploads.printUploadStatus Stdout u
                  ++ [uploads.Fprintln Stderr "Done."])%list)
           (uploads.mkState (uploads.now st + d) (uploads.nextTick st)
              (uploads.tickBuffered st) (S (uploads.fetched st)) (uploads.out st))).
Proof.
  intros Hf He Ha. unfold uploads.onTick. rewrite Hf. simpl. rewrite He, Ha.
  destruct (uploads.jsonOutput env); reflexivity.
Qed.

(** C8, as stated, fails: the first fetch is made at the first tick, three
    seconds after the start, so the third fetch, which finds the activity,
    is made nine seconds after the start and not about six; six seconds
    after the start the poller has made two fetches and has no result. *)
Lemma pollUpload_third_fetch_at_nine_seconds :
  exists st',
    uploads.pollUpload 3 (exPoll 0) 0 7 = Some (uploads.Done, st')
    /\ uploads.fetched st' = 3%nat
    /\ uploads.now st' = 9 * Second
    /\ ~ (Z.abs (uploads.now st' - 6 * Second) < 3 * Second)
    /\ uploads.pollUpload 2 (exPoll 0) 0 7 = None.
Proof.
  eexists. split; [vm_compute; reflexivity|].
  repeat split; try reflexivity. vm_compute. discriminate.
Qed.

(** C8, amended.  When the first two fetches find the upload pending and
    the third finds activity 555, each fetch taking less than the poll
    interval, the fetches are made at the ticks 3, 6 and 9 seconds after
    the start; the poller returns success on the third, 9 seconds after
    the start plus the time of the third fetch, and writes activity id 555;
    with fewer than three turns of the loop there is no result. *)
Theorem pollUpload_success_on_third_tick
  (env : uploads.Env) (start id : Z) (n : nat)
  (u1 u2 u3 : uploads.uploadStatus) (raw1 raw2 raw3 : string) (d1 d2 d3 : Duration) :
  uploads.cancelAt env = None ->
  uploads.fetches env 0 = uploads.mkFetch d1 (uploads.Fetched u1 raw1) ->
  uploads.fetches env 1 = uploads.mkFetch d2 (uploads.Fetched u2 raw2) ->
  uploads.fetches env 2 = uploads.mkFetch d3 (uploads.Fetched u3 raw3) ->
  isPending u1 -> isPending u2 ->
  uploads.Error u3 = None -> uploads.ActivityID u3 = Some 555 ->
  0 <= d1 < uploads.pollInterval -> 0 <= d2 < uploads.pollInterval -> 0 <= d3 ->
  exists st',
    uploads.pollUpload (3 + n) env start id = Some (uploads.Done, st')
    /\ uploads.fetched st' = 3%nat
    /\ uploads.now st' = start + 9 * Second + d3
    /\ In (if uploads.jsonOutput env then uploads.Fprintln Stdout raw3
           else uploads.Fprintf Stdout ("Activity ID: %d" ++ uploads.nl) [ArgD 555])
          (uploads.out st')
    /\ uploads.pollUpload 2 env start id = None.
Proof.
  intros Hc F1 F2 F3 P1 P2 E3 A3 D1 D2 D3.
  unfold uploads.pollInterval, Second, Millisecond in D1, D2.
  assert (Hstep1 : forall m,
    uploads.pollUpload (S m) env start id
    = uploads.loop m env id (start + uploads.timeout)
        (uploads.write
           [uploads.Fprintf Stderr ("  still processing: %s" ++ uploads.nl)
              [ArgS (uploads.Status u1)]]
           (uploads.mkState (start + uploads.pollInterval + d1)
              (start + uploads.pollInterval + uploads.pollInterval) false 1
              [uploads.Fprintf Stderr
                 ("Polling upload %d (Ctrl-C to cancel, check later with: strava uploads get %d)"
                  ++ uploads.nl) [ArgD id; ArgD id]]))).
  { intro m. unfold uploads.pollUpload. cbn [uploads.loop].
    rewrite select_wait;
      [|exact Hc|reflexivity
       |simpl; unfold uploads.pollInterval, Second, Millisecond; lia].
    rewrite (onTick_pending env id _ _ d1 u1 raw1);
      [reflexivity|exact F1|exact P1|].
    simpl. unfold uploads.pollInterval, uploads.timeout, Minute, Second, Millisecond.
    lia. }
  assert (Hstep2 : forall m st,
    uploads.now st = start + uploads.pollInterval + d1 ->
    uploads.nextTick st = start + uploads.pollInterval + uploads.pollInterval ->
    uploads.tickBuffered st = false -> uploads.fetched st = 1%nat ->
    exists st2,
      uploads.loop (S m) env id (start + uploads.timeout) st
      = uploads.loop m env id (start + uploads.timeout) st2
      /\ uploads.now st2 = start + 2 * uploads.pollInterval + d2
      /\ uploads.nextTick st2 = start + 3 * uploads.pollInterval
      /\ uploads.tickBuffered st2 = false /\ uploads.fetched st2 = 2%nat).
  { intros m st Hn Hx Hb Hf. cbn [uploads.loop].
    rewrite select_wait;
      [|exact Hc|exact Hb
       |rewrite Hn, Hx; unfold uploads.pollInterval, Second, Millisecond; lia].
    rewrite (onTick_pending env id _ _ d2 u2 raw2);
      [|simpl; rewrite Hf; exact F2|exact P2|].
    - eexists. split; [reflexivity|]. simpl. rewrite Hx, Hf.
      unfold uploads.pollInterval, Second, Millisecond.
      repeat split; try reflexivity; lia.
    - simpl. rewrite Hx.
      unfold uploads.pollInterval, uploads.timeout, Minute, Second, Millisecond.
      lia. }
  destruct (Hstep2 (S n)
    (uploads.write
       [uploads.Fprintf Stderr ("  still processing: %s" ++ uploads.nl)
          [ArgS (uploads.Status u1)]]
       (uploads.mkState (start + uploads.pollInterval + d1)
          (start + uploads.pollInterval + uploads.pollInterval) false 1
          [uploads.Fprintf Stderr
             ("Polling upload %d (Ctrl-C to cancel, check later with: strava uploads get %d)"
              ++ uploads.nl) [ArgD id; ArgD id]]))
    eq_refl eq_refl eq_refl eq_refl) as (st2 & Hrun2 & N2 & X2 & B2 & Fe2).
  change (3 + n)%nat with (S (S (S n))).
  rewrite Hstep1, Hrun2. cbn [uploads.loop].
  rewrite select_wait;
    [|exact Hc|exact B2
     |rewrite N2, X2; unfold uploads.pollInterval, Second, Millisecond; lia].
  rewrite (onTick_done env id _ _ d3 u3 raw3 555);
    [|simpl; rewrite Fe2; exact F3|exact E3|exact A3].
  eexists. split; [reflexivity|]. simpl. rewrite Fe2, X2.
  split; [reflexivity|]. split.
  { unfold uploads.pollInterval, Second, Millisecond. lia. }
  split.
  - apply in_or_app. right.
    destruct (uploads.jsonOutput env); [left; reflexivity|].
    unfold uploads.printUploadStatus. rewrite A3, E3. simpl. auto.
  - rewrite Hstep1.
    destruct (Hstep2 0%nat
      (uploads.write
         [uploads.Fprintf Stderr ("  still processing: %s" ++ uploads.nl)
            [ArgS (uploads.Status u1)]]
         (uploads.mkState (start + uploads.pollInterval + d1)
            (start + uploads.pollInterval + uploads.pollInterval) false 1
            [uploads.Fprintf Stderr
               ("Polling upload %d (Ctrl-C to cancel, check later with: strava uploads get %d)"
                ++ uploads.nl) [ArgD id; ArgD id]]))
      eq_refl eq_refl eq_refl eq_refl) as (st2' & Hrun2' & _).
    rewrite Hrun2'. reflexivity.
Qed.

(** The amended C8 on the run of the example, with fetches of 200 ms. *)
Lemma pollUpload_success_on_third_tick_witness :
  exists st',
    uploads.pollUpload 3 (exPoll (200 * Millisecond)) 0 7 = Some (uploads.Done, st')
    /\ uploads.fetched st' = 3%nat
    /\ uploads.now st' = 9 * Second + 200 * Millisecond.
Proof.
  destruct (pollUpload_success_on_third_tick (exPoll (200 * Millisecond)) 0 7 0
              exProcessing exProcessing exReady "{}" "{}" "{}"
              (200 * Millisecond) (200 * Millisecond) (200 * Millisecond)
              eq_refl eq_refl eq_refl eq_refl
              (conj eq_refl eq_refl) (conj eq_refl eq_refl) eq_refl eq_refl)
    as (st' & Hrun & Hf & Hn & _).
  - vm_compute. split; [discriminate | reflexivity].
  - vm_compute. split; [discriminate | reflexivity].
  - vm_compute. discriminate.
  - exists st'. split; [exact Hrun|]. split; [exact Hf|]. exact Hn.
Defined.

(** Reduction of the projections of a poller state, and nothing else. *)
Ltac state_red :=
  cbn [uploads.now uploads.nextTick uploads.tickBuffered uploads.fetched
       uploads.out uploads.takeBuffered uploads.waitTick uploads.waitUntil
       fst snd].

(** The poller does not hang: when no fetch takes a negative time, the
    loop returns within 101 turns, because the n-th tick is received at
    least n poll intervals after the start and the deadline is 100 poll
    intervals away. *)
Lemma select_tick_progress (env : uploads.Env) (st st1 : uploads.State) (base : Z) :
  uploads.tickBuffered st = false ->
  base <= uploads.nextTick st ->
  uploads.select env st = (uploads.Tick, st1) ->
  uploads.tickBuffered st1 = false
  /\ uploads.fetched st1 = uploads.fetched st
  /\ base <= uploads.now st1
  /\ base + uploads.pollInterval <= uploads.nextTick st1.
Proof.
  intros Hb Hx. unfold uploads.select, uploads.advance.
  destruct (uploads.nextTick st <=? uploads.now st) eqn:Hle; state_red.
  - apply Z.leb_le in Hle.
    assert (Hq : 0 <= (uploads.now st - uploads.nextTick st) / uploads.pollInterval)
      by (apply Z.div_pos; [lia | reflexivity]).
    destruct (match uploads.cancelAt env with
              | Some c => c <=? uploads.now st
              | None => false
              end && uploads.tie env (uploads.fetched st));
      intro H; [discriminate H|].
    apply pair_equal_spec in H as [_ <-]. state_red.
    unfold uploads.pollInterval, Second, Millisecond in *. repeat split; lia.
  - rewrite Hb.
    destruct (uploads.cancelAt env) as [c|].
    + destruct (c <=? uploads.now st); [discriminate|].
      destruct (c <? uploads.nextTick st); [discriminate|].
      destruct ((c =? uploads.nextTick st) && uploads.tie env (uploads.fetched st));
        intro H; [discriminate H|].
      apply pair_equal_spec in H as [_ <-]. state_red.
      unfold uploads.pollInterval, Second, Millisecond. repeat split; lia.
    + intro H. apply pair_equal_spec in H as [_ <-]. state_red.
      unfold uploads.pollInterval, Second, Millisecond. repeat split; lia.
Qed.

Lemma loop_terminates (env : uploads.Env) (start id : Z) :
  (forall k, 0 <= uploads.took (uploads.fetches env k)) ->
  forall (fuel : nat) (st : uploads.State),
  uploads.tickBuffered st = false ->
  uploads.now st <= start + uploads.timeout ->
  start + uploads.pollInterval * Z.of_nat (uploads.fetched st) <= uploads.now st ->
  start + uploads.pollInterval * (Z.of_nat (uploads.fetched st) + 1)
    <= uploads.nextTick st ->
  (101 <= uploads.fetched st + fuel)%nat ->
  exists r st', uploads.loop fuel env id (start + uploads.timeout) st = Some (r, st').
Proof.
  intros Htook. induction fuel as [|fuel IH]; intros st Hb Hdl Hnow Hnext Hfuel.
  - exfalso. unfold uploads.pollInterval, uploads.timeout, Minute, Second,
      Millisecond in *. lia.
  - simpl.
    destruct (uploads.select env st) as [[|] st1] eqn:Hsel; [eauto|].
    destruct (select_tick_progress env st st1 _ Hb Hnext Hsel)
      as (Hb1 & Hf1 & Hn1 & Hx1).
    pose proof (onTick_cases env id (start + uploads.timeout) st1) as Hc.
    destruct (uploads.result _) as [err|u raw].
    { destruct Hc as (st2 & -> & _). eauto. }
    destruct (uploads.Error u).
    { destruct Hc as (st2 & -> & _). eauto. }
    destruct (uploads.ActivityID u).
    { destruct Hc as (st2 & -> & _). eauto. }
    destruct Hc as (st2 & Hf2 & Hn2 & Hx2 & Hb2 & Hd).
    destruct (start + uploads.timeout <? uploads.now st2) eqn:Hlt.
    { rewrite Hd. eauto. }
    rewrite Hd. apply Z.ltb_ge in Hlt.
    pose proof (Htook (uploads.fetched st1)).
    apply IH; try congruence; try lia.
Qed.

Lemma pollUpload_terminates (env : uploads.Env) (start id : Z) :
  (forall k, 0 <= uploads.took (uploads.fetches env k)) ->
  exists r st', uploads.pollUpload 101 env start id = Some (r, st').
Proof.
  intro Htook. unfold uploads.pollUpload.
  apply loop_terminates; simpl; try assumption; try reflexivity;
    unfold uploads.timeout, uploads.pollInterval, Minute, Second, Millisecond; lia.
Qed.

(** ** [config.Save] on the file system *)

Lemma append_snoc (d : string) (c : ascii) (s : string) :
  ((d ++ String c "") ++ s = d ++ String c s)%string.
Proof. induction d as [|a d IH]; simpl; [reflexivity|]. now rewrite IH. Qed.

Lemma append_empty_r (s : string) : (s ++ "")%string = s.
Proof. induction s as [|a s IH]; simpl; [reflexivity|]. now rewrite IH. Qed.

(** Writing the bytes [l] appends them to the file. *)
Lemma run_writes (l : list ascii) :
  forall (fs : configfile.FS) (f : configfile.File),
  configfile.file fs = Some f ->
  configfile.run (map configfile.WriteByte l) fs
  = configfile.mkFS (configfile.dir fs)
      (Some (configfile.mkFile (configfile.mode f)
               (configfile.data f ++ string_of_list_ascii l)))
      (configfile.umask fs).
Proof.
  unfold configfile.run.
  induction l as [|c l IH]; intros fs f Hf; simpl.
  - rewrite append_empty_r. destruct fs as [d fl u]. simpl in *. subst fl.
    destruct f. reflexivity.
  - rewrite Hf. erewrite IH by reflexivity. simpl. rewrite append_snoc. reflexivity.
Qed.

Lemma HasPrefix_firstn (s : string) :
  forall j, strings.HasPrefix s (string_of_list_ascii (firstn j (list_ascii_of_string s)))
            = true.
Proof.
  induction s as [|c s IH]; intros [|j]; simpl; try reflexivity.
  rewrite Ascii.eqb_refl. simpl. apply IH.
Qed.

Lemma ldiff_disjoint (a b : Z) : Z.land b a = 0 -> Z.ldiff a b = a.
Proof.
  intro H. apply Z.bits_inj'. intros n Hn. rewrite Z.ldiff_spec.
  pose proof (f_equal (fun z => Z.testbit z n) H) as Hb. simpl in Hb.
  rewrite Z.land_spec, Z.bits_0 in Hb.
  destruct (Z.testbit a n), (Z.testbit b n); simpl in *; congruence.
Qed.

Lemma ldiff_no_group_other (umask : Z) : Z.land (Z.ldiff 384 umask) 63 = 0.
Proof.
  rewrite Z.ldiff_land, <- Z.land_assoc, (Z.land_comm (Z.lnot umask) 63),
    Z.land_assoc.
  change (Z.land 384 63) with 0. apply Z.land_0_l.
Qed.

(** C5, as stated, fails: the save is not atomic.  Cut short after the
    file has been opened, it leaves an empty file where a complete
    configuration was; cut short during the write, it leaves the beginning
    of the new text.  Neither is the previous state or the new one.  An
    existing file also keeps its mode, here 0644. *)
Lemma Save_interrupted_is_partial :
  let enc := configfile.MarshalIndent configfile.quoted configfile.decimal in
  let before :=
    configfile.mkFS (Some 448)
      (Some (configfile.mkFile 420 (enc (exConfig "3f9a")))) 18 in
  let opened :=
    configfile.interrupted configfile.quoted configfile.decimal 2 exFreshConfig before in
  let partly :=
    configfile.interrupted configfile.quoted configfile.decimal 16 exFreshConfig before in
  let done := configfile.Save configfile.quoted configfile.decimal exFreshConfig before in
  configfile.file opened = Some (configfile.mkFile 420 "")
  /\ configfile.file opened <> configfile.file before
  /\ configfile.file opened <> configfile.file done
  /\ configfile.file partly
     = Some (configfile.mkFile 420 ("{" ++ configfile.nl ++ "  "
                                    ++ configfile.dq ++ "client_id"))
  /\ configfile.file partly <> configfile.file before
  /\ configfile.file partly <> configfile.file done
  /\ configfile.file done = Some (configfile.mkFile 420 (enc exFreshConfig)).
Proof.
  cbv zeta. repeat split; try (vm_compute; reflexivity); vm_compute; discriminate.
Qed.

(** C5, amended.  A save that runs to its end creates the directory if it
    is absent and leaves config.json holding the complete new text; a file
    it creates has mode 0600 less the umask, so no bit for group or others,
    and exactly 0600 when the umask does not mask those two bits, while a
    file that existed keeps its mode.  The save is not atomic: cut short,
    it leaves the file as it was or holding a beginning, possibly empty,
    of the new text. *)
Theorem Save_writes_whole_file
  (encodeString : string -> string) (encodeInt : Z -> string)
  (c : Config) (fs : configfile.FS) :
  let text := configfile.MarshalIndent encodeString encodeInt c in
  let fs' := configfile.Save encodeString encodeInt c fs in
  configfile.dir fs'
    = Some (match configfile.dir fs with
            | Some m => m
            | None => Z.ldiff 448 (configfile.umask fs)
            end)
  /\ configfile.file fs'
     = Some (configfile.mkFile
               (match configfile.file fs with
                | Some old => configfile.mode old
                | None => Z.ldiff 384 (configfile.umask fs)
                end) text)
  /\ (configfile.file fs = None ->
      forall f, configfile.file fs' = Some f ->
        Z.land (configfile.mode f) 63 = 0
        /\ (Z.land (configfile.umask fs) 384 = 0 -> configfile.mode f = 384))
  /\ (forall k,
        let mid := configfile.interrupted encodeString encodeInt k c fs in
        configfile.file mid = configfile.file fs
        \/ exists f, configfile.file mid = Some f
                     /\ strings.HasPrefix text (configfile.data f) = true).
Proof.
  cbv zeta.
  assert (Hprefix : forall j,
    configfile.run
      (map configfile.WriteByte
         (firstn j (list_ascii_of_string
                      (configfile.MarshalIndent encodeString encodeInt c))))
      (configfile.step (configfile.step fs (configfile.MkdirAll 448))
         (configfile.OpenTrunc 384))
    = configfile.mkFS
        (Some (match configfile.dir fs with
               | Some m => m
               | None => Z.ldiff 448 (configfile.umask fs)
               end))
        (Some (configfile.mkFile
                 (match configfile.file fs with
                  | Some old => configfile.mode old
                  | None => Z.ldiff 384 (configfile.umask fs)
                  end)
                 (string_of_list_ascii
                    (firstn j (list_ascii_of_string
                                 (configfile.MarshalIndent encodeString encodeInt c))))))
        (configfile.umask fs)).
  { intro j.
    destruct fs as [[d|] [f|] u];
      cbn [configfile.step configfile.dir configfile.file configfile.umask
           configfile.mode];
      (erewrite run_writes by reflexivity); reflexivity. }
  assert (Hsave : configfile.Save encodeString encodeInt c fs
    = configfile.mkFS
        (Some (match configfile.dir fs with
               | Some m => m
               | None => Z.ldiff 448 (configfile.umask fs)
               end))
        (Some (configfile.mkFile
                 (match configfile.file fs with
                  | Some old => configfile.mode old
                  | None => Z.ldiff 384 (configfile.umask fs)
                  end)
                 (configfile.MarshalIndent encodeString encodeInt c)))
        (configfile.umask fs)).
  { unfold configfile.Save, configfile.Save_ops.
    specialize (Hprefix (List.length (list_ascii_of_string
                  (configfile.MarshalIndent encodeString encodeInt c)))).
    rewrite firstn_all, string_of_list_ascii_of_string in Hprefix.
    exact Hprefix. }
  rewrite Hsave. cbn [configfile.dir configfile.file].
  split; [reflexivity|]. split; [reflexivity|]. split.
  - intros Hnone f Hf. rewrite Hnone in Hf.
    injection Hf as <-. cbn [configfile.mode]. split.
    + apply ldiff_no_group_other.
    + apply ldiff_disjoint.
  - intros [|[|j]].
    + left. reflexivity.
    + left. unfold configfile.interrupted. simpl.
      destruct (configfile.dir fs); reflexivity.
    + right. unfold configfile.interrupted, configfile.Save_ops.
      cbn [firstn]. rewrite firstn_map.
      change (configfile.run (?a :: ?b :: ?l) fs)
        with (configfile.run l (configfile.step (configfile.step fs a) b)).
      rewrite Hprefix. eexists. split; [reflexivity|].
      cbn [configfile.data]. apply HasPrefix_firstn.
Qed.

(** The amended C5 on a first save, under the usual umask 022. *)
Lemma Save_writes_whole_file_witness :
  let fs' := configfile.Save configfile.quoted configfile.decimal exFreshConfig
               (configfile.mkFS None None 18) in
  configfile.dir fs' = Some 448
  /\ (forall f, configfile.file fs' = Some f -> configfile.mode f = 384).
Proof.
  cbv zeta. split.
  - exact (proj1 (Save_writes_whole_file configfile.quoted configfile.decimal
                    exFreshConfig (configfile.mkFS None None 18))).
  - intros f Hf.
    exact (proj2 (proj1 (proj2 (proj2
             (Save_writes_whole_file configfile.quoted configfile.decimal
                exFreshConfig (configfile.mkFS None None 18))))
             eq_refl f Hf) eq_refl).
Defined.

(* ===================================================================== *)
(** * Further properties of the code                                      *)
(* ===================================================================== *)

(** ** The token refresher: what a call leaves behind *)

Lemma authorizations_app (l1 l2 : list Event) :
  authorizations (l1 ++ l2) = (authorizations l1 ++ authorizations l2)%list.
Proof.
  induction l1 as [|e l1 IH]; simpl; [reflexivity|].
  destruct e; simpl; rewrite IH; reflexivity.
Qed.

Lemma sleeps_app (l1 l2 : list Event) :
  sleeps (l1 ++ l2) = (sleeps l1 ++ sleeps l2)%list.
Proof.
  induction l1 as [|e l1 IH]; simpl; [reflexivity|].
  destruct e; simpl; rewrite IH; reflexivity.
Qed.

(** The events of one call of the refresher: no sleep and no round trip.
    After a success the configuration holds an access token. *)
Lemma RefreshIfExpired_shape (w : World) :
  let res := auth.RefreshIfExpired w in
  exists added,
    log (snd res) = (log w ++ added)%list
    /\ sleeps added = [] /\ roundTrips added = 0%nat
    /\ authorizations added = [] /\ payloads added = []
    /\ (exchanges added <= 1)%nat
    /\ baseBackoff (snd res) = baseBackoff w
    /\ apiServer (snd res) = apiServer w
    /\ (fst res = inr tt -> Tok.AccessToken (Tokens (cfg (snd res))) <> "").
Proof.
  cbv zeta. rewrite RefreshIfExpired_unfold.
  destruct (String.eqb _ "") eqn:Ha; simpl.
  { exists []. rewrite app_nil_r. repeat split; auto. discriminate. }
  apply String.eqb_neq in Ha.
  destruct (wrap64 _ <? _); simpl.
  { exists []. rewrite app_nil_r. repeat split; auto. }
  pose proof (postToken_effects (auth.refreshForm (cfg w)) w)
    as (Hl & Hc & _ & _ & _ & Hs & Hb & _).
  pose proof (postToken_granted (auth.refreshForm (cfg w)) w) as Hg.
  destruct (auth.postToken _ w) as [[e|t] w1]; simpl in *.
  { eexists. split; [exact Hl|]. repeat split; auto. discriminate. }
  specialize (Hg t eq_refl).
  pose proof (Save_effects (set_Tokens (cfg w1) t) (set_cfg w1 (set_Tokens (cfg w1) t)))
    as (Hlog & Hcfg & _ & _ & Ha' & Hb'); simpl in *.
  destruct Hlog as [Hlog|Hlog]; eexists; rewrite Hlog, Hl.
  - split; [reflexivity|]. repeat split; auto; try congruence.
    intros _. rewrite Hcfg. exact Hg.
  - rewrite <- app_assoc. split; [reflexivity|]. repeat split; auto; try congruence.
    intros _. rewrite Hcfg. exact Hg.
Qed.

(** X1.  A call of the refresher that succeeds leaves an access token in the
    configuration.  Either the token was fresh and nothing at all has
    changed; or the token was due, the call made exactly one call of the
    token endpoint, the endpoint answered 200 with a pair of tokens, and
    that very pair is now in the configuration, whose other fields are as
    they were, and the file holds that configuration: after a refresh the
    file and the memory agree on the granted pair. *)
Theorem RefreshIfExpired_success_agrees (w : World) :
  fst (auth.RefreshIfExpired w) = inr tt ->
  let w' := snd (auth.RefreshIfExpired w) in
  Tok.AccessToken (Tokens (cfg w')) <> ""
  /\ ((w' = w /\ freshAt (cfg w) (clock w))
      \/ exists tr body rest,
           ~ freshAt (cfg w) (clock w)
           /\ tokenServer w = Reply 200 tr body :: rest
           /\ exchanges (log w') = S (exchanges (log w))
           /\ cfg w' = set_Tokens (cfg w) (grantedPair tr)
           /\ disk w' = Stored (set_Tokens (cfg w) (grantedPair tr))).
Proof.
  cbv zeta. rewrite RefreshIfExpired_unfold. unfold freshAt.
  change (clock w / Second) with (Unix w).
  destruct (String.eqb _ "") eqn:Ha; simpl; [discriminate|].
  apply String.eqb_neq in Ha.
  destruct (wrap64 _ <? _) eqn:Hf; simpl;
    [intros _; split; [exact Ha|left; auto]|].
  pose proof (postToken_effects (auth.refreshForm (cfg w)) w) as (Hl & Hc & _).
  pose proof (postToken_reply (auth.refreshForm (cfg w)) w) as Hg.
  destruct (auth.postToken _ w) as [[e|t] w1]; simpl in *; [discriminate|].
  destruct (Hg t eq_refl) as (tr & body & rest & Hsrv & Htr & ->).
  pose proof (Save_effects (set_Tokens (cfg w1) (grantedPair tr))
                (set_cfg w1 (set_Tokens (cfg w1) (grantedPair tr))))
    as (Hlog & Hcfg & _); simpl in *.
  pose proof (Save_outcome (set_Tokens (cfg w1) (grantedPair tr))
                (set_cfg w1 (set_Tokens (cfg w1) (grantedPair tr))))
    as Hout; simpl in Hout.
  destruct (config.Save _ _) as [[e|[]] w2]; simpl in *; [discriminate|].
  intros _. rewrite Hcfg. simpl. split; [exact Htr|]. right.
  exists tr, body, rest.
  split; [intros [_ H]; discriminate H|]. split; [exact Hsrv|].
  split; [|split].
  - destruct Hlog as [-> | ->]; rewrite Hl, ?exchanges_app; unfold exchanges; simpl; lia.
  - rewrite Hc. reflexivity.
  - rewrite Hout, Hc. reflexivity.
Qed.

(** On an expired pair the endpoint grants a new one: one exchange, and
    memory and file hold the granted pair. *)
Lemma RefreshIfExpired_success_agrees_witness :
  let w := exLoaded "" in
  let w' := snd (auth.RefreshIfExpired w) in
  exchanges (log w') = 1%nat
  /\ cfg w' = set_Tokens (cfg w) exNewTokens
  /\ disk w' = Stored (set_Tokens (cfg w) exNewTokens).
Proof.
  cbv zeta.
  destruct (RefreshIfExpired_success_agrees (exLoaded "") eq_refl)
    as (_ & [(_ & _ & H)|(tr & body & rest & _ & Hsrv & Hx & Hcfg & Hdisk)]).
  - vm_compute in H. discriminate H.
  - injection Hsrv as <- _ _. auto.
Defined.

(** X2.  The three ways in which the refresher fails.  Without an access token
    it fails at once and changes nothing.  When the token endpoint does not
    grant a new pair, the error is the refresh error, one call was made, and
    the tokens in memory and the file are as they were: a refused refresh
    never damages the stored session.  When the endpoint answered 200 with
    a pair of tokens but the save failed, the error is the one of
    [config.Save]; the granted pair is then in memory only, and the file is
    as it was or does not parse. *)
Theorem RefreshIfExpired_failure_modes (w : World) (e : error) :
  fst (auth.RefreshIfExpired w) = inl e ->
  let w' := snd (auth.RefreshIfExpired w) in
  (e = auth.errNotAuthenticated
   /\ Tok.AccessToken (Tokens (cfg w)) = "" /\ w' = w)
  \/ ((exists e', e = auth.errRefresh e')
      /\ exchanges (log w') = S (exchanges (log w))
      /\ cfg w' = cfg w /\ disk w' = disk w)
  \/ (isSaveError e
      /\ exchanges (log w') = S (exchanges (log w))
      /\ (exists tr body rest,
            tokenServer w = Reply 200 tr body :: rest
            /\ tr_AccessToken tr <> ""
            /\ cfg w' = set_Tokens (cfg w) (grantedPair tr))
      /\ (disk w' = disk w \/ disk w' = Corrupt)).
Proof.
  cbv zeta. rewrite RefreshIfExpired_unfold.
  destruct (String.eqb _ "") eqn:Ha; simpl.
  { intro H. inversion H. left. apply String.eqb_eq in Ha. auto. }
  destruct (wrap64 _ <? _); simpl; [discriminate|].
  pose proof (postToken_effects (auth.refreshForm (cfg w)) w)
    as (Hl & Hc & Hd & _).
  pose proof (postToken_reply (auth.refreshForm (cfg w)) w) as Hg.
  destruct (auth.postToken _ w) as [[e1|t] w1]; simpl in *.
  { intro H. inversion H. right. left. split; [eauto|].
    rewrite Hl, exchanges_app. unfold exchanges. simpl. split; [lia|auto]. }
  destruct (Hg t eq_refl) as (tr & body & rest & Hsrv & Htr & ->).
  pose proof (Save_effects (set_Tokens (cfg w1) (grantedPair tr))
                (set_cfg w1 (set_Tokens (cfg w1) (grantedPair tr))))
    as (Hlog & Hcfg & _); simpl in *.
  pose proof (Save_outcome (set_Tokens (cfg w1) (grantedPair tr))
                (set_cfg w1 (set_Tokens (cfg w1) (grantedPair tr))))
    as Hout; simpl in Hout.
  destruct (config.Save _ _) as [[e2|[]] w2]; simpl in *; [|discriminate].
  intro H. inversion H; subst e2. right. right.
  destruct Hout as [Hse Hdisk]. split; [exact Hse|]. split; [|split].
  - destruct Hlog as [-> | ->]; rewrite Hl, ?exchanges_app; unfold exchanges; simpl; lia.
  - exists tr, body, rest. split; [exact Hsrv|]. split; [exact Htr|].
    rewrite Hcfg, Hc. reflexivity.
  - rewrite <- Hd. exact Hdisk.
Qed.

(** A token endpoint that answers 401 to an expired session: the refresh
    error, and nothing is lost. *)
Lemma RefreshIfExpired_failure_modes_witness :
  let w := set_tokenServer (exLoaded "")
             [Reply 401 (mkTokenResponse "" "" 0 "" "Authorization Error") "{}"] in
  let w' := snd (auth.RefreshIfExpired w) in
  fst (auth.RefreshIfExpired w)
  = inl (auth.errRefresh (Errorf "HTTP %d: %s" [ArgD 401; ArgS "Authorization Error"]))
  /\ exchanges (log w') = S (exchanges (log w))
  /\ cfg w' = cfg w /\ disk w' = disk w.
Proof.
  cbv zeta. split; [reflexivity|].
  destruct (RefreshIfExpired_failure_modes
              (set_tokenServer (exLoaded "")
                 [Reply 401 (mkTokenResponse "" "" 0 "" "Authorization Error") "{}"])
              (auth.errRefresh (Errorf "HTTP %d: %s" [ArgD 401; ArgS "Authorization Error"]))
              eq_refl) as [(H & _)|[(_ & H)|((f & m & H & _) & _)]].
  - discriminate H.
  - exact H.
  - discriminate H.
Defined.

(** When the new pair cannot be saved, it is kept for the rest of the
    process only: the error of the save is returned, the granted pair is
    in memory, and the file is as it was. *)
Example RefreshIfExpired_save_failure :
  let w := set_saveFaults (exLoaded "") [Some (FaultOpen "permission denied")] in
  let w' := snd (auth.RefreshIfExpired w) in
  fst (auth.RefreshIfExpired w)
  = inl (Errorf "write config: %w" [ArgW (External "permission denied")])
  /\ Tokens (cfg w') = exNewTokens /\ disk w' = disk w.
Proof. cbv zeta. repeat split; vm_compute; reflexivity. Qed.

(** ** The retrying transport: one iteration of the loop *)

Lemma roundTrips_none_authorizations (l : list Event) :
  roundTrips l = 0%nat -> authorizations l = [].
Proof.
  unfold roundTrips. induction l as [|e l IH]; [reflexivity|].
  destruct e; simpl; auto. discriminate.
Qed.

(** The head of an iteration: the wait of a retry is the only sleep, and
    a retry goes on only with an access token in the configuration. *)
Lemma beforeAttempt_shape (attempt : Z) (w : World) :
  let res := client.beforeAttempt attempt w in
  exists added,
    log (snd res) = (log w ++ added)%list
    /\ sleeps added
       = (if 0 <? attempt then [client.backoff attempt (baseBackoff w)] else [])
    /\ roundTrips added = 0%nat
    /\ baseBackoff (snd res) = baseBackoff w
    /\ apiServer (snd res) = apiServer w
    /\ (fst res = inr tt ->
        if 0 <? attempt then Tok.AccessToken (Tokens (cfg (snd res))) <> ""
        else snd res = w).
Proof.
  cbv zeta. unfold client.beforeAttempt.
  destruct (0 <? attempt).
  - unfold Sleep. monad.
    set (w0 := set_clock _ _).
    destruct (RefreshIfExpired_shape w0)
      as (added & L & S0 & R0 & _ & _ & _ & B & A & T).
    exists (EvSleep (client.backoff attempt (baseBackoff w)) :: added).
    rewrite L. unfold w0 at 1. simpl. rewrite <- app_assoc. simpl.
    rewrite S0. unfold roundTrips in *. simpl. rewrite R0.
    repeat split; auto.
  - exists []. simpl. rewrite app_nil_r. repeat split; auto.
Qed.

(** The clone's body: at most a call of [GetBody], and the configuration
    is not touched. *)
Lemma cloneBody_shape (attempt : Z) (req : client.Request)
  (stream : option string) (w : World) :
  let res := client.cloneBody attempt req stream w in
  exists added,
    log (snd res) = (log w ++ added)%list
    /\ sleeps added = [] /\ roundTrips added = 0%nat
    /\ cfg (snd res) = cfg w
    /\ baseBackoff (snd res) = baseBackoff w
    /\ apiServer (snd res) = apiServer w.
Proof.
  cbv zeta. unfold client.cloneBody.
  destruct (client.GetBody req) as [g|];
    [|exists []; simpl; rewrite app_nil_r; repeat split; auto].
  destruct (0 <? attempt);
    [|exists []; simpl; rewrite app_nil_r; repeat split; auto].
  monad. destruct (g tt); simpl; exists [EvGetBody]; repeat split; auto.
Qed.

(** One iteration of the loop, with everything it does.  Either it stops
    before anything is sent (the refresh or [GetBody] failed), or it sends
    one request under the token the configuration holds, and then: a network
    error ends the loop; an answer that cannot be retried is returned; a
    retryable answer ends the loop at the last attempt and leads to the next
    iteration otherwise. *)
Lemma attempts_iter (req : client.Request) (n : nat) (attempt : Z)
  (stream : option string) (resp : option Response) (w : World) :
  let res := client.attempts (S n) attempt req stream resp w in
  exists pre,
    sleeps pre
    = (if 0 <? attempt then [client.backoff attempt (baseBackoff w)] else [])
    /\ roundTrips pre = 0%nat
    /\ ((exists e, fst res = inl e /\ log (snd res) = (log w ++ pre)%list)
        \/ exists token body w3,
             log w3 = (log w ++ pre ++ [EvRoundTrip ("Bearer " ++ token) body])%list
             /\ baseBackoff w3 = baseBackoff w
             /\ apiServer w3 = tl (apiServer w)
             /\ (if 0 <? attempt then token <> ""
                 else token = Tok.AccessToken (Tokens (cfg w)))
             /\ ((exists e,
                    res = (inl (Errorf "request failed: %w" [ArgW e]), w3)
                    /\ forall r, hd_error (apiServer w) <> Some (Answer r))
                 \/ exists r stream',
                      hd_error (apiServer w) = Some (Answer r)
                      /\ res
                         = if client.retryable (StatusCode r) then
                             if attempt =? client.maxRetries
                             then (inl (client.errExhausted (StatusCode r)), w3)
                             else client.attempts n (attempt + 1) req stream'
                                    (Some r) w3
                           else (inr (Some r), w3))).
Proof.
  cbv zeta. rewrite attempts_S.
  destruct (beforeAttempt_shape attempt w) as (a1 & L1 & S1 & R1 & B1 & A1 & T1).
  destruct (client.beforeAttempt attempt w) as [[e|[]] w1]; simpl in *.
  { exists a1. split; [exact S1|]. split; [exact R1|]. left. eauto. }
  specialize (T1 eq_refl).
  destruct (cloneBody_shape attempt req stream w1) as (a2 & L2 & S2 & R2 & C2 & B2 & A2).
  destruct (client.cloneBody attempt req stream w1) as [[e|bodies] w2]; simpl in *.
  { exists (a1 ++ a2)%list. rewrite sleeps_app, roundTrips_app, S1, S2, R1, R2, app_nil_r.
    split; [reflexivity|]. split; [reflexivity|]. left. exists e.
    split; [reflexivity|]. rewrite L2, L1, app_assoc. reflexivity. }
  pose proof (baseRoundTrip_effects
    ("Bearer " ++ Tok.AccessToken (Tokens (cfg w1))) (fst bodies) w2)
    as (L3 & B3 & A3 & H3).
  exists (a1 ++ a2)%list. rewrite sleeps_app, roundTrips_app, S1, S2, R1, R2, app_nil_r.
  split; [reflexivity|]. split; [reflexivity|]. right.
  exists (Tok.AccessToken (Tokens (cfg w1))), (fst bodies).
  assert (Hnet : forall e w3,
            client.baseRoundTrip ("Bearer " ++ Tok.AccessToken (Tokens (cfg w1)))
              (fst bodies) w2 = (inl e, w3) ->
            forall r, hd_error (apiServer w) <> Some (Answer r)).
  { unfold client.baseRoundTrip. monad. rewrite A2, A1.
    destruct (apiServer w) as [|[e0|r0] rest]; simpl; intros e w3 H r Hr;
      try discriminate. }
  destruct (client.baseRoundTrip _ (fst bodies) w2) as [[e|r] w3] eqn:Hbase;
    simpl in *; exists w3.
  - split; [rewrite L3, L2, L1, <- !app_assoc; reflexivity|].
    split; [congruence|]. split; [congruence|].
    split; [destruct (0 <? attempt); [exact T1|subst w1; reflexivity]|].
    left. exists e. split; [reflexivity|]. exact (Hnet e w3 eq_refl).
  - split; [rewrite L3, L2, L1, <- !app_assoc; reflexivity|].
    split; [congruence|]. split; [congruence|].
    split; [destruct (0 <? attempt); [exact T1|subst w1; reflexivity]|].
    right. exists r, (snd bodies). split; [|reflexivity].
    rewrite <- A1, <- A2. apply H3. reflexivity.
Qed.

(** ** The retrying transport: what [RoundTrip] returns *)

Lemma nth_error_tl {A} (l : list A) (k : nat) :
  nth_error (tl l) k = nth_error l (S k).
Proof. destruct l; [destruct k|]; reflexivity. Qed.

Lemma attempts_returns (req : client.Request) (n : nat) :
  forall (attempt : Z) (stream : option string) (resp : option Response)
         (w : World) (r' : option Response),
  0 <= attempt ->
  attempt + Z.of_nat n = client.maxRetries + 1 ->
  (0 < n)%nat ->
  fst (client.attempts n attempt req stream resp w) = inr r' ->
  exists r added,
    r' = Some r
    /\ client.retryable (StatusCode r) = false
    /\ log (snd (client.attempts n attempt req stream resp w)) = (log w ++ added)%list
    /\ (1 <= roundTrips added)%nat
    /\ nth_error (apiServer w) (roundTrips added - 1) = Some (Answer r).
Proof.
  induction n as [|n IH]; intros attempt stream resp w r' Hatt Hsum Hn Hret; [lia|].
  destruct (attempts_iter req n attempt stream resp w)
    as (pre & _ & Rp & [(e & He & _)|(token & body & w3 & L3 & _ & A3 & _ & Hcase)]).
  { rewrite He in Hret. discriminate Hret. }
  destruct Hcase as [(e & He & _)|(r & stream' & Hhd & Hres)].
  { rewrite He in Hret. discriminate Hret. }
  rewrite Hres in Hret |- *.
  assert (Hone : roundTrips (pre ++ [EvRoundTrip ("Bearer " ++ token) body]) = 1%nat).
  { rewrite roundTrips_app, Rp. reflexivity. }
  destruct (client.retryable (StatusCode r)) eqn:Hretry.
  - destruct (attempt =? client.maxRetries) eqn:Hmax; [discriminate Hret|].
    apply Z.eqb_neq in Hmax.
    destruct (IH (attempt + 1) stream' (Some r) w3 r') as
      (r0 & added & -> & Hnr & L & Hpos & Hnth); try lia; try exact Hret.
    exists r0, ((pre ++ [EvRoundTrip ("Bearer " ++ token) body]) ++ added)%list.
    split; [reflexivity|]. split; [exact Hnr|].
    split; [rewrite L, L3, <- !app_assoc; reflexivity|].
    rewrite roundTrips_app, Hone. split; [lia|].
    rewrite A3, nth_error_tl in Hnth.
    replace (1 + roundTrips added - 1)%nat with (S (roundTrips added - 1)) by lia.
    exact Hnth.
  - simpl in Hret. inversion Hret; subst r'.
    exists r, (pre ++ [EvRoundTrip ("Bearer " ++ token) body])%list.
    split; [reflexivity|]. split; [exact Hretry|]. cbn [fst snd].
    split; [exact L3|]. rewrite Hone. split; [lia|].
    simpl. destruct (apiServer w); [discriminate Hhd|exact Hhd].
Qed.

(** X3.  When [RoundTrip] returns without an error, it returns a response (the
    final [return resp, err] of the source is indeed unreachable), namely
    the server's answer to the last round trip made, and the status of that
    answer is neither 429 nor 500 or more: a caller never sees a response
    that the transport would retry. *)
Theorem RoundTrip_returns_last_answer (req : client.Request) (w : World)
  (r' : option Response) :
  fst (client.RoundTrip req w) = inr r' ->
  exists r added,
    r' = Some r
    /\ StatusCode r <> 429 /\ StatusCode r < 500
    /\ log (snd (client.RoundTrip req w)) = (log w ++ added)%list
    /\ (1 <= roundTrips added)%nat
    /\ nth_error (apiServer w) (roundTrips added - 1) = Some (Answer r).
Proof.
  unfold client.RoundTrip. unfold bind at 1 2.
  destruct (RefreshIfExpired_shape w) as (a & L & _ & R & _ & _ & _ & _ & A & _).
  destruct (auth.RefreshIfExpired w) as [[e|[]] w1]; cbn [fst snd] in *;
    cbv beta iota; [discriminate|].
  intro Hret.
  destruct (attempts_returns req (Z.to_nat (client.maxRetries + 1)) 0
              (client.Body req) None w1 r')
    as (r & added & -> & Hnr & L1 & Hpos & Hnth);
    try exact Hret; try (unfold client.maxRetries; simpl; lia).
  exists r, (a ++ added)%list. split; [reflexivity|].
  unfold client.retryable in Hnr. apply orb_false_iff in Hnr as [H1 H2].
  apply Z.eqb_neq in H1. apply Z.leb_gt in H2.
  split; [exact H1|]. split; [exact H2|].
  split; [rewrite L1, L, app_assoc; reflexivity|].
  rewrite roundTrips_app, R. simpl. split; [exact Hpos|].
  rewrite <- A. exact Hnth.
Qed.

(** After a 429 the server answers 404: the 404 response is what the
    caller gets, as the answer to the second round trip. *)
Lemma RoundTrip_returns_last_answer_witness :
  let w := exApi [status 429; status 404] in
  exists r added,
    fst (client.RoundTrip exGet w) = inr (Some r)
    /\ StatusCode r = 404
    /\ log (snd (client.RoundTrip exGet w)) = (log w ++ added)%list
    /\ roundTrips added = 2%nat
    /\ nth_error (apiServer w) (roundTrips added - 1) = Some (Answer r).
Proof.
  cbv zeta.
  destruct (RoundTrip_returns_last_answer exGet (exApi [status 429; status 404])
              (Some (mkResponse 404 "")) ltac:(vm_compute; reflexivity))
    as (r & added & Hr & _ & _ & L & _ & N).
  exists r, added. inversion Hr; subst r.
  split; [vm_compute; reflexivity|]. split; [reflexivity|].
  split; [exact L|]. split; [|exact N].
  assert (E : roundTrips (log (snd (client.RoundTrip exGet
                 (exApi [status 429; status 404])))) = 2%nat)
    by (vm_compute; reflexivity).
  rewrite L, roundTrips_app in E. exact E.
Defined.

(** ** The retrying transport: the token on the wire *)

Lemma attempts_bearer (req : client.Request) (n : nat) :
  forall (attempt : Z) (stream : option string) (resp : option Response)
         (w : World),
  0 <= attempt ->
  0 < attempt \/ Tok.AccessToken (Tokens (cfg w)) <> "" ->
  exists added,
    log (snd (client.attempts n attempt req stream resp w)) = (log w ++ added)%list
    /\ Forall bearer (authorizations added).
Proof.
  induction n as [|n IH]; intros attempt stream resp w Hatt Htok.
  { exists []. simpl. rewrite app_nil_r. split; [reflexivity|constructor]. }
  destruct (attempts_iter req n attempt stream resp w)
    as (pre & _ & Rp & [(e & _ & L)|(token & body & w3 & L3 & _ & _ & T3 & Hcase)]).
  { exists pre. split; [exact L|].
    rewrite (roundTrips_none_authorizations _ Rp). constructor. }
  assert (Hb : bearer ("Bearer " ++ token)).
  { exists token. split; [reflexivity|].
    destruct (0 <? attempt) eqn:Hlt; [exact T3|].
    apply Z.ltb_ge in Hlt. destruct Htok as [H|H]; [lia|]. rewrite T3. exact H. }
  assert (Hpre : authorizations (pre ++ [EvRoundTrip ("Bearer " ++ token) body])
                 = ["Bearer " ++ token]).
  { rewrite authorizations_app, (roundTrips_none_authorizations _ Rp). reflexivity. }
  assert (Hstop : forall res : (error + option Response) * World,
            snd res = w3 ->
            exists added, log (snd res) = (log w ++ added)%list
                          /\ Forall bearer (authorizations added)).
  { intros res ->. eexists. split; [exact L3|]. rewrite Hpre. repeat constructor.
    exact Hb. }
  destruct Hcase as [(e & -> & _)|(r & stream' & _ & ->)]; [apply Hstop; reflexivity|].
  destruct (client.retryable (StatusCode r)); [|apply Hstop; reflexivity].
  destruct (attempt =? client.maxRetries); [apply Hstop; reflexivity|].
  destruct (IH (attempt + 1) stream' (Some r) w3 ltac:(lia) ltac:(left; lia))
    as (added & L & F).
  exists ((pre ++ [EvRoundTrip ("Bearer " ++ token) body]) ++ added)%list.
  split; [rewrite L, L3, <- !app_assoc; reflexivity|].
  rewrite authorizations_app, Hpre. simpl. constructor; assumption.
Qed.

(** X4.  No request ever leaves the transport without a token: the
    Authorization header of every round trip is "Bearer " followed by a
    non-empty access token, whatever the configuration, the servers and the
    file system do. *)
Theorem RoundTrip_bearer_never_empty (req : client.Request) (w : World) :
  exists added,
    log (snd (client.RoundTrip req w)) = (log w ++ added)%list
    /\ List.length (authorizations added) = roundTrips added
    /\ Forall bearer (authorizations added).
Proof.
  assert (Hlen : forall l, List.length (authorizations l) = roundTrips l).
  { unfold roundTrips. induction l as [|e l IH]; [reflexivity|].
    destruct e; simpl; auto. }
  unfold client.RoundTrip. unfold bind at 1.
  destruct (RefreshIfExpired_shape w) as (a & L & _ & R & Au & _ & _ & _ & _ & T).
  destruct (auth.RefreshIfExpired w) as [[e|[]] w1]; cbn [fst snd] in *;
    cbv beta iota.
  { exists a. split; [exact L|]. split; [apply Hlen|]. rewrite Au. constructor. }
  destruct (attempts_bearer req (Z.to_nat (client.maxRetries + 1)) 0
              (client.Body req) None w1 ltac:(lia) ltac:(right; auto))
    as (added & L1 & F).
  exists (a ++ added)%list.
  split; [rewrite L1, L, app_assoc; reflexivity|]. split; [apply Hlen|].
  rewrite authorizations_app, Au. exact F.
Qed.

(** ** The retrying transport: the waits *)

Lemma attempts_sleeps (req : client.Request) (n : nat) :
  forall (attempt : Z) (stream : option string) (resp : option Response)
         (w : World),
  0 <= attempt ->
  exists added,
    log (snd (client.attempts n attempt req stream resp w)) = (log w ++ added)%list
    /\ sleeps added
       = firstn (List.length (sleeps added)) (backoffsFrom n attempt (baseBackoff w))
    /\ (if 0 <? attempt
        then (roundTrips added <= List.length (sleeps added) <= S (roundTrips added))%nat
        else (List.length (sleeps added) <= roundTrips added
              <= S (List.length (sleeps added)))%nat).
Proof.
  induction n as [|n IH]; intros attempt stream resp w Hatt.
  { exists []. simpl. rewrite app_nil_r. split; [reflexivity|].
    split; [reflexivity|]. unfold roundTrips. simpl. destruct (0 <? attempt); lia. }
  destruct (attempts_iter req n attempt stream resp w)
    as (pre & Sp & Rp & [(e & _ & L)|(token & body & w3 & L3 & B3 & _ & _ & Hcase)]).
  { exists pre. split; [exact L|]. rewrite Rp, Sp. simpl.
    destruct (0 <? attempt); simpl; split; try reflexivity; lia. }
  set (ev := EvRoundTrip ("Bearer " ++ token) body) in *.
  assert (Hs : sleeps (pre ++ [ev]) = sleeps pre)
    by (rewrite sleeps_app; simpl; apply app_nil_r).
  assert (Hr : roundTrips (pre ++ [ev]) = 1%nat)
    by (rewrite roundTrips_app, Rp; reflexivity).
  assert (Hstop : forall res : (error + option Response) * World,
    snd res = w3 ->
    exists added,
      log (snd res) = (log w ++ added)%list
      /\ sleeps added
         = firstn (List.length (sleeps added))
             (backoffsFrom (S n) attempt (baseBackoff w))
      /\ (if 0 <? attempt
          then (roundTrips added <= List.length (sleeps added) <= S (roundTrips added))%nat
          else (List.length (sleeps added) <= roundTrips added
                <= S (List.length (sleeps added)))%nat)).
  { intros res ->. exists (pre ++ [ev])%list. split; [exact L3|].
    rewrite Hs, Hr, Sp. simpl.
    destruct (0 <? attempt); simpl; split; try reflexivity; lia. }
  destruct Hcase as [(e & -> & _)|(r & stream' & _ & ->)]; [apply Hstop; reflexivity|].
  destruct (client.retryable (StatusCode r)); [|apply Hstop; reflexivity].
  destruct (attempt =? client.maxRetries); [apply Hstop; reflexivity|].
  destruct (IH (attempt + 1) stream' (Some r) w3 ltac:(lia)) as (added & L & F & C).
  assert (H1 : (0 <? attempt + 1) = true) by (apply Z.ltb_lt; lia).
  rewrite H1 in C. rewrite B3 in F.
  exists ((pre ++ [ev]) ++ added)%list.
  split; [rewrite L, L3, <- !app_assoc; reflexivity|].
  rewrite sleeps_app, roundTrips_app, Hs, Hr, Sp, length_app.
  cbn [backoffsFrom].
  split.
  - rewrite firstn_app_2. f_equal. exact F.
  - destruct (0 <? attempt); simpl; lia.
Qed.

Lemma backoff_small (k : Z) (base : Duration) :
  0 <= base -> 2 ^ (k - 1) * base <= int64_max ->
  client.backoff k base = 2 ^ (k - 1) * base.
Proof.
  intros H0 H1. unfold client.backoff. apply wrap64_small.
  unfold int64_min. split; [|exact H1].
  assert (Hp : 0 <= 2 ^ (k - 1)) by (apply Z.pow_nonneg; lia).
  pose proof (Z.mul_nonneg_nonneg _ _ Hp H0). lia.
Qed.

Lemma rhythm_app (l1 l2 : list Event) :
  rhythm (l1 ++ l2) = (rhythm l1 ++ rhythm l2)%list.
Proof.
  induction l1 as [|e l1 IH]; simpl; [reflexivity|].
  destruct e; simpl; rewrite IH; reflexivity.
Qed.

(** Without a round trip, the rhythm of a log is that of its sleeps. *)
Lemma rhythm_quiet (l : list Event) :
  roundTrips l = 0%nat -> rhythm l = map Some (sleeps l).
Proof.
  unfold roundTrips. induction l as [|e l IH]; [reflexivity|].
  destruct e; simpl; intro H; try discriminate H; rewrite (IH H); reflexivity.
Qed.

(** The order of the round trips and the waits in the loop: each
    iteration waits first, if it is a retry, and sends then. *)
Lemma attempts_rhythm (req : client.Request) (n : nat) :
  forall (attempt : Z) (stream : option string) (resp : option Response)
         (w : World),
  0 <= attempt ->
  exists added,
    log (snd (client.attempts n attempt req stream resp w)) = (log w ++ added)%list
    /\ rhythm added
       = firstn (List.length (rhythm added))
           (rhythmFrom n attempt (baseBackoff w)).
Proof.
  induction n as [|n IH]; intros attempt stream resp w Hatt.
  { exists []. simpl. rewrite app_nil_r. split; reflexivity. }
  destruct (attempts_iter req n attempt stream resp w)
    as (pre & Sp & Rp & [(e & _ & L)|(token & body & w3 & L3 & B3 & _ & _ & Hcase)]).
  { exists pre. split; [exact L|]. rewrite (rhythm_quiet _ Rp), Sp.
    cbn [rhythmFrom]. destruct (0 <? attempt); reflexivity. }
  set (ev := EvRoundTrip ("Bearer " ++ token) body) in *.
  set (head := if 0 <? attempt
               then [Some (client.backoff attempt (baseBackoff w))] else []).
  assert (Hpre : rhythm (pre ++ [ev]) = (head ++ [None])%list).
  { rewrite rhythm_app, (rhythm_quiet _ Rp), Sp. unfold head.
    destruct (0 <? attempt); reflexivity. }
  assert (Hfrom : rhythmFrom (S n) attempt (baseBackoff w)
                  = ((head ++ [None])
                     ++ rhythmFrom n (attempt + 1) (baseBackoff w))%list).
  { cbn [rhythmFrom]. fold head. rewrite <- app_assoc. reflexivity. }
  assert (Hstop : forall res : (error + option Response) * World,
    snd res = w3 ->
    exists added,
      log (snd res) = (log w ++ added)%list
      /\ rhythm added
         = firstn (List.length (rhythm added))
             (rhythmFrom (S n) attempt (baseBackoff w))).
  { intros res ->. exists (pre ++ [ev])%list. split; [exact L3|].
    rewrite Hpre, Hfrom.
    rewrite <- (Nat.add_0_r (List.length (head ++ [None]))), firstn_app_2.
    simpl. rewrite app_nil_r. reflexivity. }
  destruct Hcase as [(e & -> & _)|(r & stream' & _ & ->)]; [apply Hstop; reflexivity|].
  destruct (client.retryable (StatusCode r)); [|apply Hstop; reflexivity].
  destruct (attempt =? client.maxRetries); [apply Hstop; reflexivity|].
  destruct (IH (attempt + 1) stream' (Some r) w3 ltac:(lia)) as (added & L & F).
  rewrite B3 in F.
  exists ((pre ++ [ev]) ++ added)%list.
  split; [rewrite L, L3, <- !app_assoc; reflexivity|].
  rewrite rhythm_app, Hpre, Hfrom, length_app, firstn_app_2.
  f_equal. exact F.
Qed.

(** X5.  The waits of one call of [RoundTrip].  With a base that is not
    negative and whose fourfold is an [int64], the round trips and the
    sleeps of the call are, in the order in which they happen, a beginning
    of: a round trip, a sleep of the base, a round trip, a sleep of twice
    the base, a round trip, a sleep of four times the base, a round trip.
    So the call never sleeps before its first round trip, sleeps once
    between two consecutive round trips, and for seven times the base at
    most in all. *)
Theorem RoundTrip_backoff_schedule (req : client.Request) (w : World) :
  0 <= baseBackoff w -> 4 * baseBackoff w <= int64_max ->
  exists added,
    log (snd (client.RoundTrip req w)) = (log w ++ added)%list
    /\ rhythm added
       = firstn (List.length (rhythm added)) (schedule (baseBackoff w))
    /\ sleeps added
       = firstn (List.length (sleeps added))
           [baseBackoff w; 2 * baseBackoff w; 4 * baseBackoff w]
    /\ (List.length (sleeps added) <= roundTrips added
        <= S (List.length (sleeps added)))%nat
    /\ fold_right Z.add 0 (sleeps added) <= 7 * baseBackoff w.
Proof.
  intros H0 H4.
  unfold client.RoundTrip. unfold bind at 1.
  destruct (RefreshIfExpired_shape w) as (a & L & S0 & R & _ & _ & _ & B & _ & _).
  destruct (auth.RefreshIfExpired w) as [[e|[]] w1]; cbn [fst snd] in *;
    cbv beta iota.
  { exists a. split; [exact L|]. rewrite (rhythm_quiet _ R), S0, R.
    cbn [List.length firstn fold_right map].
    split; [reflexivity|]. split; [reflexivity|]. split; lia. }
  destruct (attempts_sleeps req (Z.to_nat (client.maxRetries + 1)) 0
              (client.Body req) None w1 ltac:(lia)) as (added & L1 & F & C).
  destruct (attempts_rhythm req (Z.to_nat (client.maxRetries + 1)) 0
              (client.Body req) None w1 ltac:(lia)) as (added' & L1' & F0).
  assert (added' = added) by (rewrite L1 in L1'; exact (app_inv_head _ _ _ (eq_sym L1'))).
  subst added'.
  exists (a ++ added)%list.
  split; [rewrite L1, L, app_assoc; reflexivity|].
  rewrite rhythm_app, (rhythm_quiet _ R), sleeps_app, roundTrips_app, S0, R.
  cbn [app Nat.add map].
  assert (E1 : client.backoff 1 (baseBackoff w) = baseBackoff w)
    by (rewrite backoff_small; change (2 ^ (1 - 1)) with 1; lia).
  assert (E2 : client.backoff 2 (baseBackoff w) = 2 * baseBackoff w)
    by (rewrite backoff_small; change (2 ^ (2 - 1)) with 2; lia).
  assert (E3 : client.backoff 3 (baseBackoff w) = 4 * baseBackoff w)
    by (rewrite backoff_small; change (2 ^ (3 - 1)) with 4; lia).
  assert (F' : sleeps added
               = firstn (List.length (sleeps added))
                   [baseBackoff w; 2 * baseBackoff w; 4 * baseBackoff w]).
  { rewrite F at 1. rewrite B. f_equal.
    change (backoffsFrom (Z.to_nat (client.maxRetries + 1)) 0 (baseBackoff w))
      with [client.backoff 1 (baseBackoff w); client.backoff 2 (baseBackoff w);
            client.backoff 3 (baseBackoff w)].
    rewrite E1, E2, E3. reflexivity. }
  split.
  { rewrite F0 at 1. rewrite B. f_equal.
    change (rhythmFrom (Z.to_nat (client.maxRetries + 1)) 0 (baseBackoff w))
      with [None; Some (client.backoff 1 (baseBackoff w));
            None; Some (client.backoff 2 (baseBackoff w));
            None; Some (client.backoff 3 (baseBackoff w)); None].
    rewrite E1, E2, E3. reflexivity. }
  split; [exact F'|]. split; [exact C|].
  rewrite F'.
  destruct (List.length (sleeps added)) as [|[|[|k]]];
    cbn [firstn]; rewrite ?firstn_nil; cbn [fold_right]; lia.
Qed.

(** The answers 500, 429, 200 with the base of half a second: a round
    trip, half a second, a round trip, one second, a round trip. *)
Lemma RoundTrip_backoff_schedule_witness :
  exists added,
    log (snd (client.RoundTrip exGet (exApi [status 500; status 429; status 200])))
    = (log (exApi [status 500; status 429; status 200]) ++ added)%list
    /\ rhythm added
       = [None; Some (500 * Millisecond); None; Some (2 * (500 * Millisecond)); None].
Proof.
  destruct (RoundTrip_backoff_schedule exGet
              (exApi [status 500; status 429; status 200]))
    as (added & L & F & _); [vm_compute; discriminate | vm_compute; discriminate|].
  exists added. split; [exact L|].
  match type of L with
  | log ?w' = _ =>
      assert (E : rhythm (log w')
                  = [None; Some (500 * Millisecond); None;
                     Some (2 * (500 * Millisecond)); None])
        by (vm_compute; reflexivity)
  end.
  rewrite L, rhythm_app in E. exact E.
Defined.

(** ** The retrying transport: network errors *)





(** ** The retrying transport: the body of a retry *)

Lemma payloads_length (l : list Event) :
  List.length (payloads l) = roundTrips l.
Proof.
  unfold roundTrips. induction l as [|e l IH]; [reflexivity|].
  destruct e; simpl; auto.
Qed.

(** X7.  A request built with [GetBody] is sent whole on every attempt: each
    round trip of the call, the first one and every retry, carries the
    payload that [GetBody] returns. *)
Theorem RoundTrip_body_is_replayed (req : client.Request) (w : World)
  (g : unit -> error + string) (p : string) :
  client.GetBody req = Some g -> g tt = inr p -> client.Body req = Some p ->
  exists added,
    log (snd (client.RoundTrip req w)) = (log w ++ added)%list
    /\ payloads added = repeat (Some p) (roundTrips added).
Proof.
  intros Hg Hp Hb.
  destruct (RoundTrip_trace req w) as (added & L & _ & _ & P).
  exists added. split; [exact L|].
  specialize (P g p Hg Hp Hb). rewrite <- payloads_length.
  induction (payloads added) as [|x l IH]; [reflexivity|].
  inversion P; subst. simpl. f_equal. apply IH. assumption.
Qed.

(** An update sent three times carries its payload three times. *)
Lemma RoundTrip_body_is_replayed_witness :
  exists added,
    log (snd (client.RoundTrip (exPut "name=Morning+Run")
                (exApi [status 500; status 429; status 200])))
    = (log (exApi [status 500; status 429; status 200]) ++ added)%list
    /\ payloads added = repeat (Some "name=Morning+Run") (roundTrips added).
Proof.
  apply (RoundTrip_body_is_replayed (exPut "name=Morning+Run")
           (exApi [status 500; status 429; status 200])
           (fun _ => inr "name=Morning+Run") "name=Morning+Run");
    reflexivity.
Defined.

Lemma baseRoundTrip_answer (authorization : string) (body : option string)
  (w : World) (r : Response) (rest : list ApiReply) :
  apiServer w = Answer r :: rest ->
  client.baseRoundTrip authorization body w
  = (inr r, set_apiServer (set_log w (log w ++ [EvRoundTrip authorization body])) rest).
Proof.
  intro Hsrv. unfold client.baseRoundTrip. monad. rewrite Hsrv. reflexivity.
Qed.

Lemma cloneBody_first (req : client.Request) (stream : option string) (w : World) :
  client.cloneBody 0 req stream w = (inr (stream, client.drained stream), w).
Proof. unfold client.cloneBody. destruct (client.GetBody req); reflexivity. Qed.





(** ** The retrying transport: a token that expires during the backoff *)

Lemma cloneBody_retry (attempt : Z) (req : client.Request)
  (stream : option string) (w : World) :
  replayable req ->
  exists bodies gb,
    client.cloneBody attempt req stream w = (inr bodies, set_log w (log w ++ gb))
    /\ roundTrips gb = 0%nat /\ exchanges gb = 0%nat /\ authorizations gb = [].
Proof.
  intro Hrep. unfold client.cloneBody.
  destruct (client.GetBody req) as [g|] eqn:Hg.
  - destruct (Hrep g Hg) as [b Hb].
    destruct (0 <? attempt); monad.
    + rewrite Hb. exists (Some b, stream), [EvGetBody]. repeat split.
    + exists (stream, client.drained stream), []. rewrite app_nil_r.
      destruct w; repeat split.
  - exists (stream, client.drained stream), []. rewrite app_nil_r.
    destruct w; repeat split.
Qed.

(** X9.  A token that expires while the transport waits is refreshed before
    the retry.  The token is fresh when the call begins and due for a
    refresh once the first backoff is over; the server answers with a status
    that calls for a retry and then with one that does not; the token
    endpoint grants a new pair and the save succeeds.  Then the call makes
    two round trips, the first under the old token and the second under the
    new one, with exactly one call of the token endpoint in between; it
    returns the second answer, and the new pair is in memory and in the
    file. *)
Theorem RoundTrip_refreshes_before_retry
  (req : client.Request) (w : World) (r1 r2 : Response) (rest : list ApiReply)
  (tr : tokenResponse) (body : string) (more : list TokenReply) :
  replayable req ->
  freshAt (cfg w) (clock w) ->
  (wrap64 ((clock w + pause 1 (baseBackoff w)) / Second + 30)
   <? Tok.ExpiresAt (Tokens (cfg w))) = false ->
  tokenServer w = Reply 200 tr body :: more ->
  tr_AccessToken tr <> "" ->
  hd None (saveFaults w) = None ->
  apiServer w = Answer r1 :: Answer r2 :: rest ->
  client.retryable (StatusCode r1) = true ->
  client.retryable (StatusCode r2) = false ->
  let res := client.RoundTrip req w in
  let granted := Tok.mk (tr_AccessToken tr) (tr_RefreshToken tr)
                   (tr_ExpiresAt tr) (tr_TokenType tr) in
  fst res = inr (Some r2)
  /\ (exists added,
        log (snd res) = (log w ++ added)%list
        /\ authorizations added
           = ["Bearer " ++ Tok.AccessToken (Tokens (cfg w));
              "Bearer " ++ tr_AccessToken tr]
        /\ exchanges added = 1%nat)
  /\ cfg (snd res) = set_Tokens (cfg w) granted
  /\ disk (snd res) = Stored (set_Tokens (cfg w) granted).
Proof.
  intros Hrep Hfresh Hstale Htok Hgrant Hsave Hsrv Hretry1 Hretry2. cbv zeta.
  assert (Hrun : exists w' added,
    client.RoundTrip req w = (inr (Some r2), w')
    /\ log w' = (log w ++ added)%list
    /\ authorizations added
       = ["Bearer " ++ Tok.AccessToken (Tokens (cfg w));
          "Bearer " ++ tr_AccessToken tr]
    /\ exchanges added = 1%nat
    /\ cfg w' = set_Tokens (cfg w)
                  (Tok.mk (tr_AccessToken tr) (tr_RefreshToken tr)
                     (tr_ExpiresAt tr) (tr_TokenType tr))
    /\ disk w' = Stored (set_Tokens (cfg w)
                           (Tok.mk (tr_AccessToken tr) (tr_RefreshToken tr)
                              (tr_ExpiresAt tr) (tr_TokenType tr)))).
  { unfold client.RoundTrip, bind.
    rewrite (RefreshIfExpired_fresh w Hfresh).
    change (Z.to_nat (client.maxRetries + 1)) with 4%nat.
    rewrite (attempts_S 3 0 req (client.Body req) None w).
    change (client.beforeAttempt 0 w) with (@inr error unit tt, w).
    cbv beta iota.
    rewrite cloneBody_first. cbn [fst snd].
    rewrite (baseRoundTrip_answer _ _ w r1 (Answer r2 :: rest) Hsrv), Hretry1.
    change (0 =? client.maxRetries) with false. cbv iota.
    set (w0 := set_apiServer _ _).
    rewrite attempts_S.
    (* the head of the retry: wait, then refresh *)
    assert (Hbefore : exists w1,
      client.beforeAttempt (0 + 1) w0 = (inr tt, w1)
      /\ log w1
         = (log w0 ++ [EvSleep (client.backoff 1 (baseBackoff w));
                       EvPostForm (auth.refreshForm (cfg w));
                       EvSave (set_Tokens (cfg w)
                                 (Tok.mk (tr_AccessToken tr) (tr_RefreshToken tr)
                                    (tr_ExpiresAt tr) (tr_TokenType tr)))])%list
      /\ cfg w1 = set_Tokens (cfg w)
                    (Tok.mk (tr_AccessToken tr) (tr_RefreshToken tr)
                       (tr_ExpiresAt tr) (tr_TokenType tr))
      /\ disk w1 = Stored (cfg w1)
      /\ apiServer w1 = Answer r2 :: rest).
    { unfold client.beforeAttempt. change (0 <? 0 + 1) with true. cbv iota.
      unfold Sleep. unfold bind at 1. unfold get at 1. unfold bind at 1.
      unfold bind at 1. unfold emit at 1, modify at 1 2.
      cbv beta iota.
      set (ws := set_clock _ _).
      rewrite RefreshIfExpired_unfold.
      assert (Hacc : String.eqb (Tok.AccessToken (Tokens (cfg ws))) "" = false)
        by (apply eqb_empty_false; exact (proj1 Hfresh)).
      rewrite Hacc.
      assert (Hexp : (wrap64 (Unix ws + 30) <? Tok.ExpiresAt (Tokens (cfg ws))) = false).
      { unfold Unix, ws, w0. cbn [clock cfg set_clock set_log set_apiServer baseBackoff].
        unfold pause in Hstale. change (0 <? 1) with true in Hstale.
        change (0 + 1) with 1. exact Hstale. }
      rewrite Hexp.
      unfold auth.postToken, auth.nextTokenReply. monad.
      rewrite Htok. simpl. rewrite (eqb_empty_false _ Hgrant). simpl.
      rewrite Save_no_fault by (simpl; exact Hsave). simpl.
      eexists. split; [reflexivity|]. simpl.
      rewrite <- !app_assoc. repeat split. }
    destruct Hbefore as (w1 & -> & L1 & C1 & D1 & A1).
    destruct (cloneBody_retry (0 + 1) req (client.drained (client.Body req)) w1 Hrep)
      as (bodies & gb & -> & Rg & Xg & Ag).
    rewrite (baseRoundTrip_answer _ _ _ r2 rest)
      by (cbn [apiServer set_log]; exact A1).
    rewrite Hretry2.
    eexists. eexists. split; [reflexivity|].
    cbn [log cfg disk set_log set_apiServer]. rewrite L1.
    unfold w0. cbn [log set_log set_apiServer].
    rewrite <- !app_assoc. split; [reflexivity|].
    rewrite C1. cbn [Tokens set_Tokens Tok.AccessToken].
    split; [|split; [|split; [reflexivity|rewrite D1, C1; reflexivity]]].
    - cbn [app authorizations]. rewrite authorizations_app, Ag. reflexivity.
    - change (?a :: ?b :: ?c :: ?d :: (gb ++ ?l))%list
        with ([a; b; c; d] ++ (gb ++ l))%list.
      rewrite !exchanges_app, Xg. reflexivity. }
  destruct Hrun as (w' & added & -> & L & A & X & C & D).
  split; [reflexivity|]. split; [exists added; auto|]. auto.
Qed.

(** A token due for a refresh half a second into the call. *)
Lemma RoundTrip_refreshes_before_retry_witness :
  let res := client.RoundTrip exGet exExpiring in
  fst res = inr (Some (mkResponse 200 ""))
  /\ (exists added,
        log (snd res) = (log exExpiring ++ added)%list
        /\ authorizations added = ["Bearer old-access"; "Bearer new-access"]
        /\ exchanges added = 1%nat)
  /\ cfg (snd res) = set_Tokens (cfg exExpiring) exNewTokens
  /\ disk (snd res) = Stored (set_Tokens (cfg exExpiring) exNewTokens).
Proof.
  apply (RoundTrip_refreshes_before_retry exGet exExpiring
           (mkResponse 503 "") (mkResponse 200 "") [] exGrant "{}" []).
  - intros g Hg. discriminate Hg.
  - split; [discriminate|vm_compute; reflexivity].
  - vm_compute. reflexivity.
  - reflexivity.
  - discriminate.
  - reflexivity.
  - reflexivity.
  - reflexivity.
  - reflexivity.
Defined.

(** ** Step 2 on a pending login that has expired *)

(** X10.  A pending login older than its ten minutes is consumed by the first
    attempt to complete it.  The command answers "auth URL expired" without
    looking at the pasted URL and without calling the token endpoint; unless
    the save fails, the file afterwards holds the same configuration without
    the pending login (the tokens in it are kept), so that a second attempt
    is answered "no pending login found". *)
Theorem step2_expired_pending_is_cleared
  (w : World) (c : Config) (pending : Pend.PendingAuth)
  (authPasteURL : string) (otherFlows : M unit) :
  authPasteURL <> "" ->
  disk w = Stored c ->
  PendingAuth c = Some pending ->
  Pend.ExpiresAt pending < Unix w ->
  let res := cmd.runAuthLogin authPasteURL otherFlows w in
  fst res = inl cmd.errExpired
  /\ exchanges (log (snd res)) = exchanges (log w)
  /\ cfg (snd res) = set_PendingAuth c None
  /\ (hd None (saveFaults w) = None ->
      disk (snd res) = Stored (set_PendingAuth c None)
      /\ forall again others,
           again <> "" ->
           fst (cmd.runAuthLogin again others (snd res)) = inl cmd.errNoPending).
Proof.
  intros Hu Hd Hp Hexp. cbv zeta.
  rewrite (runAuthLogin_stored w c authPasteURL otherFlows Hu Hd).
  unfold cmd.completeRemoteLogin, cmd.ignoreErr. monad. rewrite Hp.
  apply Z.ltb_lt in Hexp. unfold Unix in *. simpl. rewrite Hexp. simpl.
  set (w1 := set_cfg (set_cfg w c) (set_PendingAuth c None)).
  pose proof (Save_effects (set_PendingAuth c None) w1) as (Hlog & Hcfg & _).
  cbv zeta in Hlog, Hcfg.
  split; [reflexivity|]. split; [|split].
  - destruct Hlog as [-> | ->]; [reflexivity|].
    rewrite exchanges_app. unfold exchanges at 2. simpl. unfold w1. simpl. lia.
  - rewrite Hcfg. reflexivity.
  - intro Hsave. rewrite Save_no_fault by exact Hsave. simpl.
    split; [reflexivity|]. intros again others Hagain.
    erewrite runAuthLogin_stored; [|exact Hagain|reflexivity].
    reflexivity.
Qed.

(** The pending login of the example, read eleven minutes after it was
    due: "auth URL expired", then "no pending login found". *)
Lemma step2_expired_pending_is_cleared_witness :
  let w := set_clock (exWorld "3f9a") (1700001260 * Second) in
  let res := cmd.runAuthLogin "http://localhost:8089/callback?code=abc&state=3f9a"
               exOtherFlows w in
  fst res = inl cmd.errExpired
  /\ exchanges (log (snd res)) = exchanges (log w)
  /\ disk (snd res) = Stored (set_PendingAuth (exConfig "3f9a") None)
  /\ fst (cmd.runAuthLogin "http://localhost:8089/callback?code=abc&state=3f9a"
            exOtherFlows (snd res)) = inl cmd.errNoPending.
Proof.
  cbv zeta.
  destruct (step2_expired_pending_is_cleared
              (set_clock (exWorld "3f9a") (1700001260 * Second))
              (exConfig "3f9a") (exPending "3f9a")
              "http://localhost:8089/callback?code=abc&state=3f9a" exOtherFlows)
    as (H1 & H2 & _ & H4).
  - discriminate.
  - reflexivity.
  - reflexivity.
  - vm_compute. reflexivity.
  - destruct (H4 eq_refl) as (H5 & H6).
    split; [exact H1|]. split; [exact H2|]. split; [exact H5|].
    apply H6. discriminate.
Defined.

(** ** The upload poller: time, count and cancellation *)

(** What [select] does to the clock: it waits at most to the next tick,
    which is at most one poll interval away. *)
Lemma select_clock (env : uploads.Env) (st st1 : uploads.State)
  (sel : uploads.Selected) :
  uploads.tickBuffered st = false ->
  uploads.nextTick st <= uploads.now st + uploads.pollInterval ->
  uploads.select env st = (sel, st1) ->
  uploads.now st <= uploads.now st1 <= uploads.now st + uploads.pollInterval
  /\ uploads.nextTick st1 <= uploads.now st1 + uploads.pollInterval
  /\ uploads.fetched st1 = uploads.fetched st
  /\ uploads.out st1 = uploads.out st
  /\ (sel = uploads.CtxDone ->
      exists c, uploads.cancelAt env = Some c /\ c <= uploads.now st1).
Proof.
  intros Hb Hx. unfold uploads.select, uploads.advance.
  destruct (uploads.nextTick st <=? uploads.now st) eqn:Hle; state_red.
  - apply Z.leb_le in Hle.
    assert (HP : 0 < uploads.pollInterval) by reflexivity.
    pose proof (Z.mul_div_le (uploads.now st - uploads.nextTick st)
                  uploads.pollInterval HP) as Hq1.
    pose proof (Z.mul_succ_div_gt (uploads.now st - uploads.nextTick st)
                  uploads.pollInterval HP) as Hq2.
    set (q := (uploads.now st - uploads.nextTick st) / uploads.pollInterval) in *.
    destruct (uploads.cancelAt env) as [c|].
    + destruct (c <=? uploads.now st) eqn:Hc; cbn [andb].
      * apply Z.leb_le in Hc.
        destruct (uploads.tie env (uploads.fetched st)); intro H;
          apply pair_equal_spec in H as [<- <-]; state_red;
          (split; [lia|]); (split; [lia|]); (split; [reflexivity|]);
          (split; [reflexivity|]); [|discriminate].
        intros _. exists c. split; [reflexivity|lia].
      * intro H. apply pair_equal_spec in H as [<- <-]. state_red.
        split; [lia|]. split; [lia|]. repeat split. discriminate.
    + cbn [andb]. intro H. apply pair_equal_spec in H as [<- <-]. state_red.
      split; [lia|]. split; [lia|]. repeat split. discriminate.
  - apply Z.leb_gt in Hle. rewrite Hb.
    destruct (uploads.cancelAt env) as [c|].
    + destruct (c <=? uploads.now st) eqn:Hc.
      * apply Z.leb_le in Hc. intro H. apply pair_equal_spec in H as [<- <-].
        unfold uploads.pollInterval, Second, Millisecond in *.
        repeat split; try lia. intros _. exists c. split; [reflexivity|lia].
      * apply Z.leb_gt in Hc.
        destruct (c <? uploads.nextTick st) eqn:Hn.
        { apply Z.ltb_lt in Hn. intro H. apply pair_equal_spec in H as [<- <-].
          state_red. unfold uploads.pollInterval, Second, Millisecond in *.
          repeat split; try lia. intros _. exists c. split; [reflexivity|lia]. }
        apply Z.ltb_ge in Hn.
        destruct (c =? uploads.nextTick st) eqn:He; cbn [andb].
        { apply Z.eqb_eq in He.
          destruct (uploads.tie env (uploads.fetched st)); intro H;
            apply pair_equal_spec in H as [<- <-]; state_red;
            unfold uploads.pollInterval, Second, Millisecond in *;
            (repeat split; try lia); try discriminate.
          intros _. exists c. split; [reflexivity|lia]. }
        intro H. apply pair_equal_spec in H as [<- <-]. state_red.
        unfold uploads.pollInterval, Second, Millisecond in *.
        repeat split; try lia; discriminate.
    + intro H. apply pair_equal_spec in H as [<- <-]. state_red.
      unfold uploads.pollInterval, Second, Millisecond in *.
      repeat split; try lia; discriminate.
Qed.

(** What a tick does to the state, whatever the fetch returns. *)
Lemma onTick_clock (env : uploads.Env) (id deadline : Z) (st : uploads.State) :
  let after (st' : uploads.State) :=
    uploads.now st'
    = uploads.now st + uploads.took (uploads.fetches env (uploads.fetched st))
    /\ uploads.fetched st' = S (uploads.fetched st)
    /\ uploads.nextTick st' = uploads.nextTick st
    /\ uploads.tickBuffered st' = uploads.tickBuffered st in
  match uploads.onTick env id deadline st with
  | inl (r, st') => after st' /\ forall e, r <> uploads.Cancelled e
  | inr st' => after st' /\ uploads.now st' <= deadline
  end.
Proof.
  cbv zeta. unfold uploads.onTick.
  destruct (uploads.result _) as [err|u raw];
    [state_red; repeat split; discriminate|].
  destruct (uploads.Error u) as [e|].
  { destruct (uploads.jsonOutput env); unfold uploads.write; state_red;
      repeat split; discriminate. }
  destruct (uploads.ActivityID u) as [a|].
  { destruct (uploads.jsonOutput env); unfold uploads.write; state_red;
      repeat split; discriminate. }
  state_red.
  destruct (deadline <? _) eqn:Hd.
  - state_red. repeat split; discriminate.
  - unfold uploads.write. state_red. apply Z.ltb_ge in Hd. repeat split. exact Hd.
Qed.

(** The invariant of the loop under the clock: the n-th fetch starts no
    earlier than n poll intervals after the start, and the loop goes round
    again only while the deadline has not passed. *)
Lemma loop_bounds (env : uploads.Env) (start id : Z) :
  (forall k, 0 <= uploads.took (uploads.fetches env k)) ->
  forall (fuel : nat) (st : uploads.State) (r : uploads.Return)
         (st' : uploads.State),
  uploads.tickBuffered st = false ->
  uploads.now st <= start + uploads.timeout ->
  start + uploads.pollInterval * Z.of_nat (uploads.fetched st) <= uploads.now st ->
  start + uploads.pollInterval * (Z.of_nat (uploads.fetched st) + 1)
    <= uploads.nextTick st ->
  uploads.nextTick st <= uploads.now st + uploads.pollInterval ->
  uploads.loop fuel env id (start + uploads.timeout) st = Some (r, st') ->
  start + uploads.pollInterval * Z.of_nat (uploads.fetched st') <= uploads.now st'
  /\ (uploads.fetched st' <= 101)%nat
  /\ uploads.now st'
     <= start + uploads.timeout + uploads.pollInterval
        + match uploads.fetched st' with
          | O => 0
          | S k => uploads.took (uploads.fetches env k)
          end.
Proof.
  intros Htook.
  induction fuel as [|fuel IH]; intros st r st' Hb Hdl Hnow Hnext Hnear Hrun;
    [discriminate Hrun|].
  simpl in Hrun.
  destruct (uploads.select env st) as [sel st1] eqn:Hsel.
  destruct (select_clock env st st1 sel Hb Hnear Hsel)
    as (Hn1 & Hx1 & Hf1 & _ & _).
  assert (Hcount : (uploads.fetched st <= 100)%nat).
  { unfold uploads.timeout, uploads.pollInterval, Minute, Second, Millisecond in *.
    lia. }
  destruct sel.
  - inversion Hrun; subst st'. rewrite Hf1.
    split; [lia|]. split; [lia|].
    destruct (uploads.fetched st) as [|k]; [lia|].
    pose proof (Htook k). lia.
  - destruct (select_tick_progress env st st1 _ Hb Hnext Hsel)
      as (Hb1 & _ & Hbase & Hx2).
    pose proof (onTick_clock env id (start + uploads.timeout) st1) as Hc.
    cbv zeta in Hc.
    pose proof (Htook (uploads.fetched st1)) as Ht.
    destruct (uploads.onTick env id (start + uploads.timeout) st1)
      as [[r0 st2]|st2].
    + destruct Hc as ((Hn2 & Hf2 & _ & _) & _).
      inversion Hrun; subst r0 st2. rewrite Hf2, Hf1 in *.
      split; [rewrite Nat2Z.inj_succ; lia|]. split; [lia|].
      rewrite Hn2. lia.
    + destruct Hc as ((Hn2 & Hf2 & Hx3 & Hb2) & Hd2).
      apply (IH st2 r st'); try assumption; try congruence.
      * rewrite Hf2, Hf1, Nat2Z.inj_succ. lia.
      * rewrite Hf2, Hf1, Nat2Z.inj_succ, Hx3.
        unfold uploads.pollInterval, Second, Millisecond in *. lia.
      * rewrite Hx3. lia.
Qed.

(** X18.  The poller keeps its pace and its deadline.  When no fetch takes a
    negative time, a run that has made n fetches has lasted at least n poll
    intervals (so it never asks the server more often than once per three
    seconds on average, 101 times at most), and it returns no later than one
    poll interval and the duration of its last fetch after the deadline of
    five minutes. *)
Theorem pollUpload_pace_and_deadline
  (fuel : nat) (env : uploads.Env) (start id : Z)
  (r : uploads.Return) (st' : uploads.State) :
  (forall k, 0 <= uploads.took (uploads.fetches env k)) ->
  uploads.pollUpload fuel env start id = Some (r, st') ->
  start + uploads.pollInterval * Z.of_nat (uploads.fetched st') <= uploads.now st'
  /\ (uploads.fetched st' <= 101)%nat
  /\ uploads.now st'
     <= start + uploads.timeout + uploads.pollInterval
        + match uploads.fetched st' with
          | O => 0
          | S k => uploads.took (uploads.fetches env k)
          end.
Proof.
  intros Htook Hrun. unfold uploads.pollUpload in Hrun.
  eapply loop_bounds; try exact Hrun; try exact Htook; state_red;
    try reflexivity;
    unfold uploads.timeout, uploads.pollInterval, Minute, Second, Millisecond; lia.
Qed.

(** The run of the example with fetches of one second: three fetches,
    over by the tenth second. *)
Lemma pollUpload_pace_and_deadline_witness :
  exists st',
    uploads.pollUpload 3 (exPoll Second) 0 7 = Some (uploads.Done, st')
    /\ 0 + uploads.pollInterval * Z.of_nat (uploads.fetched st') <= uploads.now st'
    /\ (uploads.fetched st' <= 101)%nat
    /\ uploads.now st'
       <= 0 + uploads.timeout + uploads.pollInterval
          + match uploads.fetched st' with
            | O => 0
            | S k => uploads.took (uploads.fetches (exPoll Second) k)
            end.
Proof.
  eexists. split; [vm_compute; reflexivity|].
  apply (pollUpload_pace_and_deadline 3 (exPoll Second) 0 7 uploads.Done).
  - intro k. destruct k as [|[|k]]; vm_compute; discriminate.
  - vm_compute. reflexivity.
Defined.

(** More turns than needed change nothing. *)
Lemma loop_fuel_mono (env : uploads.Env) (id deadline : Z) (fuel : nat) :
  forall (st : uploads.State) (res : uploads.Return * uploads.State) (more : nat),
  uploads.loop fuel env id deadline st = Some res ->
  uploads.loop (fuel + more) env id deadline st = Some res.
Proof.
  induction fuel as [|fuel IH]; intros st res more Hrun; [discriminate Hrun|].
  simpl in *.
  destruct (uploads.select env st) as [[|] st1]; [exact Hrun|].
  destruct (uploads.onTick env id deadline st1) as [r|st2]; [exact Hrun|].
  apply IH. exact Hrun.
Qed.

(** X17.  The poller does not hang.  When no fetch takes a negative time, the
    loop returns within 101 turns, whatever the server answers and whenever
    the context is cancelled: the n-th tick is received at least n poll
    intervals after the start, and the deadline is 100 poll intervals away.
    The bound of 101 is only the measure of the proof: any larger bound gives
    the same result. *)
Theorem pollUpload_never_hangs (env : uploads.Env) (start id : Z) :
  (forall k, 0 <= uploads.took (uploads.fetches env k)) ->
  exists r st',
    forall fuel, (101 <= fuel)%nat ->
      uploads.pollUpload fuel env start id = Some (r, st').
Proof.
  intro Htook.
  destruct (pollUpload_terminates env start id Htook) as (r & st' & Hrun).
  exists r, st'. intros fuel Hfuel.
  replace fuel with (101 + (fuel - 101))%nat by lia.
  unfold uploads.pollUpload in *. apply loop_fuel_mono. exact Hrun.
Qed.

(** The run of the example: the result of 101 turns is that of 1000. *)
Lemma pollUpload_never_hangs_witness :
  exists r st',
    forall fuel, (101 <= fuel)%nat ->
      uploads.pollUpload fuel (exPoll Second) 0 7 = Some (r, st').
Proof.
  apply (pollUpload_never_hangs (exPoll Second) 0 7).
  intro k. destruct k as [|[|k]]; vm_compute; discriminate.
Defined.

(** [select] takes the branch of the context only once the context is
    cancelled. *)
Lemma select_CtxDone (env : uploads.Env) (st st1 : uploads.State) :
  uploads.select env st = (uploads.CtxDone, st1) ->
  exists c, uploads.cancelAt env = Some c /\ c <= uploads.now st1.
Proof.
  unfold uploads.select, uploads.advance.
  destruct (uploads.cancelAt env) as [c|].
  - destruct (uploads.nextTick st <=? uploads.now st); state_red.
    + destruct (c <=? uploads.now st) eqn:Hc; cbn [andb].
      * destruct (uploads.tie env (uploads.fetched st)); intro H;
          [|discriminate H].
        apply pair_equal_spec in H as [_ <-]. state_red.
        exists c. split; [reflexivity|apply Z.leb_le; exact Hc].
      * discriminate.
    + destruct (uploads.tickBuffered st).
      * destruct (c <=? uploads.now st) eqn:Hc; cbn [andb].
        -- destruct (uploads.tie env (uploads.fetched st)); intro H;
             [|discriminate H].
           apply pair_equal_spec in H as [_ <-].
           exists c. split; [reflexivity|apply Z.leb_le; exact Hc].
        -- discriminate.
      * destruct (c <=? uploads.now st) eqn:Hc.
        -- intro H. apply pair_equal_spec in H as [_ <-].
           exists c. split; [reflexivity|apply Z.leb_le; exact Hc].
        -- destruct (c <? uploads.nextTick st).
           ++ intro H. apply pair_equal_spec in H as [_ <-]. state_red.
              exists c. split; [reflexivity|lia].
           ++ destruct ((c =? uploads.nextTick st)
                        && uploads.tie env (uploads.fetched st)); intro H;
                [|discriminate H].
              apply pair_equal_spec in H as [_ <-]. state_red.
              exists c. split; [reflexivity|lia].
  - destruct (uploads.nextTick st <=? uploads.now st); state_red.
    + cbn [andb]. discriminate.
    + destruct (uploads.tickBuffered st); cbn [andb]; discriminate.
Qed.

Lemma loop_cancelled (env : uploads.Env) (id deadline : Z) (fuel : nat) :
  forall (st st' : uploads.State) (e : error),
  uploads.loop fuel env id deadline st = Some (uploads.Cancelled e, st') ->
  e = uploads.cancelErr env
  /\ exists c, uploads.cancelAt env = Some c /\ c <= uploads.now st'.
Proof.
  induction fuel as [|fuel IH]; intros st st' e Hrun; [discriminate Hrun|].
  simpl in Hrun.
  destruct (uploads.select env st) as [[|] st1] eqn:Hsel.
  - inversion Hrun; subst. split; [reflexivity|].
    exact (select_CtxDone env st st' Hsel).
  - pose proof (onTick_clock env id deadline st1) as Hc. cbv zeta in Hc.
    destruct (uploads.onTick env id deadline st1) as [[r0 st2]|st2].
    + destruct Hc as (_ & Hne). inversion Hrun; subst.
      exfalso. exact (Hne e eq_refl).
    + exact (IH st2 st' e Hrun).
Qed.

(** X19.  Cancellation.  The poller returns the error of the command's context
    only once the context is cancelled, and never makes one up: without a
    cancellation no run ends that way.  A cancellation that comes before the
    first tick ends the run at once (at the instant of the cancellation, or
    at the start if it came earlier), before any fetch and with nothing
    written but the line that announces the polling. *)
Theorem pollUpload_cancellation (env : uploads.Env) (start id : Z) :
  (forall fuel e st',
     uploads.pollUpload fuel env start id = Some (uploads.Cancelled e, st') ->
     e = uploads.cancelErr env
     /\ exists c, uploads.cancelAt env = Some c /\ c <= uploads.now st')
  /\ (forall c fuel,
        uploads.cancelAt env = Some c ->
        c < start + uploads.pollInterval ->
        exists st',
          uploads.pollUpload (S fuel) env start id
          = Some (uploads.Cancelled (uploads.cancelErr env), st')
          /\ uploads.now st' = Z.max start c
          /\ uploads.fetched st' = 0%nat
          /\ List.length (uploads.out st') = 1%nat).
Proof.
  split.
  - intros fuel e st' Hrun. unfold uploads.pollUpload in Hrun.
    exact (loop_cancelled env id _ fuel _ st' e Hrun).
  - intros c fuel Hc Hlt. unfold uploads.pollUpload. cbn [uploads.loop].
    unfold uploads.select, uploads.advance. state_red.
    assert ((start + uploads.pollInterval <=? start) = false) as ->
      by (apply Z.leb_gt; unfold uploads.pollInterval, Second, Millisecond; lia).
    state_red. rewrite Hc.
    destruct (c <=? start) eqn:Hle.
    + apply Z.leb_le in Hle. eexists. split; [reflexivity|]. state_red.
      repeat split. lia.
    + apply Z.leb_gt in Hle. apply Z.ltb_lt in Hlt. rewrite Hlt.
      eexists. split; [reflexivity|]. state_red. repeat split. lia.
Qed.

(** Cancelled one second after the start, the poller returns then. *)
Lemma pollUpload_cancellation_witness :
  exists st',
    uploads.pollUpload 1 (exCancelled (1 * Second)) 0 7
    = Some (uploads.Cancelled (External "context canceled"), st')
    /\ uploads.now st' = Z.max 0 (1 * Second)
    /\ uploads.fetched st' = 0%nat
    /\ List.length (uploads.out st') = 1%nat.
Proof.
  apply (proj2 (pollUpload_cancellation (exCancelled (1 * Second)) 0 7)
           (1 * Second) 0%nat eq_refl).
  vm_compute. reflexivity.
Defined.

(** ** The upload poller: the fetch that ends the run *)

Lemma loop_stops_at_first (env : uploads.Env) (id deadline : Z) (fuel : nat) :
  forall (st : uploads.State) (r : uploads.Return) (st' : uploads.State),
  pendingBefore env (uploads.fetched st) ->
  uploads.loop fuel env id deadline st = Some (r, st') ->
  pendingBefore env (Nat.pred (uploads.fetched st'))
  /\ (forall e, r = uploads.FetchFailed e ->
        exists k, uploads.fetched st' = S k
                  /\ uploads.result (uploads.fetches env k) = uploads.FetchErr e)
  /\ (forall k e, uploads.fetched st' = S k ->
        uploads.result (uploads.fetches env k) = uploads.FetchErr e ->
        r = uploads.FetchFailed e).
Proof.
  induction fuel as [|fuel IH]; intros st r st' Hinv Hrun; [discriminate Hrun|].
  simpl in Hrun.
  pose proof (select_fetched env st) as Hsel.
  destruct (uploads.select env st) as [[|] st1]; simpl in Hsel.
  - inversion Hrun; subst r st'. rewrite Hsel. split; [|split].
    + intros i Hi. apply Hinv. lia.
    + intros e He. discriminate He.
    + intros k e Hk Hres. exfalso.
      destruct (Hinv k ltac:(lia)) as (u & raw & Hres' & _). congruence.
  - pose proof (onTick_cases env id deadline st1) as Hc.
    rewrite Hsel in Hc.
    assert (Hlast : forall st2 : uploads.State,
              uploads.fetched st2 = S (uploads.fetched st) ->
              pendingBefore env (Nat.pred (uploads.fetched st2))).
    { intros st2 ->. exact Hinv. }
    destruct (uploads.result (uploads.fetches env (uploads.fetched st)))
      as [err|u raw] eqn:Hres.
    + destruct Hc as (st2 & Ht & Hf). rewrite Ht in Hrun.
      inversion Hrun; subst r st'. split; [exact (Hlast st2 Hf)|]. split.
      * intros e He. inversion He; subst e. exists (uploads.fetched st). auto.
      * intros k e Hk Hres'. rewrite Hf in Hk. inversion Hk; subst k. congruence.
    + assert (Hnot : forall (r0 : uploads.Return) (st2 : uploads.State),
                (forall e, r0 <> uploads.FetchFailed e) ->
                uploads.fetched st2 = S (uploads.fetched st) ->
                pendingBefore env (Nat.pred (uploads.fetched st2))
                /\ (forall e, r0 = uploads.FetchFailed e ->
                      exists k, uploads.fetched st2 = S k
                                /\ uploads.result (uploads.fetches env k)
                                   = uploads.FetchErr e)
                /\ (forall k e, uploads.fetched st2 = S k ->
                      uploads.result (uploads.fetches env k) = uploads.FetchErr e ->
                      r0 = uploads.FetchFailed e)).
      { intros r0 st2 Hr0 Hf. split; [exact (Hlast st2 Hf)|]. split.
        - intros e He. exfalso. exact (Hr0 e He).
        - intros k e Hk Hres'. rewrite Hf in Hk. inversion Hk; subst k. congruence. }
      destruct (uploads.Error u) as [e|] eqn:He.
      { destruct Hc as (st2 & Ht & Hf & _). rewrite Ht in Hrun.
        inversion Hrun; subst r st'. apply Hnot; [discriminate|exact Hf]. }
      destruct (uploads.ActivityID u) as [a|] eqn:Ha.
      { destruct Hc as (st2 & Ht & Hf & _). rewrite Ht in Hrun.
        inversion Hrun; subst r st'. apply Hnot; [discriminate|exact Hf]. }
      destruct Hc as (st2 & Hf & _ & _ & _ & Hd).
      destruct (deadline <? uploads.now st2).
      * rewrite Hd in Hrun. inversion Hrun; subst r st'.
        apply Hnot; [discriminate|exact Hf].
      * rewrite Hd in Hrun. apply (IH st2 r st'); [|exact Hrun].
        intros i Hi. rewrite Hf in Hi.
        destruct (Nat.eq_dec i (uploads.fetched st)) as [->|Hne].
        -- exists u, raw. repeat split; assumption.
        -- apply Hinv. lia.
Qed.

(** X20.  The poller stops at the first fetch that does not find the upload
    pending.  In every run, each fetch but the last found the upload still
    pending; and a fetch that fails ends the run at once with its own error,
    unchanged: the run returns the error of a fetch exactly when its last
    fetch returned that error. *)
Theorem pollUpload_stops_at_first
  (fuel : nat) (env : uploads.Env) (start id : Z)
  (r : uploads.Return) (st' : uploads.State) :
  uploads.pollUpload fuel env start id = Some (r, st') ->
  pendingBefore env (Nat.pred (uploads.fetched st'))
  /\ (forall e, r = uploads.FetchFailed e <->
        exists k, uploads.fetched st' = S k
                  /\ uploads.result (uploads.fetches env k) = uploads.FetchErr e).
Proof.
  intro Hrun. unfold uploads.pollUpload in Hrun.
  apply loop_stops_at_first in Hrun as (H1 & H2 & H3);
    [|intros i Hi; simpl in Hi; lia].
  split; [exact H1|]. intro e. split; [apply H2|].
  intros (k & Hk & Hres). exact (H3 k e Hk Hres).
Qed.

(** The second fetch fails: the run ends there, with that error. *)
Lemma pollUpload_stops_at_first_witness :
  let e := Errorf "fetch upload: %w" [ArgW (External "timeout")] in
  exists st',
    uploads.pollUpload 2 exFailing 0 7 = Some (uploads.FetchFailed e, st')
    /\ pendingBefore exFailing (Nat.pred (uploads.fetched st'))
    /\ (forall e', uploads.FetchFailed e = uploads.FetchFailed e' <->
          exists k, uploads.fetched st' = S k
                    /\ uploads.result (uploads.fetches exFailing k)
                       = uploads.FetchErr e').
Proof.
  cbv zeta. eexists. split; [vm_compute; reflexivity|].
  apply (pollUpload_stops_at_first 2 exFailing 0 7).
  vm_compute. reflexivity.
Defined.

(** ** Strings: appending, cutting, and texts of plain bytes *)

Lemma string_app_assoc (a b c : string) :
  ((a ++ b) ++ c = a ++ (b ++ c))%string.
Proof. induction a as [|x a IH]; simpl; [reflexivity|]. now rewrite IH. Qed.

Lemma length_append (a b : string) :
  String.length (a ++ b) = (String.length a + String.length b)%nat.
Proof. induction a as [|x a IH]; simpl; [reflexivity|]. now rewrite IH. Qed.

Lemma ContainsByte_app (a b : string) (c : ascii) :
  strings.ContainsByte (a ++ b) c
  = strings.ContainsByte a c || strings.ContainsByte b c.
Proof.
  induction a as [|x a IH]; simpl; [reflexivity|].
  rewrite IH. now rewrite orb_assoc.
Qed.

Lemma allBytes_app (p : ascii -> bool) (a b : string) :
  allBytes p (a ++ b) = allBytes p a && allBytes p b.
Proof.
  induction a as [|x a IH]; simpl; [reflexivity|].
  rewrite IH. now rewrite andb_assoc.
Qed.

Lemma allBytes_impl (p q : ascii -> bool) (s : string) :
  (forall c, p c = true -> q c = true) ->
  allBytes p s = true -> allBytes q s = true.
Proof.
  intro H. induction s as [|x s IH]; simpl; [reflexivity|].
  intro Hs. apply andb_true_iff in Hs as [H1 H2].
  rewrite (H x H1), (IH H2). reflexivity.
Qed.

(** A byte that does not satisfy [p] does not occur in a text of bytes that
    do. *)
Lemma allBytes_absent (p : ascii -> bool) (s : string) (c : ascii) :
  p c = false -> allBytes p s = true -> strings.ContainsByte s c = false.
Proof.
  intro Hc. induction s as [|x s IH]; simpl; [reflexivity|].
  intro Hs. apply andb_true_iff in Hs as [H1 H2]. rewrite (IH H2), orb_false_r.
  destruct (Ascii.eqb_spec x c) as [->|]; [congruence|reflexivity].
Qed.

Lemma plainByte_noCTL (c : ascii) :
  plainByte c = true -> (byte_val c <? 32) || (byte_val c =? 127) = false.
Proof.
  unfold plainByte. cbv zeta. intro H.
  repeat (apply andb_true_iff in H as [H ?]).
  apply Z.leb_le in H. apply Z.leb_le in H3.
  apply orb_false_iff. split; [apply Z.ltb_ge|apply Z.eqb_neq]; lia.
Qed.

Lemma allPlain_noCTL (s : string) :
  allPlain s = true -> url.stringContainsCTLByte s = false.
Proof.
  unfold allPlain. induction s as [|x s IH]; simpl; [reflexivity|].
  intro Hs. apply andb_true_iff in Hs as [H1 H2].
  rewrite (IH H2), orb_false_r. apply plainByte_noCTL. exact H1.
Qed.

Lemma Cut_absent (s : string) (sep : ascii) :
  strings.ContainsByte s sep = false -> strings.Cut s sep = (s, "", false).
Proof.
  induction s as [|x s IH]; simpl; [reflexivity|].
  intro H. apply orb_false_iff in H as [H1 H2]. rewrite H1, (IH H2). reflexivity.
Qed.

Lemma Cut_first (a b : string) (sep : ascii) :
  strings.ContainsByte a sep = false ->
  strings.Cut (a ++ String sep b) sep = (a, b, true).
Proof.
  induction a as [|x a IH]; simpl.
  - intros _. rewrite Ascii.eqb_refl. reflexivity.
  - intro H. apply orb_false_iff in H as [H1 H2]. rewrite H1, (IH H2). reflexivity.
Qed.

Lemma CutLast_absent (s : string) (sep : ascii) :
  strings.ContainsByte s sep = false -> strings.CutLast s sep = None.
Proof.
  induction s as [|x s IH]; simpl; [reflexivity|].
  intro H. apply orb_false_iff in H as [H1 H2]. rewrite (IH H2), H1. reflexivity.
Qed.

Lemma CutLast_last (a b : string) (sep : ascii) :
  strings.ContainsByte b sep = false ->
  strings.CutLast (a ++ String sep b) sep = Some (a, b).
Proof.
  intro H. induction a as [|x a IH]; simpl.
  - rewrite (CutLast_absent b sep H), Ascii.eqb_refl. reflexivity.
  - rewrite IH. reflexivity.
Qed.

Lemma Contains_byte (a b : string) (c : ascii) :
  strings.Contains (a ++ String c b) (String c "") = true.
Proof.
  induction a as [|x a IH]; simpl.
  - rewrite Ascii.eqb_refl. destruct b; reflexivity.
  - rewrite IH. apply orb_true_r.
Qed.

Lemma RemoveByte_absent (s : string) (c : ascii) :
  strings.ContainsByte s c = false -> strings.RemoveByte s c = s.
Proof.
  induction s as [|x s IH]; simpl; [reflexivity|].
  intro H. apply orb_false_iff in H as [H1 H2]. rewrite H1, (IH H2). reflexivity.
Qed.

(** ** Strings: [TrimSpace] on a text of plain bytes *)

Lemma rev_snoc (t : string) (c : ascii) :
  strings.rev (t ++ String c "") = String c (strings.rev t).
Proof.
  induction t as [|x t IH]; simpl; [reflexivity|]. rewrite IH. reflexivity.
Qed.

Lemma rev_involutive (s : string) : strings.rev (strings.rev s) = s.
Proof.
  induction s as [|x s IH]; simpl; [reflexivity|]. rewrite rev_snoc, IH. reflexivity.
Qed.

(** No white-space rune begins or ends with a plain byte. *)
Lemma stripOne_plain (c : ascii) (s : string) :
  plainByte c = true ->
  strings.stripOne strings.spaceRunes (String c s) = None
  /\ strings.stripOne (map (@List.rev Z) strings.spaceRunes) (String c s) = None.
Proof.
  intro H.
  destruct c as [[] [] [] [] [] [] [] []];
    vm_compute in H; try discriminate H; split; vm_compute; reflexivity.
Qed.

Lemma TrimSpace_plain (s : string) :
  allPlain s = true -> strings.TrimSpace s = s.
Proof.
  unfold strings.TrimSpace, strings.TrimLeft, strings.TrimRight, allPlain.
  intro H.
  assert (Hl : strings.trimLeading (String.length s) strings.spaceRunes s = s).
  { destruct s as [|c s]; [reflexivity|]. simpl in H.
    apply andb_true_iff in H as [H1 _].
    cbn [String.length strings.trimLeading].
    rewrite (proj1 (stripOne_plain c s H1)). reflexivity. }
  rewrite Hl.
  assert (Hr : forall r, strings.rev s = r ->
            strings.trimLeading (String.length s)
              (map (@List.rev Z) strings.spaceRunes) r = r).
  { destruct s as [|c s]; [intros r <-; reflexivity|].
    intros r Hr. cbn [String.length strings.trimLeading].
    assert (Hlast : exists d r', r = String d r' /\ plainByte d = true).
    { subst r. clear Hl. revert c H.
      induction s as [|x s IH]; intros c H; simpl in H.
      - exists c, "". split; [reflexivity|].
        apply andb_true_iff in H as [H _]. exact H.
      - apply andb_true_iff in H as [_ H].
        destruct (IH x H) as (d & r' & E & Hd).
        exists d, (r' ++ String c ""). split; [|exact Hd].
        change (strings.rev (String c (String x s)))
          with (strings.rev (String x s) ++ String c "").
        rewrite E. reflexivity. }
    destruct Hlast as (d & r' & -> & Hd).
    rewrite (proj2 (stripOne_plain d r' Hd)). reflexivity. }
  rewrite (Hr _ eq_refl). apply rev_involutive.
Qed.

(** ** [net/url]: escaping and unescaping *)

(** [QueryEscape], byte by byte. *)
Lemma QueryEscape_cons (c : ascii) (s : string) :
  urlenc.QueryEscape (String c s)
  = urlenc.QueryEscape (String c "") ++ urlenc.QueryEscape s.
Proof.
  simpl. destruct (urlenc.shouldEscape c); [|reflexivity].
  destruct (Ascii.eqb c " "); reflexivity.
Qed.

Lemma QueryEscape_byte (c : ascii) :
  allBytes escapedByte (urlenc.QueryEscape (String c "")) = true
  /\ forall r, url.unescape url.encodeQueryComponent
                 (urlenc.QueryEscape (String c "") ++ r)
               = match url.unescape url.encodeQueryComponent r with
                 | Some r' => Some (String c r')
                 | None => None
                 end.
Proof.
  destruct c as [[] [] [] [] [] [] [] []];
    (split; [vm_compute; reflexivity | intro r; reflexivity]).
Qed.

(** [QueryEscape] writes letters, digits and "-_.~%+" only. *)
Lemma QueryEscape_escaped (s : string) :
  allBytes escapedByte (urlenc.QueryEscape s) = true.
Proof.
  induction s as [|c s IH]; [reflexivity|].
  rewrite QueryEscape_cons, allBytes_app, IH, (proj1 (QueryEscape_byte c)).
  reflexivity.
Qed.

(** [QueryUnescape] undoes [QueryEscape], for every text. *)
Lemma QueryUnescape_QueryEscape (s : string) :
  url.QueryUnescape (urlenc.QueryEscape s) = Some s.
Proof.
  unfold url.QueryUnescape. induction s as [|c s IH]; [reflexivity|].
  rewrite QueryEscape_cons, (proj2 (QueryEscape_byte c)), IH. reflexivity.
Qed.

Lemma escapedByte_plain (c : ascii) : escapedByte c = true -> plainByte c = true.
Proof.
  destruct c as [[] [] [] [] [] [] [] []]; vm_compute; congruence.
Qed.

Lemma QueryEscape_plain (s : string) : allPlain (urlenc.QueryEscape s) = true.
Proof.
  unfold allPlain. apply (allBytes_impl escapedByte); [apply escapedByte_plain|].
  apply QueryEscape_escaped.
Qed.

Lemma QueryEscape_absent (s : string) (c : ascii) :
  escapedByte c = false ->
  strings.ContainsByte (urlenc.QueryEscape s) c = false.
Proof.
  intro H. apply (allBytes_absent escapedByte); [exact H|].
  apply QueryEscape_escaped.
Qed.

(** ** [net/url]: the query of a URL *)

Lemma Cut_after_length (s : string) (sep : ascii) :
  (String.length (snd (fst (strings.Cut s sep))) <= Nat.pred (String.length s))%nat.
Proof.
  induction s as [|x s IH]; simpl; [lia|].
  destruct (Ascii.eqb x sep); simpl; [lia|].
  destruct (strings.Cut s sep) as [[b a] f]; simpl in *. lia.
Qed.

(** The bound on the steps of the loop of [parseQuery] does not matter once it
    exceeds the length of the query. *)
Lemma parseQuery_fuel (fuel1 : nat) :
  forall (fuel2 : nat) (q : string),
  (String.length q < fuel1)%nat -> (String.length q < fuel2)%nat ->
  url.parseQuery_loop fuel1 q = url.parseQuery_loop fuel2 q.
Proof.
  induction fuel1 as [|fuel1 IH]; intros fuel2 q H1 H2; [lia|].
  destruct fuel2 as [|fuel2]; [lia|]. simpl.
  destruct (String.eqb q "") eqn:Hq; [reflexivity|].
  pose proof (Cut_after_length q "&") as Hlen.
  destruct (strings.Cut q "&") as [[key q'] f]; simpl in Hlen.
  assert (Hq' : (String.length q' < String.length q)%nat).
  { destruct q; [discriminate Hq|]. simpl in *. lia. }
  rewrite (IH fuel2 q') by lia.
  reflexivity.
Qed.

Lemma parseQuery_S (fuel : nat) (query : string) :
  url.parseQuery_loop (S fuel) query
  = if String.eqb query "" then []
    else
      let '(key, query', _) := strings.Cut query "&"%char in
      if strings.ContainsByte key ";"%char then url.parseQuery_loop fuel query'
      else if String.eqb key "" then url.parseQuery_loop fuel query'
      else
        let '(k, v, _) := strings.Cut key "="%char in
        match url.QueryUnescape k with
        | None => url.parseQuery_loop fuel query'
        | Some k1 =>
            match url.QueryUnescape v with
            | None => url.parseQuery_loop fuel query'
            | Some v1 => (k1, v1) :: url.parseQuery_loop fuel query'
            end
        end.
Proof. reflexivity. Qed.

(** One "key=value" part of a query, followed by others or not. *)
Lemma parseQuery_part (k ve q' k1 v1 : string) :
  strings.ContainsByte k "&" = false -> strings.ContainsByte ve "&" = false ->
  strings.ContainsByte k ";" = false -> strings.ContainsByte ve ";" = false ->
  strings.ContainsByte k "=" = false ->
  url.QueryUnescape k = Some k1 -> url.QueryUnescape ve = Some v1 ->
  url.parseQuery_loop (S (String.length (k ++ "=" ++ ve ++ "&" ++ q')))
    (k ++ "=" ++ ve ++ "&" ++ q')
  = (k1, v1) :: url.parseQuery_loop (S (String.length q')) q'.
Proof.
  intros A1 A2 S1 S2 E1 U1 U2.
  rewrite (parseQuery_S (String.length (k ++ "=" ++ ve ++ "&" ++ q'))).
  assert (Hne : String.eqb (k ++ "=" ++ ve ++ "&" ++ q') "" = false)
    by (destruct k; reflexivity).
  rewrite Hne.
  replace (k ++ "=" ++ ve ++ "&" ++ q') with ((k ++ String "=" ve) ++ String "&" q')
    by (rewrite !string_app_assoc; reflexivity).
  rewrite Cut_first
    by (rewrite !ContainsByte_app; cbn [strings.ContainsByte];
        rewrite A1, A2; reflexivity).
  assert (Hsemi : strings.ContainsByte (k ++ String "=" ve) ";" = false)
    by (rewrite !ContainsByte_app; cbn [strings.ContainsByte];
        rewrite S1, S2; reflexivity).
  assert (Hk : String.eqb (k ++ String "=" ve) "" = false) by (destruct k; reflexivity).
  rewrite Hsemi, Hk, (Cut_first k ve "=" E1), U1, U2.
  f_equal. apply parseQuery_fuel; rewrite ?length_append; simpl; lia.
Qed.

Lemma parseQuery_last (k ve k1 v1 : string) :
  strings.ContainsByte k "&" = false -> strings.ContainsByte ve "&" = false ->
  strings.ContainsByte k ";" = false -> strings.ContainsByte ve ";" = false ->
  strings.ContainsByte k "=" = false ->
  url.QueryUnescape k = Some k1 -> url.QueryUnescape ve = Some v1 ->
  url.parseQuery_loop (S (String.length (k ++ "=" ++ ve))) (k ++ "=" ++ ve)
  = [(k1, v1)].
Proof.
  intros A1 A2 S1 S2 E1 U1 U2.
  rewrite (parseQuery_S (String.length (k ++ "=" ++ ve))).
  change (k ++ "=" ++ ve) with (k ++ String "=" ve).
  assert (Hk : String.eqb (k ++ String "=" ve) "" = false) by (destruct k; reflexivity).
  assert (Hamp : strings.ContainsByte (k ++ String "=" ve) "&" = false)
    by (rewrite !ContainsByte_app; cbn [strings.ContainsByte];
        rewrite A1, A2; reflexivity).
  assert (Hsemi : strings.ContainsByte (k ++ String "=" ve) ";" = false)
    by (rewrite !ContainsByte_app; cbn [strings.ContainsByte];
        rewrite S1, S2; reflexivity).
  rewrite Hk, (Cut_absent _ _ Hamp), Hsemi, Hk, (Cut_first k ve "=" E1), U1, U2.
  f_equal. destruct (String.length (k ++ String "=" ve)); reflexivity.
Qed.

(** ** [net/url]: a URL and the same URL with a query *)

Lemma getScheme_from_query (q : string) (rest : string) :
  forall (i : nat) (acc whole : string),
  url.getScheme_from i acc (rest ++ String "?" q) (whole ++ String "?" q)
  = match url.getScheme_from i acc rest whole with
    | Some (s, r) => Some (s, r ++ String "?" q)
    | None => None
    end.
Proof.
  induction rest as [|c rest IH]; intros i acc whole; [reflexivity|].
  cbn [append url.getScheme_from].
  destruct (url.isAlpha c); [apply IH|].
  destruct (url.isDigit c || url.isOneOf c "+-.").
  { destruct i; [reflexivity|apply IH]. }
  destruct (Ascii.eqb c ":"); [destruct i; reflexivity|reflexivity].
Qed.

Lemma getScheme_from_plain (rest : string) :
  forall (i : nat) (acc whole s r : string),
  allPlain rest = true -> allPlain whole = true ->
  url.getScheme_from i acc rest whole = Some (s, r) ->
  allPlain r = true.
Proof.
  unfold allPlain.
  induction rest as [|c rest IH]; intros i acc whole s r Hr Hw;
    cbn [url.getScheme_from].
  - intro H. inversion H; subst. exact Hw.
  - cbn [allBytes] in Hr. apply andb_true_iff in Hr as [_ Hr].
    destruct (url.isAlpha c); [apply (IH _ _ _ _ _ Hr Hw)|].
    destruct (url.isDigit c || url.isOneOf c "+-.").
    { destruct i; [intro H; inversion H; subst; exact Hw|
                   apply (IH _ _ _ _ _ Hr Hw)]. }
    destruct (Ascii.eqb c ":").
    + destruct i; [discriminate|]. intro H. inversion H; subst. exact Hr.
    + intro H. inversion H; subst. exact Hw.
Qed.

(** The part of [parse] after the scheme, as a function of the rest and of
    the query. *)
Lemma parse_rest_query (scheme r q : string) :
  (if negb (strings.HasPrefix r "/") && negb (String.eqb scheme "") then
     Some (url.mkURL scheme r None "" "" q false "")
   else if negb (strings.HasPrefix r "/")
           && strings.ContainsByte (fst (fst (strings.Cut r "/"%char))) ":"%char
   then None
   else if (negb (String.eqb scheme "") || negb (strings.HasPrefix r "///"))
           && strings.HasPrefix r "//"
   then
     let after := match r with
                  | String _ (String _ a) => a
                  | _ => EmptyString
                  end in
     let '(authority, tail, slash) := strings.Cut after "/"%char in
     let rest' := if slash then String "/"%char tail else EmptyString in
     match url.parseAuthority authority with
     | None => None
     | Some (user, host) =>
         match url.unescape url.encodePath rest' with
         | None => None
         | Some path => Some (url.mkURL scheme "" user host path q false "")
         end
     end
   else
     match url.unescape url.encodePath r with
     | None => None
     | Some path => Some (url.mkURL scheme "" None "" path q false "")
     end)
  = match
      (if negb (strings.HasPrefix r "/") && negb (String.eqb scheme "") then
         Some (url.mkURL scheme r None "" "" "" false "")
       else if negb (strings.HasPrefix r "/")
               && strings.ContainsByte (fst (fst (strings.Cut r "/"%char))) ":"%char
       then None
       else if (negb (String.eqb scheme "") || negb (strings.HasPrefix r "///"))
               && strings.HasPrefix r "//"
       then
         let after := match r with
                      | String _ (String _ a) => a
                      | _ => EmptyString
                      end in
         let '(authority, tail, slash) := strings.Cut after "/"%char in
         let rest' := if slash then String "/"%char tail else EmptyString in
         match url.parseAuthority authority with
         | None => None
         | Some (user, host) =>
             match url.unescape url.encodePath rest' with
             | None => None
             | Some path => Some (url.mkURL scheme "" user host path "" false "")
             end
         end
       else
         match url.unescape url.encodePath r with
         | None => None
         | Some path => Some (url.mkURL scheme "" None "" path "" false "")
         end)
    with
    | Some u => Some (withQuery u q)
    | None => None
    end.
Proof.
  destruct (negb (strings.HasPrefix r "/") && negb (String.eqb scheme ""));
    [reflexivity|].
  destruct (negb (strings.HasPrefix r "/") && _); [reflexivity|].
  destruct ((negb (String.eqb scheme "") || negb (strings.HasPrefix r "///"))
            && strings.HasPrefix r "//").
  - cbv zeta.
    destruct (strings.Cut _ "/") as [[authority tail] slash].
    destruct (url.parseAuthority authority) as [[user host]|]; [|reflexivity].
    destruct (url.unescape url.encodePath _); reflexivity.
  - destruct (url.unescape url.encodePath r); reflexivity.
Qed.

(** A query added to a URL of plain bytes changes the query of what
    [Parse] returns, and nothing else. *)
Lemma Parse_add_query (base q : string) :
  allPlain base = true -> allPlain q = true -> q <> "" ->
  url.Parse (base ++ String "?" q)
  = match url.Parse base with
    | Some u => Some (withQuery u q)
    | None => None
    end.
Proof.
  intros Hb Hq Hne.
  assert (Hhash : forall s, allPlain s = true -> strings.ContainsByte s "#" = false)
    by (intros s Hs; apply (allBytes_absent plainByte); [reflexivity|exact Hs]).
  assert (Hqm : forall s, allPlain s = true -> strings.ContainsByte s "?" = false)
    by (intros s Hs; apply (allBytes_absent plainByte); [reflexivity|exact Hs]).
  unfold url.Parse.
  rewrite (Cut_absent base "#" (Hhash _ Hb)).
  rewrite Cut_absent
    by (rewrite ContainsByte_app; simpl; rewrite (Hhash _ Hb), (Hhash _ Hq);
        reflexivity).
  cbn [String.eqb].
  assert (Hgen : forall r,
            allPlain r = true ->
            (let '(rest, rawQuery, forceQuery) :=
               if strings.HasSuffixByte (r ++ String "?" q) "?"%char
                  && Nat.eqb (strings.CountByte (r ++ String "?" q) "?"%char) 1
               then (fst (fst (strings.Cut (r ++ String "?" q) "?"%char)),
                     EmptyString, true)
               else let '(r0, q0, _) := strings.Cut (r ++ String "?" q) "?"%char in
                    (r0, q0, false) in
             (rest, rawQuery, forceQuery)) = (r, q, false)
            /\ (let '(rest, rawQuery, forceQuery) :=
                  if strings.HasSuffixByte r "?"%char
                     && Nat.eqb (strings.CountByte r "?"%char) 1
                  then (fst (fst (strings.Cut r "?"%char)), EmptyString, true)
                  else let '(r0, q0, _) := strings.Cut r "?"%char in
                       (r0, q0, false) in
                (rest, rawQuery, forceQuery)) = (r, "", false)).
  { intros r Hr. split.
    - unfold strings.HasSuffixByte.
      rewrite (CutLast_last r q "?" (Hqm _ Hq)).
      destruct q as [|x q]; [congruence|]. cbn [andb].
      rewrite (Cut_first r (String x q) "?" (Hqm _ Hr)). reflexivity.
    - unfold strings.HasSuffixByte.
      rewrite (CutLast_absent r "?" (Hqm _ Hr)). cbn [andb].
      rewrite (Cut_absent r "?" (Hqm _ Hr)). reflexivity. }
  assert (Hstar : String.eqb (base ++ String "?" q) "*" = false).
  { destruct base as [|c base]; [reflexivity|]. simpl.
    destruct (Ascii.eqb c "*"); [|reflexivity].
    destruct base; reflexivity. }
  unfold url.parse.
  rewrite (allPlain_noCTL base Hb).
  assert (Hctl : url.stringContainsCTLByte (base ++ String "?" q) = false).
  { clear - Hb Hq. pose proof (allPlain_noCTL q Hq) as Hcq.
    pose proof (allPlain_noCTL base Hb) as Hcb.
    induction base as [|c base IH]; cbn [append url.stringContainsCTLByte].
    - rewrite Hcq. reflexivity.
    - cbn [url.stringContainsCTLByte] in Hcb.
      apply orb_false_iff in Hcb as [Hc Hcb].
      unfold allPlain in Hb. cbn [allBytes] in Hb.
      apply andb_true_iff in Hb as [_ Hb].
      rewrite Hc, (IH Hb Hcb). reflexivity. }
  rewrite Hctl.
  rewrite Hstar.
  unfold url.getScheme. rewrite getScheme_from_query.
  destruct (String.eqb base "*") eqn:Hbs.
  { apply String.eqb_eq in Hbs. subst base.
    change (url.getScheme_from 0 "" "*" "*") with (Some ("", "*")).
    cbv beta iota zeta.
    destruct (Hgen "*" eq_refl) as [H1 _].
    set (P1 := if strings.HasSuffixByte ("*" ++ String "?" q) "?" && _
               then _ else _) in *.
    destruct P1 as [[rest1 rq1] fq1]. inversion H1; subst.
    rewrite parse_rest_query. reflexivity. }
  pose proof (fun s r => getScheme_from_plain base 0 "" base s r Hb Hb) as Hplain.
  destruct (url.getScheme_from 0 "" base base) as [[scheme0 r]|]; [|reflexivity].
  specialize (Hplain scheme0 r eq_refl).
  destruct (Hgen r Hplain) as [H1 H2].
  cbv zeta.
  set (P1 := if strings.HasSuffixByte (r ++ String "?" q) "?" && _ then _ else _) in *.
  set (P2 := if strings.HasSuffixByte r "?" && _ then _ else _) in *.
  destruct P1 as [[rest1 rq1] fq1]. destruct P2 as [[rest2 rq2] fq2].
  inversion H1; subst. inversion H2; subst.
  rewrite parse_rest_query.
  destruct (if negb (strings.HasPrefix r "/") && _ then _ else _); reflexivity.
Qed.

(** ** [net/url]: parsing what was encoded *)

Lemma encodePairs_cons (p : string * string) (l : list (string * string)) :
  urlenc.encodePairs (p :: l)
  = match l with
    | [] => urlenc.QueryEscape (fst p) ++ "=" ++ urlenc.QueryEscape (snd p)
    | _ :: _ => urlenc.QueryEscape (fst p) ++ "=" ++ urlenc.QueryEscape (snd p)
                ++ "&" ++ urlenc.encodePairs l
    end.
Proof.
  unfold urlenc.encodePairs. destruct l as [|q l]; [reflexivity|].
  cbn [map String.concat]. rewrite !string_app_assoc. reflexivity.
Qed.

Lemma encodePairs_plain (l : list (string * string)) :
  allPlain (urlenc.encodePairs l) = true.
Proof.
  induction l as [|p l IH]; [reflexivity|].
  rewrite encodePairs_cons. unfold allPlain in *.
  pose proof (QueryEscape_plain (fst p)) as H1.
  pose proof (QueryEscape_plain (snd p)) as H2. unfold allPlain in H1, H2.
  destruct l as [|q l]; rewrite !allBytes_app, H1, H2, ?IH; reflexivity.
Qed.

Lemma encodePairs_nonempty (l : list (string * string)) :
  l <> [] -> urlenc.encodePairs l <> "".
Proof.
  destruct l as [|p l]; [congruence|]. intros _. rewrite encodePairs_cons.
  destruct l; destruct (urlenc.QueryEscape (fst p)); discriminate.
Qed.

(** [ParseQuery] undoes the encoding of any list of parameters. *)
Lemma parseQuery_encodePairs (l : list (string * string)) :
  url.parseQuery_loop (S (String.length (urlenc.encodePairs l))) (urlenc.encodePairs l) = l.
Proof.
  induction l as [|[k v] l IH]; [reflexivity|].
  rewrite encodePairs_cons. cbn [fst snd].
  destruct l as [|q l].
  - apply parseQuery_last;
      try (apply QueryEscape_absent; reflexivity);
      apply QueryUnescape_QueryEscape.
  - rewrite parseQuery_part with (k1 := k) (v1 := v);
      try (apply QueryEscape_absent; reflexivity);
      try apply QueryUnescape_QueryEscape.
    rewrite IH. reflexivity.
Qed.

Lemma CountByte_app (a b : string) (c : ascii) :
  strings.CountByte (a ++ b) c
  = (strings.CountByte a c + strings.CountByte b c)%nat.
Proof.
  induction a as [|x a IH]; simpl; [reflexivity|]. rewrite IH. lia.
Qed.

Lemma CountByte_absent (s : string) (c : ascii) :
  strings.ContainsByte s c = false -> strings.CountByte s c = 0%nat.
Proof.
  induction s as [|x s IH]; simpl; [reflexivity|].
  intro H. apply orb_false_iff in H as [H1 H2]. rewrite H1, (IH H2). reflexivity.
Qed.

(** The encoding of a list of parameters holds one "&" between two
    parameters and no other. *)
Lemma encodePairs_count (l : list (string * string)) :
  strings.CountByte (urlenc.encodePairs l) "&" = Nat.pred (List.length l).
Proof.
  induction l as [|p l IH]; [reflexivity|].
  rewrite encodePairs_cons.
  assert (H0 : forall t, strings.CountByte (urlenc.QueryEscape t) "&" = 0%nat)
    by (intro t; apply CountByte_absent, QueryEscape_absent; reflexivity).
  destruct l as [|q l].
  - rewrite !CountByte_app, !H0. reflexivity.
  - rewrite !CountByte_app, !H0, IH. reflexivity.
Qed.

(** [Query] gives back any list of parameters that was encoded, up to the
    number of parameters that [ParseQuery] accepts. *)
Lemma Query_encodePairs (l : list (string * string)) :
  Z.of_nat (List.length l) <= url.defaultMaxParams ->
  url.parseQuery (urlenc.encodePairs l) = l.
Proof.
  intro Hlen. unfold url.parseQuery, url.urlParamsWithinMax.
  rewrite encodePairs_count.
  assert ((Z.of_nat (Nat.pred (List.length l)) + 1 <=? url.defaultMaxParams) = true)
    as -> by (apply Z.leb_le; unfold url.defaultMaxParams in *; lia).
  apply parseQuery_encodePairs.
Qed.

(** A URL with encoded parameters, parsed. *)
Lemma Parse_redirectedTo (base : string) (params : list (string * string))
  (u : url.URL) :
  allPlain base = true -> url.Parse base = Some u -> params <> [] ->
  Z.of_nat (List.length params) <= url.defaultMaxParams ->
  auth.looksLikeURL (redirectedTo base params) = true
  /\ exists u', url.Parse (redirectedTo base params) = Some u'
                /\ url.Query u' = params
                /\ url.Scheme u' = url.Scheme u /\ url.Host u' = url.Host u
                /\ url.Path u' = url.Path u.
Proof.
  intros Hplain Hparse Hne Hlen.
  change (redirectedTo base params) with (base ++ String "?" (urlenc.encodePairs params)).
  split.
  - unfold auth.looksLikeURL. rewrite Contains_byte. reflexivity.
  - rewrite (Parse_add_query base _ Hplain (encodePairs_plain params)
               (encodePairs_nonempty params Hne)), Hparse.
    eexists. split; [reflexivity|].
    unfold url.Query, withQuery. cbn [url.RawQuery url.Scheme url.Host url.Path].
    rewrite (Query_encodePairs params Hlen). repeat split.
Qed.

(** ** Step 2 reads what the redirect carries *)

(** X14.  Step 2 reads back what the redirect carries.  Let the redirect URI
    be a URL of plain bytes that parses and whose host is a name or an IPv4
    address, with a port or without; and let the pasted text be, once
    trimmed and rid of backslashes, that URI followed by "?" and up to
    10000 parameters, escaped and joined by "&".  Then the extraction
    returns the values of the first parameters called "code" and "state"
    (the empty text for one that is absent), whatever bytes they consist of
    and in whatever order the parameters come. *)
Theorem extractCodeAndState_reads_redirect
  (redirectURI pasted : string) (params : list (string * string)) (u : url.URL) :
  allPlain redirectURI = true ->
  url.Parse redirectURI = Some u ->
  plainHost (url.Host u) = true ->
  params <> [] ->
  Z.of_nat (List.length params) <= url.defaultMaxParams ->
  strings.RemoveByte (strings.TrimSpace pasted) "\"%char
  = redirectedTo redirectURI params ->
  auth.extractCodeAndState pasted
  = (url.Get params "code", url.Get params "state").
Proof.
  intros Hplain Hparse _ Hne Hlen Hpasted.
  unfold auth.extractCodeAndState. cbv zeta. rewrite Hpasted.
  destruct (Parse_redirectedTo redirectURI params u Hplain Hparse Hne Hlen)
    as (Hlooks & u' & Hp & Hq & _).
  rewrite Hlooks, Hp, Hq. reflexivity.
Qed.

(** A URL with the parameters in the order in which Strava sends them,
    pasted from a shell that escaped "?" and "&", with a space in front. *)
Lemma extractCodeAndState_reads_redirect_witness :
  auth.extractCodeAndState
    (" http://localhost:8089/callback\?state=00ff\&code=a+b%2Fc\&scope=read"
     ++ String (byte_of 10) "")
  = ("a b/c", "00ff").
Proof.
  apply (extractCodeAndState_reads_redirect "http://localhost:8089/callback" _
           [("state", "00ff"); ("code", "a b/c"); ("scope", "read")]
           (url.mkURL "http" "" None "localhost:8089" "/callback" "" false ""));
    [reflexivity | reflexivity | reflexivity | discriminate
    | vm_compute; discriminate | reflexivity].
Defined.

(** ** The authorization URL *)

(** X16.  The authorization URL carries its parameters intact.  Whatever bytes
    the client id, the redirect URI and the state consist of, the URL that
    [RemoteAuthURL] builds parses as a URL of Strava's authorization page
    whose query gives back exactly these three values, next to the fixed
    response type, approval prompt and scopes; the same holds, without the
    state, of the URL that [buildAuthURL] builds. *)
Theorem authURL_round_trip (clientID redirectURI state : string) :
  (exists u,
     url.Parse (oauth.RemoteAuthURL clientID redirectURI state) = Some u
     /\ url.Scheme u = "https" /\ url.Host u = "www.strava.com"
     /\ url.Path u = "/oauth/authorize"
     /\ url.Query u
        = [("approval_prompt", "auto"); ("client_id", clientID);
           ("redirect_uri", redirectURI); ("response_type", "code");
           ("scope", "activity:read_all,activity:write"); ("state", state)])
  /\ (exists u,
        url.Parse (oauth.buildAuthURL clientID redirectURI) = Some u
        /\ url.Scheme u = "https" /\ url.Host u = "www.strava.com"
        /\ url.Path u = "/oauth/authorize"
        /\ url.Query u
           = [("approval_prompt", "auto"); ("client_id", clientID);
              ("redirect_uri", redirectURI); ("response_type", "code");
              ("scope", "activity:read_all,activity:write")]).
Proof.
  assert (Hbase : allPlain oauth.authURL = true) by reflexivity.
  assert (Hparse : url.Parse oauth.authURL
                   = Some (url.mkURL "https" "" None "www.strava.com"
                             "/oauth/authorize" "" false "")) by reflexivity.
  split.
  - destruct (Parse_redirectedTo oauth.authURL
                [("approval_prompt", "auto"); ("client_id", clientID);
                 ("redirect_uri", redirectURI); ("response_type", "code");
                 ("scope", "activity:read_all,activity:write"); ("state", state)]
                _ Hbase Hparse ltac:(discriminate) ltac:(vm_compute; discriminate))
      as (_ & u' & Hp & Hq & Hs & Hh & Hpath).
    exists u'. repeat split; assumption.
  - destruct (Parse_redirectedTo oauth.authURL
                [("approval_prompt", "auto"); ("client_id", clientID);
                 ("redirect_uri", redirectURI); ("response_type", "code");
                 ("scope", "activity:read_all,activity:write")]
                _ Hbase Hparse ltac:(discriminate) ltac:(vm_compute; discriminate))
      as (_ & u' & Hp & Hq & Hs & Hh & Hpath).
    exists u'. repeat split; assumption.
Qed.

(** ** The manual flow reads the redirect too *)

(** X15.  The manual-paste login on the URL the browser was sent to.  Let the
    redirect URI be a URL of plain bytes that parses and whose host is a
    name or an IPv4 address, with a port or without; and let the line
    typed, once trimmed, be that URI followed by "?" and up to 10000
    parameters, escaped and joined by "&", the first "code" among them not
    empty.  Then the login exchanges exactly the value of that parameter,
    whatever bytes it consists of. *)
Theorem loginManual_reads_redirect
  (clientID clientSecret redirectURI line : string)
  (params : list (string * string)) (u : url.URL) (w : World) :
  allPlain redirectURI = true ->
  url.Parse redirectURI = Some u ->
  plainHost (url.Host u) = true ->
  Z.of_nat (List.length params) <= url.defaultMaxParams ->
  strings.TrimSpace line = redirectedTo redirectURI params ->
  url.Get params "code" <> "" ->
  auth.loginManual clientID clientSecret redirectURI line w
  = auth.exchangeCode clientID clientSecret (url.Get params "code") redirectURI w.
Proof.
  intros Hplain Hparse _ Hlen Hline Hcode.
  assert (Hne : params <> []) by (intros ->; apply Hcode; reflexivity).
  unfold auth.loginManual. cbv zeta. rewrite Hline.
  assert (Hx : auth.extractCode (redirectedTo redirectURI params)
               = url.Get params "code").
  { unfold auth.extractCode.
    destruct (Parse_redirectedTo redirectURI params u Hplain Hparse Hne Hlen)
      as (Hlooks & u' & Hp & Hq & _).
    rewrite Hlooks, Hp, Hq, (eqb_empty_false _ Hcode). reflexivity. }
  rewrite Hx, (eqb_empty_false _ Hcode). reflexivity.
Qed.

(** The code "4/ab c" pasted with its URL and a newline. *)
Lemma loginManual_reads_redirect_witness :
  auth.loginManual "cid" "csecret" "https://example.com/callback"
    ("https://example.com/callback?state=&code=4%2Fab+c" ++ String (byte_of 10) "")
    (exLoaded "")
  = auth.exchangeCode "cid" "csecret" "4/ab c" "https://example.com/callback"
      (exLoaded "").
Proof.
  apply (loginManual_reads_redirect "cid" "csecret" "https://example.com/callback"
           _ [("state", ""); ("code", "4/ab c")]
           (url.mkURL "https" "" None "example.com" "/callback" "" false ""));
    [reflexivity | reflexivity | reflexivity | vm_compute; discriminate
    | reflexivity | discriminate].
Defined.

(** ** Step 1: the state *)

Lemma hex_byte (c : ascii) :
  lowerHexByte (hex.hextable (byte_val c / 16)) = true
  /\ lowerHexByte (hex.hextable (byte_val c mod 16)) = true
  /\ byte_of (url.unhex (hex.hextable (byte_val c / 16)) * 16
              + url.unhex (hex.hextable (byte_val c mod 16))) = c.
Proof.
  destruct c as [[] [] [] [] [] [] [] []]; vm_compute; repeat split.
Qed.

Lemma hex_length (b : string) :
  String.length (hex.EncodeToString b) = (2 * String.length b)%nat.
Proof. induction b as [|c b IH]; simpl; [reflexivity|]. rewrite IH. lia. Qed.

Lemma hex_lower (b : string) :
  allBytes lowerHexByte (hex.EncodeToString b) = true.
Proof.
  induction b as [|c b IH]; [reflexivity|].
  cbn [hex.EncodeToString allBytes].
  destruct (hex_byte c) as (H1 & H2 & _). rewrite H1, H2, IH. reflexivity.
Qed.

(** Different bytes give different texts. *)
Lemma hex_injective (b1 : string) :
  forall b2, hex.EncodeToString b1 = hex.EncodeToString b2 -> b1 = b2.
Proof.
  induction b1 as [|c1 b1 IH]; intros [|c2 b2]; cbn [hex.EncodeToString];
    intro H; try discriminate H; [reflexivity|].
  inversion H as [[H1 H2 H3]].
  rewrite <- (proj2 (proj2 (hex_byte c1))), <- (proj2 (proj2 (hex_byte c2))).
  rewrite H1, H2, (IH b2 H3). reflexivity.
Qed.

Lemma Unix_ten_minutes (w : World) :
  (clock w + 10 * Minute) / Second = Unix w + 600.
Proof.
  unfold Unix, Minute.
  replace (clock w + 10 * (60 * Second)) with (clock w + 600 * Second) by lia.
  apply Z.div_add. discriminate.
Qed.

(** What step 1 leaves behind when its save succeeds. *)
Lemma startRemoteLogin_effects (b : string) (w : World) :
  hd None (saveFaults w) = None ->
  let res := step1.startRemoteLogin (inr b) w in
  let redirectURI :=
    if String.eqb (RedirectURI (cfg w)) "" then step1.defaultRedirectURI
    else RedirectURI (cfg w) in
  let c1 := set_PendingAuth (cfg w)
              (Some (Pend.mk (hex.EncodeToString b) redirectURI (Unix w + 600))) in
  fst res = inr tt
  /\ cfg (snd res) = c1
  /\ disk (snd res) = Stored c1
  /\ exists prints,
       log (snd res) = (log w ++ EvSave c1 :: prints)%list
       /\ exchanges prints = 0%nat
       /\ In (EvPrintln ("  " ++ oauth.RemoteAuthURL (ClientID (cfg w)) redirectURI
                                   (hex.EncodeToString b))) prints.
Proof.
  intro Hsave. cbv zeta.
  unfold step1.startRemoteLogin. cbn [oauth.GenerateState].
  monad. rewrite Unix_ten_minutes.
  rewrite Save_no_fault by exact Hsave. monad.
  split; [reflexivity|]. split; [reflexivity|]. split; [reflexivity|].
  eexists. rewrite <- !app_assoc. split; [reflexivity|].
  split; [reflexivity|]. simpl. tauto.
Qed.

(** X11.  Step 1 of the remote login.  From sixteen random bytes it makes a
    state of 32 lower-case hexadecimal digits that determines the bytes;
    unless the save fails, it leaves in memory and in the file the
    configuration it found with a pending login made of that state, the
    redirect URI (the default one when none is configured) and an expiry
    600 seconds after the clock's second; it prints the authorization URL
    for that state and does not call the token endpoint. *)
Theorem startRemoteLogin_persists_state (b : string) (w : World) :
  String.length b = 16%nat ->
  hd None (saveFaults w) = None ->
  let res := step1.startRemoteLogin (inr b) w in
  let state := hex.EncodeToString b in
  let redirectURI :=
    if String.eqb (RedirectURI (cfg w)) "" then step1.defaultRedirectURI
    else RedirectURI (cfg w) in
  fst res = inr tt
  /\ String.length state = 32%nat
  /\ allBytes lowerHexByte state = true
  /\ (forall b', hex.EncodeToString b' = state -> b' = b)
  /\ cfg (snd res)
     = set_PendingAuth (cfg w)
         (Some (Pend.mk state redirectURI (Unix w + 600)))
  /\ disk (snd res) = Stored (cfg (snd res))
  /\ exchanges (log (snd res)) = exchanges (log w)
  /\ In (EvPrintln ("  " ++ oauth.RemoteAuthURL (ClientID (cfg w)) redirectURI state))
        (log (snd res)).
Proof.
  intros Hlen Hsave. cbv zeta.
  destruct (startRemoteLogin_effects b w Hsave)
    as (H1 & H2 & H3 & prints & H4 & H5 & H6).
  cbv zeta in *.
  split; [exact H1|].
  split; [rewrite hex_length, Hlen; reflexivity|].
  split; [apply hex_lower|].
  split; [intros b' H; symmetry; apply hex_injective; symmetry; exact H|].
  split; [exact H2|]. split; [rewrite H3, H2; reflexivity|]. split.
  - rewrite H4, exchanges_app.
    change (EvSave ?c :: prints) with ([EvSave c] ++ prints)%list.
    rewrite exchanges_app, H5. unfold exchanges. simpl. lia.
  - rewrite H4. apply in_or_app. right. right. exact H6.
Qed.

(** The bytes 0 to 15 give the state 000102...0f, due at 1700000600. *)
Lemma startRemoteLogin_persists_state_witness :
  let res := step1.startRemoteLogin (inr exRandom) exStep1 in
  fst res = inr tt
  /\ cfg (snd res)
     = set_PendingAuth (cfg exStep1)
         (Some (Pend.mk "000102030405060708090a0b0c0d0e0f"
                  "http://localhost:8089/callback" 1700000600))
  /\ disk (snd res) = Stored (cfg (snd res)).
Proof.
  cbv zeta.
  destruct (startRemoteLogin_persists_state exRandom exStep1 eq_refl eq_refl)
    as (H1 & _ & _ & _ & H2 & H3 & _).
  split; [exact H1|]. split; [|exact H3].
  rewrite H2. reflexivity.
Defined.

(** ** The remote login, from step 1 to step 2 *)

(** X13.  The two steps of the remote login fit together.  Step 1 runs on
    sixteen random bytes and saves.  Later, a process that finds the file
    step 1 wrote, no more than 600 seconds after step 1 by the clocks'
    seconds, is given a pasted text from which the extraction reads a
    non-empty code and the state of step 1; the token endpoint grants a
    pair and the save succeeds.  Then step 2 succeeds: it makes one
    exchange, of that code under the redirect URI of step 1, and the
    file afterwards holds the configuration of step 1 with the granted
    pair and without the pending login. *)
Theorem remote_login_two_steps
  (b : string) (w w2 : World) (pasted code : string)
  (tr : tokenResponse) (body : string) (rest : list TokenReply)
  (otherFlows : M unit) :
  String.length b = 16%nat ->
  hd None (saveFaults w) = None ->
  disk w2 = disk (snd (step1.startRemoteLogin (inr b) w)) ->
  Unix w2 <= Unix w + 600 ->
  hd None (saveFaults w2) = None ->
  tokenServer w2 = Reply 200 tr body :: rest ->
  tr_AccessToken tr <> "" ->
  auth.extractCodeAndState pasted = (code, hex.EncodeToString b) ->
  code <> "" ->
  let redirectURI :=
    if String.eqb (RedirectURI (cfg w)) "" then step1.defaultRedirectURI
    else RedirectURI (cfg w) in
  let granted := Tok.mk (tr_AccessToken tr) (tr_RefreshToken tr)
                   (tr_ExpiresAt tr) (tr_TokenType tr) in
  let final := mkConfig (ClientID (cfg w)) (ClientSecret (cfg w))
                 (RedirectURI (cfg w)) granted None in
  let run := cmd.runAuthLogin pasted otherFlows w2 in
  fst run = inr tt
  /\ log (snd run)
     = (log w2
        ++ [EvPostForm [("client_id", ClientID (cfg w));
                        ("client_secret", ClientSecret (cfg w));
                        ("code", code); ("grant_type", "authorization_code");
                        ("redirect_uri", redirectURI)];
            EvSave final;
            EvPrintln
              "Successfully authenticated! Tokens stored in ~/.config/strava-cli/config.json"])%list
  /\ cfg (snd run) = final
  /\ disk (snd run) = Stored final.
Proof.
  intros Hlen Hsave Hdisk Hclock Hsave2 Hsrv Hgrant Hextract Hcode. cbv zeta.
  destruct (startRemoteLogin_effects b w Hsave) as (_ & _ & H3 & _).
  cbv zeta in H3. rewrite H3 in Hdisk.
  set (redirectURI := if String.eqb (RedirectURI (cfg w)) ""
                      then step1.defaultRedirectURI else RedirectURI (cfg w)) in *.
  set (pending := Pend.mk (hex.EncodeToString b) redirectURI (Unix w + 600)) in *.
  assert (Hpasted : pasted <> "").
  { intros ->. apply Hcode. inversion Hextract. reflexivity. }
  assert (Hstate : hex.EncodeToString b <> "").
  { intro H. pose proof (hex_length b) as Hl. rewrite H, Hlen in Hl. discriminate Hl. }
  rewrite (runAuthLogin_stored w2 _ pasted otherFlows Hpasted Hdisk).
  rewrite (completeRemoteLogin_pending
             (set_cfg w2 (set_PendingAuth (cfg w) (Some pending))) pending pasted
             eq_refl Hclock).
  unfold auth.CompleteRemoteLogin. rewrite Hextract.
  cbn [Pend.State Pend.RedirectURI pending].
  rewrite (eqb_empty_false _ Hstate), String.eqb_refl, (eqb_empty_false _ Hcode).
  unfold auth.exchangeCode, auth.postToken, auth.nextTokenReply. monad.
  rewrite Hsrv. simpl. rewrite (eqb_empty_false _ Hgrant). simpl.
  unfold storeTokens. monad.
  rewrite Save_no_fault by (simpl; exact Hsave2). simpl.
  rewrite <- !app_assoc. repeat split; reflexivity.
Qed.

(** Step 1 on the bytes 0 to 15, then step 2 five minutes later on the
    URL the browser was sent to, with the code "4/ab c" and the parameters in
    the order in which Strava sends them. *)
Lemma remote_login_two_steps_witness :
  let w := exStep1 in
  let after1 := snd (step1.startRemoteLogin (inr exRandom) w) in
  let w2 := set_clock (set_cfg after1 emptyConfig) (1700000300 * Second) in
  let run := cmd.runAuthLogin
               (redirectedTo "http://localhost:8089/callback"
                  [("state", "000102030405060708090a0b0c0d0e0f");
                   ("code", "4/ab c"); ("scope", "read,activity:write")])
               exOtherFlows w2 in
  fst run = inr tt
  /\ disk (snd run) = Stored (mkConfig "cid" "csecret" "" exNewTokens None).
Proof.
  cbv zeta.
  destruct (remote_login_two_steps exRandom exStep1
              (set_clock (set_cfg (snd (step1.startRemoteLogin (inr exRandom) exStep1))
                            emptyConfig) (1700000300 * Second))
              (redirectedTo "http://localhost:8089/callback"
                 [("state", "000102030405060708090a0b0c0d0e0f");
                  ("code", "4/ab c"); ("scope", "read,activity:write")])
              "4/ab c" exGrant "{}" [] exOtherFlows)
    as (H1 & _ & _ & H4).
  - reflexivity.
  - reflexivity.
  - vm_compute. reflexivity.
  - vm_compute. discriminate.
  - vm_compute. reflexivity.
  - vm_compute. reflexivity.
  - discriminate.
  - vm_compute. reflexivity.
  - discriminate.
  - split; [exact H1|exact H4].
Defined.

(** ** Step 1: failures *)

(** X12.  When step 1 fails, nothing has been printed.  Either the random
    bytes could not be read: then the error is "generate state" around the
    cause and nothing at all has happened.  Or the save failed: then the
    error is "save pending state" around the error of the save, no URL has
    been shown (so no state is in use that the file does not hold), and the
    file is as it was or does not parse. *)
Theorem startRemoteLogin_failure (random : error + string) (w : World) (e : error) :
  fst (step1.startRemoteLogin random w) = inl e ->
  let w' := snd (step1.startRemoteLogin random w) in
  (exists cause, random = inl cause
                 /\ e = Errorf "generate state: %w" [ArgW cause] /\ w' = w)
  \/ (exists e', e = Errorf "save pending state: %w" [ArgW e']
                 /\ isSaveError e'
                 /\ (log w' = log w \/ exists c, log w' = (log w ++ [EvSave c])%list)
                 /\ (disk w' = disk w \/ disk w' = Corrupt)).
Proof.
  unfold step1.startRemoteLogin. destruct random as [cause|b]; cbn [oauth.GenerateState].
  { intro H. inversion H. left. exists cause. auto. }
  monad.
  set (c1 := set_PendingAuth (cfg w) _).
  pose proof (Save_effects c1 (set_cfg w c1)) as (Hlog & _).
  pose proof (Save_outcome c1 (set_cfg w c1)) as Hout. cbv zeta in Hlog, Hout.
  destruct (config.Save c1 (set_cfg w c1)) as [[e'|[]] w1]; simpl in *;
    [|discriminate].
  intro H. inversion H. right. exists e'. destruct Hout as [Hse Hd].
  split; [reflexivity|]. split; [exact Hse|]. split; [|exact Hd].
  destruct Hlog as [Hl|Hl]; [left; exact Hl|right; eauto].
Qed.

(** A disk that is full when step 1 saves. *)
Lemma startRemoteLogin_failure_witness :
  let w := set_saveFaults exStep1 [Some (FaultOpen "no space left on device")] in
  let res := step1.startRemoteLogin (inr exRandom) w in
  fst res = inl (Errorf "save pending state: %w"
                   [ArgW (Errorf "write config: %w"
                            [ArgW (External "no space left on device")])])
  /\ log (snd res) = log w
  /\ disk (snd res) = disk w.
Proof.
  cbv zeta. split; [reflexivity|].
  destruct (startRemoteLogin_failure (inr exRandom)
              (set_saveFaults exStep1 [Some (FaultOpen "no space left on device")])
              _ eq_refl) as [(cause & H & _)|_].
  - discriminate H.
  - split; reflexivity.
Defined.

(** ** [strings.TrimSpace] in general *)

Lemma rev_app (a b : string) :
  strings.rev (a ++ b) = strings.rev b ++ strings.rev a.
Proof.
  induction a as [|x a IH]; simpl.
  - rewrite append_empty_r. reflexivity.
  - rewrite IH, string_app_assoc. reflexivity.
Qed.

Lemma rev_length (s : string) : String.length (strings.rev s) = String.length s.
Proof.
  induction s as [|x s IH]; simpl; [reflexivity|].
  rewrite length_append, IH. simpl. lia.
Qed.

Lemma stripBytes_suffix (bs : list Z) :
  forall s s', strings.stripBytes bs s = Some s' ->
  exists p, s = p ++ s' /\ String.length p = List.length bs.
Proof.
  induction bs as [|b bs IH]; intros s s'; simpl.
  - intro H. inversion H. exists "". split; reflexivity.
  - destruct s as [|c s]; [discriminate|].
    destruct (byte_val c =? b); [|discriminate].
    intro H. destruct (IH s s' H) as (p & -> & Hl).
    exists (String c p). split; [reflexivity|]. simpl. now rewrite Hl.
Qed.

Lemma stripBytes_app (bs : list Z) :
  forall s s' x, strings.stripBytes bs s = Some s' ->
  strings.stripBytes bs (s ++ x) = Some (s' ++ x).
Proof.
  induction bs as [|b bs IH]; intros s s' x; simpl.
  - intro H. inversion H. reflexivity.
  - destruct s as [|c s]; [discriminate|]. simpl.
    destruct (byte_val c =? b); [|discriminate]. apply IH.
Qed.

Lemma stripOne_suffix (runes : list (list Z)) :
  Forall (fun r => r <> []) runes ->
  forall s s', strings.stripOne runes s = Some s' ->
  exists p, s = p ++ s' /\ (0 < String.length p)%nat.
Proof.
  induction runes as [|r runes IH]; intros Hne s s'; simpl; [discriminate|].
  inversion Hne as [|r0 l Hr Hrest]; subst.
  destruct (strings.stripBytes r s) as [t|] eqn:Hs.
  - intro H. inversion H; subst t.
    destruct (stripBytes_suffix r s s' Hs) as (p & -> & Hl).
    exists p. split; [reflexivity|]. rewrite Hl. destruct r; [congruence|simpl; lia].
  - apply IH. exact Hrest.
Qed.

Lemma stripOne_app (runes : list (list Z)) :
  forall s s' x, strings.stripOne runes s = Some s' ->
  exists t, strings.stripOne runes (s ++ x) = Some t.
Proof.
  induction runes as [|r runes IH]; intros s s' x; simpl; [discriminate|].
  destruct (strings.stripBytes r s) as [t|] eqn:Hs.
  - intros _. rewrite (stripBytes_app r s t x Hs). eauto.
  - intro H. destruct (strings.stripBytes r (s ++ x)); [eauto|].
    exact (IH s s' x H).
Qed.

(** What [trimLeading] returns is the end of its argument, and with
    enough steps it begins with none of the runes. *)
Lemma trimLeading_spec (runes : list (list Z)) :
  Forall (fun r => r <> []) runes ->
  forall fuel s,
  (String.length s <= fuel)%nat ->
  (exists p, s = p ++ strings.trimLeading fuel runes s)
  /\ strings.stripOne runes (strings.trimLeading fuel runes s) = None.
Proof.
  intro Hne. induction fuel as [|fuel IH]; intros s Hlen.
  - destruct s; [|simpl in Hlen; lia]. simpl. split; [exists ""; reflexivity|].
    destruct (strings.stripOne runes "") as [t|] eqn:H; [|reflexivity].
    destruct (stripOne_suffix runes Hne "" t H) as (p & Hp & Hl).
    destruct p; [simpl in Hl; lia|discriminate Hp].
  - simpl. destruct (strings.stripOne runes s) as [t|] eqn:H.
    + destruct (stripOne_suffix runes Hne s t H) as (p & -> & Hl).
      rewrite length_append in Hlen.
      destruct (IH t ltac:(lia)) as ((p' & Hp') & Hnone).
      split; [|exact Hnone].
      exists (p ++ p'). rewrite string_app_assoc, <- Hp'. reflexivity.
    + split; [exists ""; reflexivity|exact H].
Qed.

Lemma trimLeading_fixed (runes : list (list Z)) (fuel : nat) (s : string) :
  strings.stripOne runes s = None -> strings.trimLeading fuel runes s = s.
Proof. intro H. destruct fuel; simpl; [reflexivity|]. rewrite H. reflexivity. Qed.

Lemma spaceRunes_nonempty :
  Forall (fun r : list Z => r <> []) strings.spaceRunes
  /\ Forall (fun r : list Z => r <> []) (map (@List.rev Z) strings.spaceRunes).
Proof. split; repeat constructor; discriminate. Qed.

(** [TrimSpace s] is a part of [s] that neither begins nor ends with
    white space. *)
Lemma TrimSpace_spec (s : string) :
  (exists p x, s = p ++ strings.TrimSpace s ++ x)
  /\ strings.stripOne strings.spaceRunes (strings.TrimSpace s) = None
  /\ strings.stripOne (map (@List.rev Z) strings.spaceRunes)
       (strings.rev (strings.TrimSpace s)) = None.
Proof.
  destruct spaceRunes_nonempty as [Hl Hr].
  unfold strings.TrimSpace, strings.TrimRight, strings.TrimLeft.
  destruct (trimLeading_spec _ Hl (String.length s) s (le_n _)) as ((p & Hp) & Hnone).
  set (t := strings.trimLeading (String.length s) strings.spaceRunes s) in *.
  destruct (trimLeading_spec _ Hr (String.length t) (strings.rev t)
              ltac:(rewrite rev_length; lia)) as ((x & Hx) & Hnone').
  set (u := strings.trimLeading (String.length t) _ (strings.rev t)) in *.
  assert (Ht : t = strings.rev u ++ strings.rev x).
  { rewrite <- (rev_involutive t), Hx, rev_app. reflexivity. }
  split; [|split].
  - exists p, (strings.rev x). rewrite <- Ht. exact Hp.
  - destruct (strings.stripOne strings.spaceRunes (strings.rev u)) as [y|] eqn:Hy;
      [|reflexivity].
    destruct (stripOne_app _ _ _ (strings.rev x) Hy) as (z & Hz).
    rewrite <- Ht, Hnone in Hz. discriminate Hz.
  - rewrite rev_involutive. exact Hnone'.
Qed.

Lemma TrimSpace_idempotent (s : string) :
  strings.TrimSpace (strings.TrimSpace s) = strings.TrimSpace s.
Proof.
  destruct (TrimSpace_spec s) as (_ & Hl & Hr).
  set (t := strings.TrimSpace s) in *.
  unfold strings.TrimSpace, strings.TrimRight, strings.TrimLeft.
  rewrite (trimLeading_fixed _ _ t Hl), (trimLeading_fixed _ _ _ Hr).
  apply rev_involutive.
Qed.

(** ** [stripHTML] *)

Lemma afterGt_none (s : string) :
  uploads.afterGt s = None <-> strings.ContainsByte s ">" = false.
Proof.
  induction s as [|c s IH]; simpl; [tauto|].
  destruct (Ascii.eqb c ">"); simpl; [split; discriminate|exact IH].
Qed.

Lemma afterGt_length (s r : string) :
  uploads.afterGt s = Some r -> (String.length r < String.length s)%nat.
Proof.
  induction s as [|c s IH]; simpl; [discriminate|].
  destruct (Ascii.eqb c ">").
  - intro H. inversion H. lia.
  - intro H. specialize (IH H). lia.
Qed.

Lemma afterGt_app (s r x : string) :
  uploads.afterGt s = Some r -> uploads.afterGt (s ++ x) = Some (r ++ x).
Proof.
  induction s as [|c s IH]; simpl; [discriminate|].
  destruct (Ascii.eqb c ">"); [intro H; inversion H; reflexivity|exact IH].
Qed.

Lemma closeTag_length (s r : string) :
  uploads.closeTag s = Some r -> (String.length r < String.length s)%nat.
Proof.
  destruct s as [|c s]; simpl; [discriminate|].
  destruct (Ascii.eqb c ">"); [discriminate|].
  intro H. apply afterGt_length in H. lia.
Qed.

Lemma closeTag_app (s r x : string) :
  uploads.closeTag s = Some r -> uploads.closeTag (s ++ x) = Some (r ++ x).
Proof.
  destruct s as [|c s]; simpl; [discriminate|].
  destruct (Ascii.eqb c ">"); [discriminate|apply afterGt_app].
Qed.

Lemma stripTags_empty (fuel : nat) : uploads.stripTags fuel "" = "".
Proof. destruct fuel; reflexivity. Qed.

(** Without a ">" there is no tag to strip. *)
Lemma stripTags_no_gt (fuel : nat) :
  forall s, strings.ContainsByte s ">" = false -> uploads.stripTags fuel s = s.
Proof.
  induction fuel as [|fuel IH]; intros s H; [reflexivity|].
  destruct s as [|c s]; [reflexivity|]. simpl in *.
  apply orb_false_iff in H as [Hc Hs].
  assert (Hclose : uploads.closeTag s = None).
  { destruct s as [|d s]; [reflexivity|]. simpl in *.
    apply orb_false_iff in Hs as [Hd Hs]. rewrite Hd.
    apply afterGt_none. exact Hs. }
  rewrite Hclose, (IH s Hs). destruct (Ascii.eqb c "<"); reflexivity.
Qed.

Lemma closeTag_stripTags (fuel : nat) (s : string) :
  (String.length s <= fuel)%nat ->
  uploads.closeTag s = None ->
  uploads.closeTag (uploads.stripTags fuel s) = None.
Proof.
  intros Hlen H. destruct s as [|d s]; [rewrite stripTags_empty; reflexivity|].
  destruct fuel as [|fuel]; [simpl in Hlen; lia|].
  simpl in H. destruct (Ascii.eqb d ">") eqn:Hd.
  - apply Ascii.eqb_eq in Hd. subst d. reflexivity.
  - apply afterGt_none in H.
    rewrite stripTags_no_gt by (simpl; rewrite Hd, H; reflexivity).
    simpl. rewrite Hd. apply afterGt_none. exact H.
Qed.

(** What is left after the tags are stripped contains no tag. *)
Lemma stripTags_no_tag (fuel : nat) :
  forall s, (String.length s <= fuel)%nat ->
  hasTag (uploads.stripTags fuel s) = false.
Proof.
  induction fuel as [|fuel IH]; intros s Hlen.
  - destruct s; [reflexivity|simpl in Hlen; lia].
  - destruct s as [|c s]; [reflexivity|]. simpl in Hlen.
    cbn [uploads.stripTags].
    destruct (Ascii.eqb c "<") eqn:Hc.
    + destruct (uploads.closeTag s) as [rest|] eqn:Hclose.
      * apply IH. apply closeTag_length in Hclose. lia.
      * cbn [hasTag].
        rewrite (closeTag_stripTags fuel s ltac:(lia) Hclose), (IH s ltac:(lia)).
        rewrite andb_false_r. reflexivity.
    + cbn [hasTag]. rewrite Hc, (IH s ltac:(lia)). reflexivity.
Qed.

(** A text without a tag is left as it is. *)
Lemma stripTags_tag_free (fuel : nat) :
  forall s, hasTag s = false -> uploads.stripTags fuel s = s.
Proof.
  induction fuel as [|fuel IH]; intros s H; [reflexivity|].
  destruct s as [|c s]; [reflexivity|]. cbn [hasTag] in H.
  apply orb_false_iff in H as [H1 H2]. cbn [uploads.stripTags].
  rewrite (IH s H2).
  destruct (Ascii.eqb c "<"); [|reflexivity].
  destruct (uploads.closeTag s); [discriminate H1|reflexivity].
Qed.

Lemma stripTags_length (fuel : nat) :
  forall s, (String.length (uploads.stripTags fuel s) <= String.length s)%nat.
Proof.
  induction fuel as [|fuel IH]; intros s; [simpl; lia|].
  destruct s as [|c s]; [simpl; lia|]. cbn [uploads.stripTags].
  destruct (Ascii.eqb c "<").
  - destruct (uploads.closeTag s) as [rest|] eqn:Hclose.
    + apply closeTag_length in Hclose. specialize (IH rest). simpl. lia.
    + specialize (IH s). simpl. lia.
  - specialize (IH s). simpl. lia.
Qed.

Lemma hasTag_suffix (p s : string) : hasTag (p ++ s) = false -> hasTag s = false.
Proof.
  induction p as [|c p IH]; simpl; [tauto|].
  intro H. apply orb_false_iff in H as [_ H]. exact (IH H).
Qed.

Lemma hasTag_prefix (p x : string) : hasTag (p ++ x) = false -> hasTag p = false.
Proof.
  induction p as [|c p IH]; [reflexivity|]. cbn [append hasTag].
  intro H. apply orb_false_iff in H as [H1 H2]. rewrite (IH H2), orb_false_r.
  destruct (Ascii.eqb c "<"); [|reflexivity].
  destruct (uploads.closeTag p) as [r|] eqn:Hc; [|reflexivity].
  rewrite (closeTag_app p r x Hc) in H1. discriminate H1.
Qed.

(** X21.  [stripHTML] does what its name says.  Its result contains no match of
    the expression of a tag and has no white space left to trim at its ends,
    so that stripping it again changes nothing; it is never longer than the
    text it was given; and a text without "<" is only trimmed. *)
Theorem stripHTML_leaves_no_tag (s : string) :
  hasTag (uploads.stripHTML s) = false
  /\ strings.TrimSpace (uploads.stripHTML s) = uploads.stripHTML s
  /\ uploads.stripHTML (uploads.stripHTML s) = uploads.stripHTML s
  /\ (String.length (uploads.stripHTML s) <= String.length s)%nat
  /\ (strings.ContainsByte s "<" = false ->
      uploads.stripHTML s = strings.TrimSpace s).
Proof.
  assert (Hfree : hasTag (uploads.stripHTML s) = false).
  { unfold uploads.stripHTML.
    pose proof (stripTags_no_tag (String.length s) s (le_n _)) as Ht.
    destruct (TrimSpace_spec (uploads.stripTags (String.length s) s))
      as ((p & x & Hpx) & _).
    rewrite Hpx in Ht. apply hasTag_suffix in Ht. apply hasTag_prefix in Ht.
    exact Ht. }
  split; [exact Hfree|]. split; [|split; [|split]].
  - unfold uploads.stripHTML. apply TrimSpace_idempotent.
  - unfold uploads.stripHTML at 1.
    rewrite (stripTags_tag_free _ _ Hfree).
    unfold uploads.stripHTML. apply TrimSpace_idempotent.
  - unfold uploads.stripHTML.
    destruct (TrimSpace_spec (uploads.stripTags (String.length s) s))
      as ((p & x & Hpx) & _).
    pose proof (stripTags_length (String.length s) s) as Hl.
    rewrite Hpx, !length_append in Hl. lia.
  - intro H. unfold uploads.stripHTML. f_equal.
    apply stripTags_tag_free. clear Hfree.
    induction s as [|c s IH]; [reflexivity|]. simpl in *.
    apply orb_false_iff in H as [Hc Hs]. rewrite Hc, (IH Hs). reflexivity.
Qed.

(** ** [config.Save] on the file system, again and again *)

(** A save that runs to its end, in one equation. *)
Lemma Save_result (encodeString : string -> string) (encodeInt : Z -> string)
  (c : Config) (fs : configfile.FS) :
  configfile.Save encodeString encodeInt c fs
  = configfile.mkFS
      (Some (match configfile.dir fs with
             | Some m => m
             | None => Z.ldiff 448 (configfile.umask fs)
             end))
      (Some (configfile.mkFile
               (match configfile.file fs with
                | Some old => configfile.mode old
                | None => Z.ldiff 384 (configfile.umask fs)
                end)
               (configfile.MarshalIndent encodeString encodeInt c)))
      (configfile.umask fs).
Proof.
  unfold configfile.Save, configfile.Save_ops.
  change (configfile.run (?a :: ?b :: ?l) fs)
    with (configfile.run l (configfile.step (configfile.step fs a) b)).
  destruct fs as [[d|] [f|] u];
    cbn [configfile.step configfile.dir configfile.file configfile.umask
         configfile.mode];
    (erewrite run_writes by reflexivity);
    rewrite string_of_list_ascii_of_string; reflexivity.
Qed.

(** X22.  Saving again.  A second save replaces the text of the first one by
    its own, whole, and leaves the directory and the mode of the file as the
    first save left them: after a first save that created the file, no later
    save gives group or others any access.  Saving the same configuration
    twice is the same as saving it once. *)
Theorem Save_again
  (encodeString : string -> string) (encodeInt : Z -> string)
  (c1 c2 : Config) (fs : configfile.FS) :
  let save := configfile.Save encodeString encodeInt in
  let text := configfile.MarshalIndent encodeString encodeInt in
  exists d m,
    save c1 fs = configfile.mkFS (Some d) (Some (configfile.mkFile m (text c1)))
                   (configfile.umask fs)
    /\ save c2 (save c1 fs)
       = configfile.mkFS (Some d) (Some (configfile.mkFile m (text c2)))
           (configfile.umask fs)
    /\ save c2 (save c1 fs) = save c2 (save c2 (save c1 fs))
    /\ (configfile.file fs = None -> Z.land m 63 = 0).
Proof.
  cbv zeta. do 2 eexists.
  rewrite !Save_result.
  cbn [configfile.dir configfile.file configfile.umask configfile.mode].
  split; [reflexivity|]. split; [reflexivity|]. split; [reflexivity|].
  intros ->. apply ldiff_no_group_other.
Qed.

(** ** [parseID] and the printing of an id *)

Lemma digit_char (d : Z) :
  0 <= d < 10 ->
  url.isDigit (byte_of (48 + d)) = true
  /\ byte_val (byte_of (48 + d)) - 48 = d.
Proof.
  intro H.
  assert (Hd : d = 0 \/ d = 1 \/ d = 2 \/ d = 3 \/ d = 4 \/ d = 5 \/ d = 6
               \/ d = 7 \/ d = 8 \/ d = 9) by lia.
  repeat (destruct Hd as [-> | Hd]; [split; reflexivity|]).
  subst d. split; reflexivity.
Qed.

Lemma strconv_constants :
  strconv.maxUint64 / 10 + 1 = 1844674407370955162
  /\ strconv.maxUint64 = 18446744073709551615
  /\ 2 ^ 63 = 9223372036854775808.
Proof. repeat split. Qed.

(** Reading a digit on top of the value [k]. *)
Lemma parseDigits_digit (d k : Z) (acc : string) :
  0 <= d < 10 -> 0 <= k -> k * 10 + d <= 2 ^ 63 ->
  strconv.parseDigits (String (byte_of (48 + d)) acc) k
  = strconv.parseDigits acc (k * 10 + d).
Proof.
  intros Hd Hk Hn. destruct (digit_char d Hd) as [H1 H2].
  destruct strconv_constants as (C1 & C2 & C3).
  cbn [strconv.parseDigits]. rewrite H1. cbv zeta. rewrite H2, C1, C2.
  rewrite C3 in Hn.
  assert ((1844674407370955162 <=? k) = false) as -> by (apply Z.leb_gt; lia).
  assert ((18446744073709551615 <? k * 10 + d) = false) as ->
    by (apply Z.ltb_ge; lia).
  reflexivity.
Qed.

(** Reading the digits of [n] gives [n]. *)
Lemma parseDigits_digits (fuel : nat) :
  forall (n : Z) (acc : string),
  0 <= n -> n < 2 ^ Z.of_nat fuel -> n <= 2 ^ 63 ->
  strconv.parseDigits (configfile.digits fuel n acc) 0 = strconv.parseDigits acc n.
Proof.
  induction fuel as [|fuel IH]; intros n acc H0 Hf Hn.
  - change (2 ^ Z.of_nat 0) with 1 in Hf. replace n with 0 by lia. reflexivity.
  - cbn [configfile.digits]. cbv zeta.
    assert (Hmod : 0 <= n mod 10 < 10) by (apply Z.mod_pos_bound; lia).
    assert (Hdiv : n = n / 10 * 10 + n mod 10)
      by (rewrite Z.mul_comm; apply Z.div_mod; lia).
    destruct (n / 10 =? 0) eqn:Hq.
    + apply Z.eqb_eq in Hq. rewrite Hq in Hdiv.
      rewrite parseDigits_digit by lia. f_equal. lia.
    + apply Z.eqb_neq in Hq.
      assert (Hq0 : 0 <= n / 10) by (apply Z.div_pos; lia).
      rewrite Nat2Z.inj_succ, Z.pow_succ_r in Hf by lia.
      rewrite IH; try lia.
      rewrite parseDigits_digit by lia. f_equal. lia.
Qed.

Lemma digits_shape (fuel : nat) :
  forall (n : Z) (acc : string),
  (exists c r, acc = String c r /\ url.isDigit c = true) ->
  exists c r, configfile.digits fuel n acc = String c r /\ url.isDigit c = true.
Proof.
  induction fuel as [|fuel IH]; intros n acc Hacc; [exact Hacc|].
  cbn [configfile.digits]. cbv zeta.
  assert (Hd : exists c r, String (byte_of (48 + n mod 10)) acc = String c r
                           /\ url.isDigit c = true).
  { do 2 eexists. split; [reflexivity|].
    apply digit_char. apply Z.mod_pos_bound. lia. }
  destruct (n / 10 =? 0); [exact Hd|apply IH; exact Hd].
Qed.

Lemma decimal_nonneg (n : Z) :
  0 <= n -> n <= 2 ^ 63 ->
  let s := configfile.digits (Z.to_nat (Z.log2 n + 1)) n "" in
  (exists c r, s = String c r /\ url.isDigit c = true)
  /\ strconv.parseDigits s 0 = Some n.
Proof.
  intros H0 Hn. cbv zeta.
  assert (Hfuel : exists f, Z.to_nat (Z.log2 n + 1) = S f).
  { pose proof (Z.log2_nonneg n). exists (Z.to_nat (Z.log2 n)).
    rewrite Z2Nat.inj_add by lia. simpl. lia. }
  destruct Hfuel as [f Hf]. split.
  - rewrite Hf. cbn [configfile.digits]. cbv zeta.
    assert (Hd : exists c r, String (byte_of (48 + n mod 10)) "" = String c r
                             /\ url.isDigit c = true).
    { do 2 eexists. split; [reflexivity|].
      apply digit_char. apply Z.mod_pos_bound. lia. }
    destruct (n / 10 =? 0); [exact Hd|apply digits_shape; exact Hd].
  - rewrite parseDigits_digits; try assumption; [reflexivity|].
    rewrite Z2Nat.id by (pose proof (Z.log2_nonneg n); lia).
    destruct (Z.eq_dec n 0) as [->|Hne]; [reflexivity|].
    apply Z.log2_spec. lia.
Qed.

Lemma parseDigits_nonneg (s : string) :
  forall k un, 0 <= k -> strconv.parseDigits s k = Some un -> 0 <= un.
Proof.
  induction s as [|c s IH]; intros k un Hk; cbn [strconv.parseDigits].
  - intro H. inversion H. lia.
  - destruct (url.isDigit c) eqn:Hc; [|discriminate]. cbv zeta.
    destruct (_ <=? k); [discriminate|].
    destruct (_ <? _); [discriminate|].
    apply IH. unfold url.isDigit in Hc. cbv zeta in Hc.
    apply andb_true_iff in Hc as [Hc _]. apply Z.leb_le in Hc. lia.
Qed.

(** X23.  The ids the program prints are the ids it reads.  [parseID] reads
    back every [int64] from the decimal text that "%d" prints for it, the
    smallest one included; and whatever text it accepts, the id it returns
    is an [int64]: there is no wrap-around. *)
Theorem parseID_reads_printed_id :
  (forall n, int64_min <= n <= int64_max ->
     ids.parseID (strconv.FormatInt n) = inr n)
  /\ (forall s n, ids.parseID s = inr n -> int64_min <= n <= int64_max)
  /\ ids.parseID "" = inl (Errorf "invalid ID %q: must be a number" [ArgQ ""]).
Proof.
  destruct strconv_constants as (_ & _ & C3).
  split; [|split; [|reflexivity]].
  - intros n [Hlo Hhi]. unfold int64_min, int64_max in *.
    unfold ids.parseID, strconv.FormatInt, configfile.decimal.
    destruct (n <? 0) eqn:Hneg.
    + apply Z.ltb_lt in Hneg.
      destruct (decimal_nonneg (- n) ltac:(lia) ltac:(lia)) as ((c & r & Hs & Hc) & Hp).
      cbv zeta in *.
      change ("-" ++ ?x) with (String "-" x).
      unfold strconv.ParseInt. cbv zeta.
      change (Ascii.eqb "-" "-") with true. change (Ascii.eqb "-" "+") with false.
      cbn [orb negb andb]. unfold strconv.ParseUint.
      rewrite Hs at 1. cbn [String.eqb]. rewrite Hp.
      assert ((2 ^ 63 <? - n) = false) as -> by (apply Z.ltb_ge; lia).
      rewrite Z.opp_involutive. reflexivity.
    + apply Z.ltb_ge in Hneg.
      destruct (decimal_nonneg n ltac:(lia) ltac:(lia)) as ((c & r & Hs & Hc) & Hp).
      cbv zeta in *.
      unfold strconv.ParseInt. rewrite Hs. cbv zeta.
      assert (Hplus : Ascii.eqb c "+" = false).
      { destruct (Ascii.eqb_spec c "+"%char) as [->|]; [discriminate Hc|reflexivity]. }
      assert (Hminus : Ascii.eqb c "-" = false).
      { destruct (Ascii.eqb_spec c "-"%char) as [->|]; [discriminate Hc|reflexivity]. }
      rewrite Hplus, Hminus. cbn [orb negb andb]. unfold strconv.ParseUint.
      cbn [String.eqb]. rewrite <- Hs, Hp.
      assert ((2 ^ 63 <=? n) = false) as -> by (apply Z.leb_gt; lia).
      reflexivity.
  - intros s n. unfold ids.parseID, strconv.ParseInt. unfold int64_min, int64_max.
    destruct s as [|c s]; [discriminate|]. cbv zeta.
    unfold strconv.ParseUint.
    destruct (String.eqb _ ""); [discriminate|].
    destruct (strconv.parseDigits _ 0) as [un|] eqn:Hp; [|discriminate].
    apply parseDigits_nonneg in Hp; [|lia].
    destruct (Ascii.eqb c "-"); cbn [negb andb].
    + destruct (2 ^ 63 <? un) eqn:Hr; [discriminate|].
      apply Z.ltb_ge in Hr. intro H. inversion H. lia.
    + destruct (2 ^ 63 <=? un) eqn:Hr; [discriminate|].
      apply Z.leb_gt in Hr. intro H. inversion H. lia.
Qed.
